(** * Curation state machine of the Spanish flashcard builder

    A shallow embedding of [pipeline/curate/state.py]: the traversal cursor
    over the headword list, the lazily filled per-headword entry counts, the
    lookup cache, and the load/save of the history file.  Python integers
    are [Z], dictionaries are [gmap]s keyed by strings, the headword list is
    a [list string], and the effects of the class [State] (mutation of its
    fields, logging, calls of [look_up], writes of the history file,
    [sys.exit]) are threaded through a small state-and-exit monad. *)

From Stdlib Require Import ZArith Lia Ascii.
From stdpp Require Import base option strings list gmap.

Local Open Scope string_scope.
Local Open Scope list_scope.
Local Open Scope Z_scope.

Set Warnings "-register-all,-clear-no-such-hyp".

(** ** Values produced by [json.load] and consumed by [json.dump] *)

Inductive pyjson : Type :=
| JNull
| JBool (b : bool)
| JInt (z : Z)
| JFloat (lexeme : string)
| JStr (s : string)
| JList (l : list pyjson)
| JDict (d : gmap string pyjson).

(** ** models.py *)

(** Modelled from the spec: [models.py] is not part of the sources at hand.
    The data model describes a term as a headword with an ordered sequence
    of entries, and [input_handler.py] reads [entry.raw_data],
    [word.entries].  Neither class defines a truth value in the uses seen
    here, so a term object is always truthy ([if term:] only tells a term
    from [None]). *)
Record DictionaryEntry : Type := { raw_data : pyjson }.

Record DictionaryTerm : Type :=
  { headword : string; entries : list DictionaryEntry }.

(** ** mw_api.py: [look_up] *)

(** What a call of [look_up] does: it raises, returns [None], or returns a
    term. *)
Inductive lookup_result : Type :=
| LookupRaises
| LookupNone
| LookupTerm (t : DictionaryTerm).

Section MwApi.

(** [_fetch_mw_data]: the decoded response of the dictionary service, or
    [None] when the request or the decoding failed. *)
Variable _fetch_mw_data : string → option pyjson.

(** The truth value Python gives the float a JSON number with a fraction
    or an exponent decodes to. *)
Variable float_is_true : string → bool.

(** The truth value of a decoded value. *)
Definition truthy (j : pyjson) : bool :=
  match j with
  | JNull => false
  | JBool b => b
  | JInt z => negb (z =? 0)
  | JFloat lexeme => float_is_true lexeme
  | JStr s => negb (bool_decide (s = ""))
  | JList l => match l with [] => false | _ => true end
  | JDict d => negb (Nat.eqb (size d) 0)
  end.

(** [d.get(key, default)] *)
Definition py_get (d : gmap string pyjson) (key : string) (dflt : pyjson) : pyjson :=
  default dflt (d !! key).

(** [s.replace("*", "")] *)
Fixpoint remove_stars (s : string) : string :=
  match s with
  | EmptyString => EmptyString
  | String a s' =>
      if Ascii.eqb a "*"%char then remove_stars s' else String a (remove_stars s')
  end.

(** The body of the loop of [look_up] for one element of the response:
    the element is kept, passed over, or an [AttributeError] is raised by
    a [.get] or [.replace] on a value that has no such method. *)
Inductive entry_check : Type := CheckRaises | CheckSkip | CheckKeep.

Definition check_entry (search_word : string) (entry : pyjson) : entry_check :=
  match entry with
  | JDict e =>
      match py_get e "meta" (JDict ∅) with
      | JDict meta =>
          match py_get meta "lang" JNull with
          | JStr "es" =>
              match py_get e "hwi" (JDict ∅) with
              | JDict hwi =>
                  match py_get hwi "hw" (JStr "") with
                  | JStr hw =>
                      if bool_decide (search_word = remove_stars hw) then
                        if truthy (py_get e "fl" JNull) && truthy (py_get e "shortdef" JNull)
                        then CheckKeep else CheckSkip
                      else CheckSkip
                  | _ => CheckRaises
                  end
              | _ => CheckRaises
              end
          | _ => CheckSkip
          end
      | _ => CheckRaises
      end
  | _ => CheckSkip
  end.

(** The loop: the elements kept, in order, or [None] when the loop raised. *)
Fixpoint matching_entries (search_word : string) (data : list pyjson)
    : option (list pyjson) :=
  match data with
  | [] => Some []
  | entry :: data =>
      match check_entry search_word entry with
      | CheckRaises => None
      | CheckSkip => matching_entries search_word data
      | CheckKeep => cons entry <$> matching_entries search_word data
      end
  end.

(** [look_up], as [components/vocab_selector/mw_api.py] has it. *)
Definition mw_look_up (search_word : string) : lookup_result :=
  match _fetch_mw_data search_word with
  | Some (JList (JDict first :: rest)) =>
      match matching_entries search_word (JDict first :: rest) with
      | None => LookupRaises
      | Some [] => LookupNone
      | Some (entry :: matching) =>
          LookupTerm {| headword := search_word;
                        entries := Build_DictionaryEntry <$> (entry :: matching) |}
      end
  | _ => LookupNone
  end.

End MwApi.

(** ** _StateData *)

Record _StateData : Type :=
  { headword_index : Z;
    entry_index : Z;
    headword_entry_count : gmap string Z }.

(** [_StateData()] *)
Definition _StateData_default : _StateData :=
  {| headword_index := 0; entry_index := 0; headword_entry_count := ∅ |}.

(** [to_json]: [self.__dict__], the three fields under their names. *)
Definition to_json (d : _StateData) : pyjson :=
  JDict (<["headword_index" := JInt (headword_index d)]>
        (<["entry_index" := JInt (entry_index d)]>
        (<["headword_entry_count" := JDict (JInt <$> headword_entry_count d)]> ∅))).

(** What [from_json], the call of [cls] with the decoded value unpacked
    into keyword arguments, makes of that value.  The dataclass
    constructor checks the keyword names and nothing else: a value that is
    not a mapping, or a mapping with a key that is not a field, raises
    [TypeError]; any value is stored as given.  The record of this model is
    typed, so a mapping whose values are not integers (or, for the counts,
    not a mapping to integers) is reported as [FromJsonUntyped]: Python
    builds the object, the typed model does not follow it further. *)
Inductive from_json_result : Type :=
| FromJsonTypeError
| FromJsonUntyped
| FromJsonData (d : _StateData).

Definition as_int (j : pyjson) : option Z :=
  match j with JInt z => Some z | _ => None end.

Definition as_int_dict (j : pyjson) : option (gmap string Z) :=
  match j with
  | JDict d =>
      if bool_decide (map_Forall (λ _ v, is_Some (as_int v)) d)
      then Some (omap as_int d) else None
  | _ => None
  end.

Definition field_names : gset string :=
  {[ "headword_index"; "entry_index"; "headword_entry_count" ]}.

(** A keyword argument when the key is present, the dataclass default
    otherwise. *)
Definition field_or {A} (conv : pyjson → option A) (dflt : A)
    (o : option pyjson) : option A :=
  match o with
  | None => Some dflt
  | Some j => conv j
  end.

Definition from_json (json_data : pyjson) : from_json_result :=
  match json_data with
  | JDict kw =>
      if bool_decide (dom kw ⊆ field_names) then
        match field_or as_int 0 (kw !! "headword_index"),
              field_or as_int 0 (kw !! "entry_index"),
              field_or as_int_dict ∅ (kw !! "headword_entry_count") with
        | Some h, Some e, Some c =>
            FromJsonData {| headword_index := h; entry_index := e;
                            headword_entry_count := c |}
        | _, _, _ => FromJsonUntyped
        end
      else FromJsonTypeError
  | _ => FromJsonTypeError
  end.

(** ** The world around the engine *)

(** What [os.path.exists], [open] and [json.load] make of the history
    file: absent, present but not readable ([IOError]), readable but not
    JSON ([JSONDecodeError]), or decoded to a value. *)
Inductive history_file : Type :=
| FileMissing
| FileUnreadable
| FileNotJson
| FileJson (j : pyjson).

Inductive level : Type := ERROR | WARNING | INFO.

(** One constructor per logging call of [state.py]. *)
Inductive message : Type :=
| NoHeadwordsWithEntriesFound
| GlobalHeadwordIndexOutOfRange
| FailedToGetTermSkipping (word : string)
| NoMoreValidTermsFound
| NoEntriesFoundForTerm (word : string)
| EntryIndexOutOfRange (i : Z) (word : string)
| NoEntryCountFoundForWord (word : string)
| ReachedTheEndOfTheVocabularyList
| PreviousWordHasNoEntries (word : string)
| AlreadyAtTheFirstEntry
| ErrorLookingUpWord (word : string)
| WordIndexOutOfRange (i : Z)
| ErrorLoadingHistory
| ErrorSavingHistory.

(** Which caller asked [_get_term_for_headword] for a word: the count of a
    headword that is not yet in [headword_entry_count]
    ([_set_headword_index]), or the term itself
    ([_has_entries_for_current_word], [current_term]).  The tag is ghost
    state: it is written to the trace and never read by the engine. *)
Inductive purpose : Type := ForCount | ForTerm.

Inductive event : Type :=
| Log (l : level) (m : message)
| LookUp (why : purpose) (word : string)
| WriteHistory (j : pyjson).

(** ** State *)

(** The fields of a [State] object that change ([_data], [_lookup_cache]),
    the history file on disk, and the trace of what the object did. *)
Record State : Type :=
  { _data : _StateData;
    _lookup_cache : gmap string DictionaryTerm;
    history : history_file;
    trace : list event }.

Definition set_data (d : _StateData) (st : State) : State :=
  {| _data := d; _lookup_cache := _lookup_cache st;
     history := history st; trace := trace st |}.

Definition set_lookup_cache (c : gmap string DictionaryTerm) (st : State) : State :=
  {| _data := _data st; _lookup_cache := c;
     history := history st; trace := trace st |}.

Definition set_history (f : history_file) (st : State) : State :=
  {| _data := _data st; _lookup_cache := _lookup_cache st;
     history := f; trace := trace st |}.

Definition add_event (ev : event) (st : State) : State :=
  {| _data := _data st; _lookup_cache := _lookup_cache st;
     history := history st; trace := trace st ++ [ev] |}.

Definition set_headword_index (i : Z) (d : _StateData) : _StateData :=
  {| headword_index := i; entry_index := entry_index d;
     headword_entry_count := headword_entry_count d |}.

Definition set_entry_index (i : Z) (d : _StateData) : _StateData :=
  {| headword_index := headword_index d; entry_index := i;
     headword_entry_count := headword_entry_count d |}.

Definition set_headword_entry_count (c : gmap string Z) (d : _StateData) : _StateData :=
  {| headword_index := headword_index d; entry_index := entry_index d;
     headword_entry_count := c |}.

(** The cursor: the pair the traversal is at. *)
Definition cursor (st : State) : Z * Z :=
  (headword_index (_data st), entry_index (_data st)).

(** ** Outcomes and the engine monad *)

Inductive exception : Type := TypeError | IndexError.

(** A call returns, stops the process with [sys.exit(1)], lets an exception
    escape, carries on with values the typed record cannot hold, or (in the
    model only) runs out of the fuel given to a loop. *)
Inductive outcome (A : Type) : Type :=
| Returned (a : A) (st : State)
| SysExit (st : State)
| Uncaught (e : exception) (st : State)
| Untyped (st : State)
| OutOfFuel.

Arguments Returned {A} a st.
Arguments SysExit {A} st.
Arguments Uncaught {A} e st.
Arguments Untyped {A} st.
Arguments OutOfFuel {A}.

Definition M (A : Type) : Type := State → outcome A.

Definition ret {A} (a : A) : M A := λ st, Returned a st.

Definition bind {A B} (m : M A) (k : A → M B) : M B :=
  λ st, match m st with
        | Returned a st' => k a st'
        | SysExit st' => SysExit st'
        | Uncaught e st' => Uncaught e st'
        | Untyped st' => Untyped st'
        | OutOfFuel => OutOfFuel
        end.

Notation "x <- m ;; k" := (bind m (λ x, k))
  (at level 100, m at next level, right associativity).
Notation "m ;; k" := (bind m (λ _, k))
  (at level 100, right associativity).

Definition get : M State := λ st, Returned st st.
Definition modify (f : State → State) : M unit := λ st, Returned tt (f st).
Definition modify_data (f : _StateData → _StateData) : M unit :=
  modify (λ st, set_data (f (_data st)) st).
Definition emit (ev : event) : M unit := modify (add_event ev).
Definition logging (l : level) (m : message) : M unit := emit (Log l m).
Definition sys_exit {A} : M A := λ st, SysExit st.
Definition raise {A} (e : exception) : M A := λ st, Uncaught e st.
Definition out_of_fuel {A} : M A := λ _, OutOfFuel.

(** [seq[i]] of Python: a negative index counts from the end, an index out
    of range is an [IndexError] ([None] here). *)
Definition py_getitem {A} (l : list A) (i : Z) : option A :=
  let n := Z.of_nat (length l) in
  if 0 <=? i then l !! Z.to_nat i
  else if - n <=? i then l !! Z.to_nat (n + i)
  else None.

(** ** The engine: class [State] *)

Section Engine.

(** [self._headwords], the list [_load_headword_list] returned; it is
    never assigned again. *)
Variable _headwords : list string.

(** [look_up] of [mw_api.py], the lookup provider: its network and
    parsing are outside the engine, here it is a function of the word
    for the length of a run. *)
Variable look_up : string → lookup_result.

(** Whether [open(paths.curator_history, "w")] succeeds. *)
Variable history_writable : bool.

Definition len_headwords : Z := Z.of_nat (length _headwords).

(** [_get_term_for_headword] *)
Definition _get_term_for_headword (why : purpose) (word : string)
    : M (option DictionaryTerm) :=
  st <- get ;;
  match _lookup_cache st !! word with
  | Some term => ret (Some term)
  | None =>
      emit (LookUp why word) ;;
      match look_up word with
      | LookupRaises =>
          logging ERROR (ErrorLookingUpWord word) ;;
          ret None
      | LookupNone => ret None
      | LookupTerm term =>
          modify (λ st, set_lookup_cache (<[word := term]> (_lookup_cache st)) st) ;;
          ret (Some term)
      end
  end.

(** [_has_entries_for_current_word]: every exception, the [IndexError]
    of the subscript included, is turned into [False]. *)
Definition _has_entries_for_current_word : M bool :=
  st <- get ;;
  match py_getitem _headwords (headword_index (_data st)) with
  | None => ret false
  | Some word =>
      term <- _get_term_for_headword ForTerm word ;;
      match term with
      | None => ret false
      | Some term => ret (0 <? Z.of_nat (length (entries term)))
      end
  end.

(** [_set_headword_index] *)
Definition _set_headword_index (index : Z) : M (option string) :=
  if negb ((0 <=? index) && (index <? len_headwords)) then
    logging ERROR (WordIndexOutOfRange index) ;;
    ret None
  else
    modify_data (set_headword_index index) ;;
    modify_data (set_entry_index 0) ;;
    match py_getitem _headwords index with
    | None => raise IndexError
    | Some word =>
        st <- get ;;
        match headword_entry_count (_data st) !! word with
        | Some _ => ret (Some word)
        | None =>
            term <- _get_term_for_headword ForCount word ;;
            let count := match term with
                         | Some term => Z.of_nat (length (entries term))
                         | None => 0
                         end in
            modify_data (λ d, set_headword_entry_count
                                (<[word := count]> (headword_entry_count d)) d) ;;
            ret (Some word)
        end
    end.

(** [_is_last_headword] *)
Definition _is_last_headword : M bool :=
  st <- get ;;
  ret (len_headwords - 1 <=? headword_index (_data st)).

(** [_advance_headword]: the [while True] loop, one iteration per unit
    of fuel. *)
Fixpoint _advance_headword_loop (fuel : nat) (step : Z) : M bool :=
  match fuel with
  | O => out_of_fuel
  | S fuel =>
      st <- get ;;
      let new_index := headword_index (_data st) + step in
      if negb ((0 <=? new_index) && (new_index <? len_headwords)) then
        ret false
      else
        word <- _set_headword_index new_index ;;
        match word with
        | None => ret false
        | Some word =>
            st <- get ;;
            if 0 <? default 0 (headword_entry_count (_data st) !! word)
            then ret true
            else _advance_headword_loop fuel step
        end
  end.

Definition _advance_headword (step : Z) : M bool :=
  _advance_headword_loop (S (length _headwords)) step.

(** [_go_to_next_headword] *)
Definition _go_to_next_headword : M bool := _advance_headword 1.

(** [_go_to_previous_headword] *)
Definition _go_to_previous_headword : M bool := _advance_headword (-1).

(** [_exit_with_error] *)
Definition _exit_with_error {A} : M A := sys_exit.

(** [current_term]: the recursive call after a skip takes one unit of
    fuel. *)
Fixpoint current_term_rec (fuel : nat) : M DictionaryTerm :=
  match fuel with
  | O => out_of_fuel
  | S fuel =>
      st <- get ;;
      match py_getitem _headwords (headword_index (_data st)) with
      | None =>
          logging ERROR GlobalHeadwordIndexOutOfRange ;;
          _exit_with_error
      | Some word =>
          term <- _get_term_for_headword ForTerm word ;;
          match term with
          | None =>
              logging WARNING (FailedToGetTermSkipping word) ;;
              moved <- _go_to_next_headword ;;
              if moved then current_term_rec fuel
              else
                logging ERROR NoMoreValidTermsFound ;;
                _exit_with_error
          | Some term => ret term
          end
      end
  end.

Definition current_term : M DictionaryTerm :=
  current_term_rec (S (S (length _headwords))).

(** [current_entry] *)
Definition current_entry : M DictionaryEntry :=
  term <- current_term ;;
  match entries term with
  | [] =>
      logging ERROR (NoEntriesFoundForTerm (headword term)) ;;
      _exit_with_error
  | _ :: _ =>
      st <- get ;;
      match py_getitem (entries term) (entry_index (_data st)) with
      | Some entry => ret entry
      | None =>
          logging ERROR (EntryIndexOutOfRange (entry_index (_data st)) (headword term)) ;;
          _exit_with_error
      end
  end.

(** [_save_history] *)
Definition _save_history : M unit :=
  if history_writable then
    st <- get ;;
    modify (set_history (FileJson (to_json (_data st)))) ;;
    emit (WriteHistory (to_json (_data st)))
  else logging ERROR ErrorSavingHistory.

(** [_load_history]: [TypeError] is not among the exceptions caught. *)
Definition _load_history : M unit :=
  st <- get ;;
  match history st with
  | FileMissing => ret tt
  | FileUnreadable | FileNotJson => logging ERROR ErrorLoadingHistory
  | FileJson data =>
      match from_json data with
      | FromJsonData d => modify (set_data d)
      | FromJsonUntyped => λ st, Untyped st
      | FromJsonTypeError => raise TypeError
      end
  end.

(** [commit_entry] *)
Definition commit_entry : M unit :=
  modify_data (λ d, set_entry_index (entry_index d + 1) d) ;;
  term <- current_term ;;
  let current_word := headword term in
  st <- get ;;
  entry_count <-
    match headword_entry_count (_data st) !! current_word with
    | Some entry_count => ret entry_count
    | None =>
        logging ERROR (NoEntryCountFoundForWord current_word) ;;
        modify_data (λ d, set_headword_entry_count
                            (<[current_word := 0]> (headword_entry_count d)) d) ;;
        ret 0
    end ;;
  st <- get ;;
  (if entry_count <=? entry_index (_data st) then
     moved <- _go_to_next_headword ;;
     if moved then ret tt
     else logging INFO ReachedTheEndOfTheVocabularyList
   else ret tt) ;;
  _save_history.

(** [undo] *)
Definition undo : M unit :=
  st <- get ;;
  if 0 <? entry_index (_data st) then
    modify_data (λ d, set_entry_index (entry_index d - 1) d) ;;
    _save_history
  else
    moved <- (if 0 <? headword_index (_data st)
              then _go_to_previous_headword else ret false) ;;
    if moved then
      term <- current_term ;;
      let prev_word := headword term in
      st <- get ;;
      let count := default 0 (headword_entry_count (_data st) !! prev_word) in
      (if 0 <? count
       then modify_data (set_entry_index (count - 1))
       else logging WARNING (PreviousWordHasNoEntries prev_word)) ;;
      _save_history
    else
      logging INFO AlreadyAtTheFirstEntry.

(** [__exit__] *)
Definition __exit__ : M unit := _save_history.

(** The loop of [__init__], one iteration per unit of fuel. *)
Fixpoint ensure_entries_loop (fuel : nat) : M unit :=
  match fuel with
  | O => out_of_fuel
  | S fuel =>
      ok <- _has_entries_for_current_word ;;
      if ok then ret tt
      else
        moved <- _go_to_next_headword ;;
        if moved then ensure_entries_loop fuel
        else
          logging ERROR NoHeadwordsWithEntriesFound ;;
          sys_exit
  end.

(** The object before [_load_history] runs, given what is on disk. *)
Definition new_State (file : history_file) : State :=
  {| _data := _StateData_default; _lookup_cache := ∅;
     history := file; trace := [] |}.

(** [__init__], after [_load_headword_list]. *)
Definition __init__ (file : history_file) : outcome unit :=
  (_load_history ;;
   ensure_entries_loop (S (S (length _headwords)))) (new_State file).

(** ** What the properties are stated with *)

(** The state an outcome carries, if any. *)
Definition outcome_state {A} (o : outcome A) : option State :=
  match o with
  | Returned _ st | SysExit st | Uncaught _ st | Untyped st => Some st
  | OutOfFuel => None
  end.

(** The events a call added to the trace: the trace only grows. *)
Definition events_since (st st' : State) : list event :=
  drop (length (trace st)) (trace st').

(** Lexicographic order on cursors. *)
Definition cursor_lt (a b : Z * Z) : Prop :=
  a.1 < b.1 ∨ (a.1 = b.1 ∧ a.2 < b.2).

(** The term the provider has for a word, and the count
    [_set_headword_index] derives from it. *)
Definition term_of (word : string) : option DictionaryTerm :=
  match look_up word with
  | LookupTerm term => Some term
  | LookupRaises | LookupNone => None
  end.

Definition entries_of (word : string) : Z :=
  match term_of word with
  | Some term => Z.of_nat (length (entries term))
  | None => 0
  end.

(** The count of a word as the engine will see it: the recorded one, or
    the one the first visit will record. *)
Definition usable_count (counts : gmap string Z) (word : string) : Z :=
  match counts !! word with
  | Some c => c
  | None => entries_of word
  end.

(** The provider answers a query with a term for the word it was asked. *)
Definition look_up_answers_the_query : Prop :=
  ∀ word term, look_up word = LookupTerm term → headword term = word.

(** The headword at an index has a recorded count, positive or not. *)
Definition positive_at (counts : gmap string Z) (i : Z) : Prop :=
  ∃ word c, py_getitem _headwords i = Some word ∧ counts !! word = Some c ∧ 0 < c.

Definition nonpositive_at (counts : gmap string Z) (i : Z) : Prop :=
  ∃ word c, py_getitem _headwords i = Some word ∧ counts !! word = Some c ∧ c <= 0.

(** The invariant of the data model: the headword under the cursor has a
    recorded count above zero and the entry index is below it. *)
Definition cursor_in_bounds (st : State) : Prop :=
  ∃ word c,
    py_getitem _headwords (headword_index (_data st)) = Some word ∧
    headword_entry_count (_data st) !! word = Some c ∧
    0 < c ∧ 0 <= entry_index (_data st) < c.

(** The cached terms are the provider's. *)
Definition cache_ok (cache : gmap string DictionaryTerm) : Prop :=
  ∀ word term, cache !! word = Some term → look_up word = LookupTerm term.

(** A recorded count is the provider's, or the zero [commit_entry] writes
    for a word without a count. *)
Definition counts_ok (counts : gmap string Z) : Prop :=
  ∀ word c, counts !! word = Some c → c = 0 ∨ c = entries_of word.

(** What holds of the record in every state a run reaches. *)
Record data_ok (d : _StateData) : Prop :=
  { index_in_range : 0 <= headword_index d < len_headwords;
    entry_nonneg : 0 <= entry_index d;
    counts_sound : counts_ok (headword_entry_count d);
    later_headword_counted :
      0 < headword_index d →
      positive_at (headword_entry_count d) (headword_index d) ∨
      (nonpositive_at (headword_entry_count d) (headword_index d) ∧
       headword_index d = len_headwords - 1);
    later_entry_bounded :
      0 < entry_index d →
      ∃ word term,
        py_getitem _headwords (headword_index d) = Some word ∧
        term_of word = Some term ∧
        (entry_index d < default 0 (headword_entry_count d !! headword term) ∨
         headword_index d = len_headwords - 1);
    some_headword_usable :
      (∃ word term, py_getitem _headwords 0 = Some word ∧ term_of word = Some term) ∨
      (∃ i, 0 <= i < len_headwords ∧ positive_at (headword_entry_count d) i) }.

(** The history file is absent or holds a record of an earlier state. *)
Definition history_ok (file : history_file) : Prop :=
  file = FileMissing ∨ ∃ d, file = FileJson (to_json d) ∧ data_ok d.

Record state_ok (st : State) : Prop :=
  { state_data_ok : data_ok (_data st);
    state_cache_ok : cache_ok (_lookup_cache st);
    state_history_ok : history_ok (history st) }.

(** A later record keeps every recorded count, and a count it adds is the
    provider's. *)
Definition counts_extend (counts counts' : gmap string Z) : Prop :=
  ∀ word, counts' !! word = counts !! word ∨
          (counts !! word = None ∧ counts' !! word = Some (entries_of word)).

(** A step keeps the recorded counts, only adds to the trace, and asks the
    provider for a count only of words that had none. *)
Definition counts_stable (st st' : State) : Prop :=
  (∀ word c, headword_entry_count (_data st) !! word = Some c →
             headword_entry_count (_data st') !! word = Some c) ∧
  ∃ evs, trace st' = trace st ++ evs ∧
         ∀ word, LookUp ForCount word ∈ evs →
                 headword_entry_count (_data st) !! word = None.

(** The events of the engine's inner machinery: provider calls and the
    logs of [_get_term_for_headword], [_set_headword_index], [current_term]
    and the loop of [__init__]. *)
Definition inner_event (ev : event) : Prop :=
  match ev with
  | LookUp _ _ => True
  | Log ERROR (ErrorLookingUpWord _) => True
  | Log ERROR (WordIndexOutOfRange _) => True
  | Log ERROR GlobalHeadwordIndexOutOfRange => True
  | Log ERROR NoMoreValidTermsFound => True
  | Log ERROR NoHeadwordsWithEntriesFound => True
  | Log WARNING (FailedToGetTermSkipping _) => True
  | _ => False
  end.

(** What every step of the inner machinery keeps: the history file, the
    soundness of the cache, the recorded counts; what it adds to the counts
    is the provider's, and what it adds to the trace are inner events, a
    count being asked only for words that had none. *)
Definition inner_step (st st' : State) : Prop :=
  history st' = history st ∧
  (cache_ok (_lookup_cache st) → cache_ok (_lookup_cache st')) ∧
  (∀ word c, headword_entry_count (_data st) !! word = Some c →
             headword_entry_count (_data st') !! word = Some c) ∧
  (cache_ok (_lookup_cache st) →
   counts_extend (headword_entry_count (_data st)) (headword_entry_count (_data st'))) ∧
  ∃ evs, trace st' = trace st ++ evs ∧ Forall inner_event evs ∧
         ∀ word, LookUp ForCount word ∈ evs →
                 headword_entry_count (_data st) !! word = None.

(** A step leaves the cursor where it is or moves it to a later headword. *)
Definition cursor_kept_or_later (st st' : State) : Prop :=
  cursor st' = cursor st ∨ headword_index (_data st) < headword_index (_data st').

(** Every state a computation can end in is related to the one it started
    in. *)
Definition preserves {A} (R : State → State → Prop) (m : M A) : Prop :=
  ∀ st st', outcome_state (m st) = Some st' → R st st'.

(** What a scan of [_advance_headword] that returned [moved] has done. *)
Definition scan_result (step : Z) (st : State) (moved : bool) (st' : State) : Prop :=
  let h := headword_index (_data st) in
  let h' := headword_index (_data st') in
  let n := len_headwords in
  let counts' := headword_entry_count (_data st') in
  inner_step st st' ∧
  if moved then
    0 <= h' < n ∧ 0 < step * (h' - h) ∧ entry_index (_data st') = 0 ∧
    positive_at counts' h' ∧
    ∀ i, 0 < step * (i - h) < step * (h' - h) → nonpositive_at counts' i
  else
    (¬ (0 <= h + step < n) ∧ st' = st) ∨
    (0 <= h + step < n ∧ entry_index (_data st') = 0 ∧
     h' = (if 0 <? step then n - 1 else 0) ∧
     ∀ i, 0 <= i < n → 0 < step * (i - h) → nonpositive_at counts' i).

(** What a call of [current_term] that returned [term] has done. *)
Definition term_result (st : State) (term : DictionaryTerm) (st' : State) : Prop :=
  let h := headword_index (_data st) in
  let h' := headword_index (_data st') in
  let counts' := headword_entry_count (_data st') in
  inner_step st st' ∧
  (cache_ok (_lookup_cache st) →
   ∃ word, py_getitem _headwords h' = Some word ∧ term_of word = Some term) ∧
  (_data st' = _data st ∨
   (h < h' ∧ 0 <= h' < len_headwords ∧ entry_index (_data st') = 0 ∧
    positive_at counts' h' ∧
    (cache_ok (_lookup_cache st) ∧ counts_ok (headword_entry_count (_data st)) →
     (∃ word, py_getitem _headwords h = Some word ∧ term_of word = None) ∧
     ∀ i, h < i < h' → nonpositive_at counts' i))).

(** The state [_save_history] leaves. *)
Definition after_save (st : State) : State :=
  if history_writable then
    add_event (WriteHistory (to_json (_data st)))
      (set_history (FileJson (to_json (_data st))) st)
  else add_event (Log ERROR ErrorSavingHistory) st.

(** The state [commit_entry] leaves once [current_term] has returned
    [term]: a count of zero is recorded, with an error logged, for a word
    that has none. *)
Definition after_count_check (term : DictionaryTerm) (st : State) : State :=
  match headword_entry_count (_data st) !! headword term with
  | Some _ => st
  | None =>
      set_data (set_headword_entry_count
                  (<[headword term := 0]> (headword_entry_count (_data st)))
                  (_data st))
        (add_event (Log ERROR (NoEntryCountFoundForWord (headword term))) st)
  end.

(** The state [undo] leaves, before it saves, once it is on a previous
    headword and [current_term] has returned [term]. *)
Definition after_previous (term : DictionaryTerm) (st : State) : State :=
  let count := default 0 (headword_entry_count (_data st) !! headword term) in
  if 0 <? count then set_data (set_entry_index (count - 1) (_data st)) st
  else add_event (Log WARNING (PreviousWordHasNoEntries (headword term))) st.

(** [__init__] on a history file that cannot be loaded: [_load_history]
    returns with the record at its defaults, an empty lookup cache and
    [logged] as the trace, and [__init__] goes on to its loop from there. *)
Definition starts_from_defaults (file : history_file) (logged : list event) : Prop :=
  ∃ st,
    _load_history (new_State file) = Returned tt st ∧
    _data st = _StateData_default ∧
    _lookup_cache st = ∅ ∧
    trace st = logged ∧
    __init__ file = ensure_entries_loop (S (S (length _headwords))) st.

(** The operations the command dispatch may call on the engine. *)
(** ** What the engine reads *)

(** Two objects with the same record and the same lookup cache: they may
    differ in what is on disk and in what has been logged. *)
Definition same_memory (st1 st2 : State) : Prop :=
  _data st1 = _data st2 ∧ _lookup_cache st1 = _lookup_cache st2.

(** Two calls that end the same way, with the same value, on objects with
    the same record and lookup cache. *)
Definition same_result {A} (o1 o2 : outcome A) : Prop :=
  match o1, o2 with
  | Returned a1 st1, Returned a2 st2 => a1 = a2 ∧ same_memory st1 st2
  | SysExit st1, SysExit st2 => same_memory st1 st2
  | Uncaught e1 st1, Uncaught e2 st2 => e1 = e2 ∧ same_memory st1 st2
  | Untyped st1, Untyped st2 => same_memory st1 st2
  | OutOfFuel, OutOfFuel => True
  | _, _ => False
  end.

Definition same_behaviour {A} (m1 m2 : M A) : Prop :=
  ∀ st1 st2, same_memory st1 st2 → same_result (m1 st1) (m2 st2).

(** The lookup cache at work: what is cached stays cached, the provider is
    asked only for words that are not cached, and once it has answered
    with a term the word is cached and not asked for again. *)
Definition lookups_not_repeated (st st' : State) : Prop :=
  (∀ word term, _lookup_cache st !! word = Some term →
                _lookup_cache st' !! word = Some term) ∧
  ∃ evs, trace st' = trace st ++ evs ∧
         ∀ evs1 evs2 why word,
           evs = evs1 ++ LookUp why word :: evs2 →
           _lookup_cache st !! word = None ∧
           ∀ term, look_up word = LookupTerm term →
                   _lookup_cache st' !! word = Some term ∧
                   ∀ why', LookUp why' word ∉ evs2.

Inductive operation : Type :=
| CurrentTerm
| CurrentEntry
| CommitEntry
| Undo
| Exit.

Definition run_operation (op : operation) : M unit :=
  match op with
  | CurrentTerm => current_term ;; ret tt
  | CurrentEntry => current_entry ;; ret tt
  | CommitEntry => commit_entry
  | Undo => undo
  | Exit => __exit__
  end.

Fixpoint run_operations (ops : list operation) : M unit :=
  match ops with
  | [] => ret tt
  | op :: ops => run_operation op ;; run_operations ops
  end.

(** The states of a run: a start without a history file, or with the
    history file an earlier run left, followed by operations that return. *)
Inductive reachable : State → Prop :=
| reachable_fresh st :
    __init__ FileMissing = Returned tt st → reachable st
| reachable_restart st0 st :
    reachable st0 → __init__ (history st0) = Returned tt st → reachable st
| reachable_operation op st st' :
    reachable st → run_operation op st = Returned tt st' → reachable st'.

End Engine.

(** ** A small vocabulary to run the engine on *)

Definition sense : DictionaryEntry := {| raw_data := JDict ∅ |}.

Definition vocabulary : list string := ["ser"; "xyzxyz"; "estar"].

(** "xyzxyz" has no dictionary entry, "ser" and "estar" have one each. *)
Definition dictionary (word : string) : lookup_result :=
  if bool_decide (word = "ser") then
    LookupTerm {| headword := "ser"; entries := [sense] |}
  else if bool_decide (word = "estar") then
    LookupTerm {| headword := "estar"; entries := [sense] |}
  else LookupNone.

(** The state an outcome ends in (the new object if there is none). *)
Definition final_state {A} (o : outcome A) : State :=
  default (new_State FileMissing) (outcome_state o).

(** A first run over the vocabulary: start without a history file, commit
    twice; and an undo after the first commit. *)
Definition started : State := final_state (__init__ vocabulary dictionary FileMissing).
Definition committed_once : State := final_state (commit_entry vocabulary dictionary true started).
Definition committed_twice : State := final_state (commit_entry vocabulary dictionary true committed_once).
Definition undone : State := final_state (undo vocabulary dictionary true committed_once).

(** A provider that does not answer the query: asked for "a" it returns
    the term of "b", with no entries. *)
Definition misdirecting_dictionary (word : string) : lookup_result :=
  if bool_decide (word = "a") then
    LookupTerm {| headword := "b"; entries := [] |}
  else if bool_decide (word = "b") then
    LookupTerm {| headword := "b"; entries := [sense; sense] |}
  else LookupNone.

Definition misdirected_start : State :=
  final_state (__init__ ["a"; "b"] misdirecting_dictionary FileMissing).
Definition misdirected_undo : State :=
  final_state (undo ["a"; "b"] misdirecting_dictionary true misdirected_start).
Definition misdirected_commit : State :=
  final_state (commit_entry ["a"; "b"] misdirecting_dictionary true misdirected_undo).

(** A second vocabulary, whose first word has no dictionary entry: the
    start skips it, one commit goes from "ser" to "estar", an undo goes
    back. *)
Definition vocabulary_unknown_first : list string := ["xyzxyz"; "ser"; "estar"].

Definition started_on_ser : State :=
  final_state (__init__ vocabulary_unknown_first dictionary FileMissing).
Definition moved_to_estar : State :=
  final_state (commit_entry vocabulary_unknown_first dictionary true started_on_ser).
Definition back_on_ser : State :=
  final_state (undo vocabulary_unknown_first dictionary true moved_to_estar).

(** A history file an earlier session left when the provider still had an
    entry for "xyzxyz": the count 1 it holds for that word is stale.  The
    session that starts from it, an undo and a commit. *)
Definition stale_record : _StateData :=
  {| headword_index := 2; entry_index := 0;
     headword_entry_count := {[ "ser" := 1; "xyzxyz" := 1; "estar" := 1 ]} |}.

Definition restarted_on_stale_count : State :=
  final_state (__init__ vocabulary dictionary (FileJson (to_json stale_record))).
Definition stale_undo : State :=
  final_state (undo vocabulary dictionary true restarted_on_stale_count).
Definition stale_commit : State :=
  final_state (commit_entry vocabulary dictionary true stale_undo).

(** ** data_loader.py *)

Module DataLoader.

(** The dataclass [DictionaryEntry] of [data_loader.py]: its fields hold
    whatever [from_dict] passes, the annotations are not enforced. *)
Record DictionaryEntry : Type :=
  { word : pyjson; part_of_speech : pyjson; definitions : pyjson }.

(** The types [required_fields] asks for. *)
Inductive field_type : Type := PyStr | PyList.

Definition required_fields : list (string * field_type) :=
  [("word", PyStr); ("part_of_speech", PyStr); ("definitions", PyList)].

Definition isinstance (v : pyjson) (t : field_type) : bool :=
  match t, v with
  | PyStr, JStr _ => true
  | PyList, JList _ => true
  | _, _ => false
  end.

(** [k in data] *)
Definition contains (data : gmap string pyjson) (k : string) : bool :=
  match data !! k with Some _ => true | None => false end.

(** [sep.join(l)] *)
Fixpoint join (sep : string) (l : list string) : string :=
  match l with
  | [] => ""
  | s :: l' =>
      match l' with
      | [] => s
      | _ :: _ => s +:+ sep +:+ join sep l'
      end
  end.

(** The exceptions at play: [ValidationError] of the package, [OSError]
    (of which [IOError] is an alias), [KeyError] and [TypeError] of a
    subscript or an iteration, and what reading and decoding the file can
    raise besides [OSError] and [JSONDecodeError]. *)
Inductive raised : Type :=
| ValidationError (message : string)
| OSError
| KeyError
| TypeError
| UnicodeDecodeError
| RecursionError.

Inductive result (A : Type) : Type :=
| Return (a : A)
| Raise (e : raised).

Arguments Return {A} a.
Arguments Raise {A} e.

(** The comprehension over [required_fields.items()]: [data[k]] raises
    [KeyError] for an absent key. *)
Fixpoint invalid_fields (data : gmap string pyjson) (fields : list (string * field_type))
    : result (list string) :=
  match fields with
  | [] => Return []
  | (k, t) :: fields =>
      match data !! k with
      | None => Raise KeyError
      | Some v =>
          match invalid_fields data fields with
          | Raise e => Raise e
          | Return invalid => Return (if isinstance v t then invalid else k :: invalid)
          end
      end
  end.

(** [all(isinstance(d, str) for d in v)]: a list is iterated over its
    elements, a string over its characters and an object over its keys,
    which are strings; anything else is not iterable. *)
Definition all_str (v : pyjson) : result bool :=
  match v with
  | JList l => Return (forallb (λ d, isinstance d PyStr) l)
  | JStr _ | JDict _ => Return true
  | _ => Raise TypeError
  end.

(** [DictionaryEntry.from_dict] *)
Definition from_dict (data : gmap string pyjson) : result DictionaryEntry :=
  let missing := List.filter (λ k, negb (contains data k)) (required_fields.*1) in
  match missing with
  | _ :: _ =>
      Raise (ValidationError
               ("Missing required fields in dictionary data: " +:+ join ", " missing))
  | [] =>
      match invalid_fields data required_fields with
      | Raise e => Raise e
      | Return ((_ :: _) as invalid) =>
          Raise (ValidationError
                   ("Invalid types in dictionary data: " +:+ join ", " invalid))
      | Return [] =>
          match data !! "definitions" with
          | None => Raise KeyError
          | Some ds =>
              match all_str ds with
              | Raise e => Raise e
              | Return false => Raise (ValidationError "All definitions must be strings")
              | Return true =>
                  match data !! "word", data !! "part_of_speech" with
                  | Some w, Some p =>
                      Return {| word := w; part_of_speech := p; definitions := ds |}
                  | _, _ => Raise KeyError
                  end
              end
          end
      end
  end.

(** What [open] and [json.load] do with the dictionary file of a folder:
    [open] or the read raises [OSError]; the bytes are not UTF-8
    ([UnicodeDecodeError], a [ValueError] that is no [JSONDecodeError]);
    the text is not JSON ([JSONDecodeError]); the nesting is deeper than
    the interpreter's recursion limit ([RecursionError]); or the text is
    decoded to a value. *)
Inductive dictionary_file : Type :=
| FileOSError
| FileUnicodeDecodeError
| FileJSONDecodeError
| FileRecursionError
| FileDecoded (data : pyjson).

(** The calls of [logger.error], by their text. *)
Inductive log_message : Type :=
| InvalidJSONStructure
| InvalidJSONInDictionaryEntry
| ErrorLoadingDictionaryFile
| InvalidDictionaryEntryData (e : string)
| IOErrorLoadingDictionaryEntry.

(** [_load_json]: the value returned or the exception that leaves it, and
    what was logged.  Its two [except] clauses catch [JSONDecodeError] and
    [OSError]; anything else passes. *)
Definition _load_json (file : dictionary_file)
    : result (option (gmap string pyjson)) * list log_message :=
  match file with
  | FileOSError => (Return None, [ErrorLoadingDictionaryFile])
  | FileJSONDecodeError => (Return None, [InvalidJSONInDictionaryEntry])
  | FileUnicodeDecodeError => (Raise UnicodeDecodeError, [])
  | FileRecursionError => (Raise RecursionError, [])
  | FileDecoded (JDict data) => (Return (Some data), [])
  | FileDecoded _ => (Return None, [InvalidJSONStructure])
  end.

(** The body of the [try] of [load_entry]. *)
Definition load_entry_body (file : dictionary_file)
    : result (option DictionaryEntry) * list log_message :=
  match _load_json file with
  | (Raise e, logged) => (Raise e, logged)
  | (Return None, logged) => (Return None, logged)
  | (Return (Some data), logged) =>
      if Nat.eqb (size data) 0 then (Return None, logged)
      else
        match from_dict data with
        | Return entry => (Return (Some entry), logged)
        | Raise e => (Raise e, logged)
        end
  end.

(** [load_entry]: the [try] and its two [except] clauses, for
    [ValidationError] and for [OSError]; any other exception escapes. *)
Definition load_entry (file : dictionary_file)
    : result (option DictionaryEntry) * list log_message :=
  match load_entry_body file with
  | (Raise (ValidationError e), logged) =>
      (Return None, logged ++ [InvalidDictionaryEntryData e])
  | (Raise OSError, logged) =>
      (Return None, logged ++ [IOErrorLoadingDictionaryEntry])
  | other => other
  end.

(** Two objects [from_dict] refuses: one with fields of the wrong type, one
    with fields missing. *)
Definition ill_typed_object : gmap string pyjson :=
  {[ "word" := JInt 1; "part_of_speech" := JStr "noun"; "definitions" := JInt 2 ]}.

Definition incomplete_object : gmap string pyjson :=
  {[ "part_of_speech" := JStr "noun" ]}.

End DataLoader.

(** ** A response of the dictionary service *)

(** The Spanish entry of a response for "casa", and the English entry next
    to it, which [look_up] passes over. *)
Definition casa_entry : pyjson :=
  JDict {[ "meta" := JDict {[ "lang" := JStr "es" ]};
           "hwi" := JDict {[ "hw" := JStr "ca*sa" ]};
           "fl" := JStr "feminine noun";
           "shortdef" := JList [JStr "house"; JStr "home"] ]}.

Definition house_entry : pyjson :=
  JDict {[ "meta" := JDict {[ "lang" := JStr "en" ]};
           "hwi" := JDict {[ "hw" := JStr "house" ]};
           "fl" := JStr "noun";
           "shortdef" := JList [JStr "casa"] ]}.

Definition fetch_casa (word : string) : option pyjson :=
  if bool_decide (word = "casa") then Some (JList [casa_entry; house_entry]) else None.

Definition casa_term : DictionaryTerm :=
  {| headword := "casa"; entries := [ {| raw_data := casa_entry |} ] |}.

(** * Properties *)

(** ** Saving and loading *)

Lemma omap_as_int_JInt (m : gmap string Z) : omap as_int (JInt <$> m) = m.
Proof.
  apply map_eq. intros w.
  rewrite lookup_omap, lookup_fmap.
  by destruct (m !! w).
Qed.

Lemma as_int_dict_JInt (m : gmap string Z) :
  as_int_dict (JDict (JInt <$> m)) = Some m.
Proof.
  unfold as_int_dict.
  rewrite bool_decide_eq_true_2.
  - by rewrite omap_as_int_JInt.
  - intros w v. rewrite lookup_fmap.
    destruct (m !! w); simpl; intros [= <-]; eauto.
Qed.

Lemma from_json_to_json (d : _StateData) : from_json (to_json d) = FromJsonData d.
Proof.
  unfold from_json, to_json.
  rewrite bool_decide_eq_true_2.
  - rewrite lookup_insert_eq.
    rewrite lookup_insert_ne by done. rewrite lookup_insert_eq.
    do 2 rewrite lookup_insert_ne by done. rewrite lookup_insert_eq.
    cbn [field_or as_int]. rewrite as_int_dict_JInt. by destruct d.
  - rewrite !dom_insert_L, dom_empty_L. unfold field_names. set_solver.
Qed.

(** C3: saving a state, loading what was saved into a new object and
    saving again writes the same history file; the loaded record is the
    one that was saved. *)
Theorem save_load_save (st : State) :
  ∃ st1 st2 st3,
    _save_history true st = Returned tt st1 ∧
    _load_history (new_State (history st1)) = Returned tt st2 ∧
    _save_history true st2 = Returned tt st3 ∧
    _data st2 = _data st ∧
    history st3 = history st1.
Proof.
  eexists _, _, _. split; [reflexivity|].
  unfold _load_history, bind, get. cbn [history set_history add_event new_State].
  rewrite from_json_to_json.
  split; [reflexivity|]. split; [reflexivity|]. split; reflexivity.
Qed.

(** ** The engine monad *)

Section Properties.

Variable _headwords : list string.
Variable look_up : string → lookup_result.
Variable history_writable : bool.

Ltac munfold :=
  unfold bind, ret, get, modify, modify_data, emit, logging, sys_exit,
    raise, out_of_fuel, _exit_with_error in *.

Ltac solve_trace := simpl; rewrite <- ?app_assoc; simpl; reflexivity.

Lemma preserves_ret {A} (R : State → State → Prop) `{!Reflexive R} (a : A) :
  preserves R (ret a).
Proof. intros st st' [= <-]. reflexivity. Qed.

Lemma preserves_bind {A B} (R : State → State → Prop) `{!Transitive R}
    (m : M A) (k : A → M B) :
  preserves R m → (∀ a, preserves R (k a)) → preserves R (bind m k).
Proof.
  intros Hm Hk st st'. unfold bind.
  destruct (m st) as [a st1| st1 | e st1 | st1 |] eqn:E; simpl.
  - intros H. etransitivity; [apply (Hm st); by rewrite E | by apply (Hk a)].
  - intros [= <-]. apply (Hm st); by rewrite E.
  - intros [= <-]. apply (Hm st); by rewrite E.
  - intros [= <-]. apply (Hm st); by rewrite E.
  - done.
Qed.

#[local] Instance counts_stable_refl : Reflexive counts_stable.
Proof.
  intros st. split; [done|]. exists []. rewrite app_nil_r. split; [done|].
  intros w Hw. by apply elem_of_nil in Hw.
Qed.

#[local] Instance counts_stable_trans : Transitive counts_stable.
Proof.
  intros st1 st2 st3 [H1 (evs1 & Ht1 & Hl1)] [H2 (evs2 & Ht2 & Hl2)].
  split; [by eauto|]. exists (evs1 ++ evs2). split.
  - by rewrite Ht2, Ht1, app_assoc.
  - intros w [Hw|Hw]%elem_of_app; [by eauto|].
    specialize (Hl2 w Hw).
    destruct (headword_entry_count (_data st1) !! w) as [c|] eqn:E; [|done].
    apply H1 in E. congruence.
Qed.

#[local] Instance cursor_kept_or_later_refl : Reflexive cursor_kept_or_later.
Proof. intros st. by left. Qed.

#[local] Instance cursor_kept_or_later_trans : Transitive cursor_kept_or_later.
Proof.
  unfold cursor_kept_or_later, cursor.
  intros st1 st2 st3 [H1|H1] [H2|H2].
  - left. congruence.
  - right. injection H1 as Hh He. lia.
  - right. injection H2 as Hh He. lia.
  - right. lia.
Qed.

(** ** The inner machinery *)

Lemma counts_extend_refl counts : counts_extend look_up counts counts.
Proof. intros w. by left. Qed.

Lemma counts_extend_trans c1 c2 c3 :
  counts_extend look_up c1 c2 → counts_extend look_up c2 c3 →
  counts_extend look_up c1 c3.
Proof.
  intros H12 H23 w. destruct (H12 w) as [E12|[E1 E2]], (H23 w) as [E23|[E2' E3]].
  - left. congruence.
  - right. split; congruence.
  - right. split; congruence.
  - congruence.
Qed.

Lemma counts_extend_ok c1 c2 :
  counts_extend look_up c1 c2 → counts_ok look_up c1 → counts_ok look_up c2.
Proof.
  intros He Hok w c Hw. destruct (He w) as [E|[_ E]].
  - rewrite E in Hw. eauto.
  - right. congruence.
Qed.

Lemma counts_extend_usable c1 c2 word :
  counts_extend look_up c1 c2 →
  usable_count look_up c2 word = usable_count look_up c1 word.
Proof.
  intros He. unfold usable_count. destruct (He word) as [E|[E1 E2]].
  - by rewrite E.
  - by rewrite E1, E2.
Qed.

#[local] Instance inner_step_refl : Reflexive (inner_step look_up).
Proof.
  intros st. repeat split; try done.
  - intros _. apply counts_extend_refl.
  - exists []. rewrite app_nil_r. repeat split; [constructor|].
    intros w Hw. by apply elem_of_nil in Hw.
Qed.

#[local] Instance inner_step_trans : Transitive (inner_step look_up).
Proof.
  intros st1 st2 st3 (Hh1 & Hc1 & Hs1 & He1 & evs1 & Ht1 & Hi1 & Hl1)
    (Hh2 & Hc2 & Hs2 & He2 & evs2 & Ht2 & Hi2 & Hl2).
  split; [congruence|]. split; [by auto|]. split; [by auto|].
  split; [intros; eapply counts_extend_trans; eauto|].
  exists (evs1 ++ evs2). split; [by rewrite Ht2, Ht1, app_assoc|].
  split; [by apply Forall_app|].
  intros w [Hw|Hw]%elem_of_app; [by eauto|].
  specialize (Hl2 w Hw).
  destruct (headword_entry_count (_data st1) !! w) as [c|] eqn:E; [|done].
  apply Hs1 in E. congruence.
Qed.

Lemma inner_step_counts_stable st st' :
  inner_step look_up st st' → counts_stable st st'.
Proof.
  intros (_ & _ & Hs & _ & evs & Ht & _ & Hl). split; [done|]. by exists evs.
Qed.

(** A step that changes neither the record's counts, the cache nor the
    history file, and adds inner events that ask for no count. *)
Lemma inner_step_frame st st' evs :
  history st' = history st →
  _lookup_cache st' = _lookup_cache st →
  headword_entry_count (_data st') = headword_entry_count (_data st) →
  trace st' = trace st ++ evs →
  Forall inner_event evs →
  (∀ word, LookUp ForCount word ∉ evs) →
  inner_step look_up st st'.
Proof.
  intros Hh Hc Hd Ht Hi Hl. split; [done|]. rewrite Hc, Hd.
  split; [done|]. split; [done|]. split; [intros; apply counts_extend_refl|].
  exists evs. repeat split; try done. intros w Hw. by apply Hl in Hw.
Qed.

Lemma cache_ok_insert cache word term :
  cache_ok look_up cache → look_up word = LookupTerm term →
  cache_ok look_up (<[word := term]> cache).
Proof.
  intros Hok Hl w t. rewrite lookup_insert. case_decide; [|by apply Hok].
  intros [= <-]. by subst.
Qed.

(** [_get_term_for_headword] returns; with a sound cache it returns the
    provider's term; it touches the cache and the trace only. *)
Lemma get_term_spec why word st :
  ∃ r st' evs,
    _get_term_for_headword look_up why word st = Returned r st' ∧
    _data st' = _data st ∧ history st' = history st ∧
    trace st' = trace st ++ evs ∧
    (∀ ev, ev ∈ evs → ev = LookUp why word ∨ ev = Log ERROR (ErrorLookingUpWord word)) ∧
    (cache_ok look_up (_lookup_cache st) →
     r = term_of look_up word ∧ cache_ok look_up (_lookup_cache st')).
Proof.
  unfold _get_term_for_headword, term_of. munfold.
  destruct (_lookup_cache st !! word) as [t|] eqn:Hc; simpl.
  - exists (Some t), st, []. rewrite app_nil_r. repeat split; try done.
    + intros ev Hev. by apply elem_of_nil in Hev.
    + by rewrite (H _ _ Hc).
  - destruct (look_up word) as [| |t] eqn:Hl; simpl;
      do 3 eexists; (split; [reflexivity|]); simpl;
      (split; [done|]); (split; [done|]); (split; [solve_trace|]);
      (split; [intros ev; set_solver|]); intros Hok; (split; [done|]); try done.
    by apply cache_ok_insert.
Qed.

Lemma py_getitem_in_range {A} (l : list A) (i : Z) :
  0 <= i < Z.of_nat (length l) → ∃ x, py_getitem l i = Some x.
Proof.
  intros Hi. unfold py_getitem.
  destruct (0 <=? i) eqn:E; [|lia].
  apply lookup_lt_is_Some_2. lia.
Qed.

Lemma py_getitem_Some_lt {A} (l : list A) (i : Z) x :
  py_getitem l i = Some x → i < Z.of_nat (length l).
Proof.
  unfold py_getitem. destruct (0 <=? i) eqn:E.
  - intros H%lookup_lt_Some. lia.
  - destruct (- Z.of_nat (length l) <=? i); [lia|done].
Qed.

(** [_set_headword_index] at an index in range: the cursor is put on the
    first entry of that headword, whose count is recorded from then on. *)
Lemma set_headword_index_spec index st :
  0 <= index < len_headwords _headwords →
  ∃ word st',
    py_getitem _headwords index = Some word ∧
    _set_headword_index _headwords look_up index st = Returned (Some word) st' ∧
    headword_index (_data st') = index ∧
    entry_index (_data st') = 0 ∧
    (∃ c, headword_entry_count (_data st') !! word = Some c ∧
          (cache_ok look_up (_lookup_cache st) →
           c = usable_count look_up (headword_entry_count (_data st)) word)) ∧
    inner_step look_up st st'.
Proof.
  intros Hi. destruct (py_getitem_in_range _headwords index Hi) as [word Hw].
  exists word. unfold _set_headword_index, usable_count.
  replace (negb _) with false by (unfold len_headwords in *; lia).
  munfold. cbn [set_data _data]. rewrite Hw. simpl.
  destruct (headword_entry_count (_data st) !! word) as [c|] eqn:Hc.
  - eexists. split; [done|]. split; [reflexivity|]. simpl.
    split; [done|]. split; [done|]. split; [by eauto|].
    apply (inner_step_frame _ _ []); simpl; try done.
    + by rewrite app_nil_r.
    + intros w Hin. by apply elem_of_nil in Hin.
  - match goal with |- context [_get_term_for_headword _ _ _ ?s] =>
      destruct (get_term_spec ForCount word s)
        as (r & st1 & evs & -> & Hd & Hh & Ht & Hev & Hok) end.
    simpl in *. eexists. split; [done|]. split; [reflexivity|]. simpl.
    rewrite Hd. simpl. split; [done|]. split; [done|]. split.
    + eexists. rewrite lookup_insert_eq. split; [done|].
      intros [-> _]%Hok. unfold entries_of. by destruct (term_of look_up word).
    + split; [done|]. split; [tauto|]. split.
      { intros w c Hwc. simpl. rewrite lookup_insert_ne; [done|]. congruence. }
      split.
      { intros [-> _]%Hok w. simpl. rewrite lookup_insert. case_decide; [|by left].
        subst w. right. split; [done|]. unfold entries_of.
        by destruct (term_of look_up word). }
      exists evs. simpl. split; [done|]. split.
      * apply Forall_forall. intros ev [->| ->]%Hev; exact I.
      * intros w [Hw'|Hw']%Hev; congruence.
Qed.

(** ** The scan of [_advance_headword] *)

Lemma positive_at_mono st st' i :
  inner_step look_up st st' →
  positive_at _headwords (headword_entry_count (_data st)) i →
  positive_at _headwords (headword_entry_count (_data st')) i.
Proof. intros (_ & _ & Hs & _) (w & c & Hw & Hc & Hp). exists w, c. eauto. Qed.

Lemma nonpositive_at_mono st st' i :
  inner_step look_up st st' →
  nonpositive_at _headwords (headword_entry_count (_data st)) i →
  nonpositive_at _headwords (headword_entry_count (_data st')) i.
Proof. intros (_ & _ & Hs & _) (w & c & Hw & Hc & Hp). exists w, c. eauto. Qed.

(** The scan returns.  When it reports success the cursor is on the first
    entry of the nearest headword, in the direction of the step, whose
    recorded count is positive, every headword passed over having a
    recorded count that is not.  When it reports failure it either did not
    move (nothing lies in that direction) or went to the end of the list in
    that direction, every headword on the way having a recorded count that
    is not positive. *)
Lemma advance_loop_spec step : step = 1 ∨ step = -1 →
  ∀ fuel st,
    let h := headword_index (_data st) in
    let n := len_headwords _headwords in
    (0 < fuel)%nat →
    (0 <= h + step < n → (if 0 <? step then n - 1 - h else h) < Z.of_nat fuel) →
    ∃ b st',
      _advance_headword_loop _headwords look_up fuel step st = Returned b st' ∧
      inner_step look_up st st' ∧
      let h' := headword_index (_data st') in
      let counts' := headword_entry_count (_data st') in
      if b then
        0 <= h' < n ∧ 0 < step * (h' - h) ∧ entry_index (_data st') = 0 ∧
        positive_at _headwords counts' h' ∧
        ∀ i, 0 < step * (i - h) < step * (h' - h) → nonpositive_at _headwords counts' i
      else
        (¬ (0 <= h + step < n) ∧ st' = st) ∨
        (0 <= h + step < n ∧ entry_index (_data st') = 0 ∧
         h' = (if 0 <? step then n - 1 else 0) ∧
         ∀ i, 0 <= i < n → 0 < step * (i - h) → nonpositive_at _headwords counts' i).
Proof.
  intros Hstep fuel. induction fuel as [|fuel IH]; intros st h n Hpos Hfuel; [lia|].
  cbn [_advance_headword_loop]. unfold bind at 1, get at 1.
  fold h. fold n.
  destruct (negb ((0 <=? h + step) && (h + step <? n))) eqn:Hrange.
  { exists false, st. split; [done|]. split; [reflexivity|]. left. split; [lia|done]. }
  assert (0 <= h + step < n) as Hin by lia.
  destruct (set_headword_index_spec (h + step) st Hin)
    as (word & st1 & Hword & Hset & Hh1 & He1 & (c & Hc & _) & Hstep1).
  unfold bind at 1. rewrite Hset. unfold bind at 1, get at 1. rewrite Hc. simpl.
  destruct (0 <? c) eqn:Hcpos.
  { exists true, st1. split; [done|]. split; [done|]. rewrite Hh1.
    split; [done|]. split; [lia|]. split; [done|]. split.
    - exists word, c. repeat split; try done. lia.
    - intros i Hi. lia. }
  assert (nonpositive_at _headwords (headword_entry_count (_data st1)) (h + step)) as Hnp.
  { exists word, c. repeat split; try done. lia. }
  destruct (IH st1) as (b & st' & Hloop & Hstep' & Hfacts).
  { destruct Hstep as [-> | ->]; simpl in *; lia. }
  { rewrite Hh1. destruct Hstep as [-> | ->]; simpl in *; lia. }
  exists b, st'. split; [done|]. split; [by etransitivity|].
  rewrite Hh1 in Hfacts. fold n in Hfacts. destruct b.
  - destruct Hfacts as (Hr & Hd & He & Hp & Hbetween).
    split; [done|]. split; [destruct Hstep as [-> | ->]; lia|].
    split; [done|]. split; [done|].
    intros i Hi. destruct (decide (i = h + step)) as [-> | Hne].
    + by eapply nonpositive_at_mono.
    + apply Hbetween. destruct Hstep as [-> | ->]; lia.
  - right. split; [done|].
    destruct Hfacts as [[Hout ->] | (Hin' & He & Hh' & Hahead)].
    + split; [done|]. split.
      { rewrite Hh1. destruct Hstep as [-> | ->]; simpl in *; lia. }
      intros i Hi Hd. destruct (decide (i = h + step)) as [-> | Hne]; [done|].
      destruct Hstep as [-> | ->]; lia.
    + split; [done|]. split; [done|].
      intros i Hi Hd. destruct (decide (i = h + step)) as [-> | Hne].
      * by eapply nonpositive_at_mono.
      * apply Hahead; [done|]. destruct Hstep as [-> | ->]; lia.
Qed.

Lemma advance_spec step st : step = 1 ∨ step = -1 →
  let h := headword_index (_data st) in
  let n := len_headwords _headwords in
  ∃ b st',
    _advance_headword _headwords look_up step st = Returned b st' ∧
    inner_step look_up st st' ∧
    let h' := headword_index (_data st') in
    let counts' := headword_entry_count (_data st') in
    if b then
      0 <= h' < n ∧ 0 < step * (h' - h) ∧ entry_index (_data st') = 0 ∧
      positive_at _headwords counts' h' ∧
      ∀ i, 0 < step * (i - h) < step * (h' - h) → nonpositive_at _headwords counts' i
    else
      (¬ (0 <= h + step < n) ∧ st' = st) ∨
      (0 <= h + step < n ∧ entry_index (_data st') = 0 ∧
       h' = (if 0 <? step then n - 1 else 0) ∧
       ∀ i, 0 <= i < n → 0 < step * (i - h) → nonpositive_at _headwords counts' i).
Proof.
  intros Hstep h n. apply advance_loop_spec; [done|lia|].
  unfold len_headwords. destruct Hstep as [-> | ->]; simpl; lia.
Qed.

Lemma positive_not_nonpositive counts i :
  positive_at _headwords counts i → nonpositive_at _headwords counts i → False.
Proof.
  intros (w & c & Hw & Hc & Hp) (w' & c' & Hw' & Hc' & Hn).
  simplify_eq. lia.
Qed.

(** A positive recorded count is the provider's: the word has a term. *)
Lemma positive_at_term counts i :
  counts_ok look_up counts → positive_at _headwords counts i →
  ∃ word term, py_getitem _headwords i = Some word ∧
               term_of look_up word = Some term ∧
               counts !! word = Some (Z.of_nat (length (entries term))) ∧
               entries term ≠ [].
Proof.
  intros Hok (w & c & Hw & Hc & Hp).
  destruct (Hok w c Hc) as [-> | Hc']; [lia|].
  unfold entries_of in Hc'. destruct (term_of look_up w) as [t|] eqn:Ht; [|lia].
  exists w, t. subst c. repeat split; try done.
  intros E. rewrite E in Hp. simpl in Hp. lia.
Qed.

Lemma inner_step_log st l m :
  inner_event (Log l m) → inner_step look_up st (add_event (Log l m) st).
Proof.
  intros Hev. apply (inner_step_frame _ _ [Log l m]); try done.
  - by constructor.
  - intros w. set_solver.
Qed.

Lemma get_term_inner_step why word st r st' :
  _get_term_for_headword look_up why word st = Returned r st' →
  (why = ForCount → headword_entry_count (_data st) !! word = None) →
  inner_step look_up st st'.
Proof.
  intros Heq Hwhy.
  destruct (get_term_spec why word st) as (r' & st1 & evs & Heq' & Hd & Hh & Ht & Hev & Hok).
  rewrite Heq in Heq'. injection Heq' as <- <-.
  split; [done|]. split; [tauto|]. rewrite Hd. split; [done|].
  split; [intros; apply counts_extend_refl|].
  exists evs. split; [done|]. split.
  - apply Forall_forall. intros ev [-> | ->]%Hev; exact I.
  - intros w [Hw|Hw]%Hev; [|done]. injection Hw as <- <-. by apply Hwhy.
Qed.

(** ** [current_term] *)

(** [current_term] returns a term or stops the process.  When the provider
    has a term for the headword under the cursor, the record is left as it
    is; when it has none, the cursor goes to the first entry of a later
    headword with a positive count, or the process stops. *)
Lemma current_term_rec_spec :
  ∀ fuel st,
    let h := headword_index (_data st) in
    let n := len_headwords _headwords in
    let ok := cache_ok look_up (_lookup_cache st) ∧
              counts_ok look_up (headword_entry_count (_data st)) in
    (0 < fuel)%nat → n - Z.max h (-1) < Z.of_nat fuel →
    (∃ term st',
       current_term_rec _headwords look_up fuel st = Returned term st' ∧
       inner_step look_up st st' ∧
       let h' := headword_index (_data st') in
       let counts' := headword_entry_count (_data st') in
       (cache_ok look_up (_lookup_cache st) →
        ∃ word, py_getitem _headwords h' = Some word ∧ term_of look_up word = Some term) ∧
       (_data st' = _data st ∨
        (h < h' ∧ 0 <= h' < n ∧ entry_index (_data st') = 0 ∧
         positive_at _headwords counts' h' ∧
         (ok → (∃ word, py_getitem _headwords h = Some word ∧ term_of look_up word = None) ∧
               ∀ i, h < i < h' → nonpositive_at _headwords counts' i)))) ∨
    (∃ st',
       current_term_rec _headwords look_up fuel st = SysExit st' ∧
       inner_step look_up st st' ∧
       (ok → 0 <= h < n →
        (∃ word, py_getitem _headwords h = Some word ∧ term_of look_up word = None) ∧
        ∀ i, h < i < n → nonpositive_at _headwords (headword_entry_count (_data st')) i)).
Proof.
  induction fuel as [|fuel IH]; intros st h n ok Hpos Hfuel; [lia|].
  remember (current_term_rec _headwords look_up (S fuel) st) as out eqn:Hout.
  cbn [current_term_rec] in Hout. unfold bind at 1, get at 1 in Hout.
  cbn beta iota in Hout. fold h in Hout.
  destruct (py_getitem _headwords h) as [word|] eqn:Hword.
  2:{ right. eexists. split; [by rewrite Hout|]. split; [by apply inner_step_log|].
      intros _ Hin. destruct (py_getitem_in_range _headwords h Hin). congruence. }
  destruct (get_term_spec ForTerm word st) as (r & st1 & evs & Hget & Hd1 & Hh1 & Ht1 & Hev1 & Hok1).
  assert (inner_step look_up st st1) as Hstep1 by (by eapply get_term_inner_step).
  unfold bind at 1 in Hout. rewrite Hget in Hout. destruct r as [term|].
  { left. exists term, st1. split; [done|]. split; [done|]. simpl. rewrite Hd1. fold h.
    split; [|by left]. intros [Hr _]%Hok1. exists word. split; [done|]. congruence. }
  unfold bind at 1, logging at 1, emit at 1, modify at 1 in Hout.
  set (st1' := add_event _ st1) in Hout.
  assert (inner_step look_up st st1') as Hstep1'.
  { etransitivity; [done|]. by apply inner_step_log. }
  destruct (advance_spec 1 st1' (or_introl eq_refl)) as (b & st2 & Hadv & Hstep2 & Hfacts).
  unfold bind at 1, _go_to_next_headword in Hout. rewrite Hadv in Hout.
  assert (headword_index (_data st1') = h) as Hh1' by (simpl; by rewrite Hd1).
  rewrite Hh1' in Hfacts. fold n in Hfacts.
  assert (inner_step look_up st st2) as Hst2 by (by etransitivity).
  assert (ok → term_of look_up word = None) as Hnone.
  { intros [Hc _]. destruct (Hok1 Hc) as [Hr _]. congruence. }
  destruct b; cbn beta iota in Hfacts.
  - destruct Hfacts as (Hr2 & Hd2 & He2 & Hp2 & Hbetween).
    assert (ok → cache_ok look_up (_lookup_cache st2) ∧
                 counts_ok look_up (headword_entry_count (_data st2))) as Hok2.
    { intros [Hc Hn]. destruct Hst2 as (_ & Hc2 & _ & He & _).
      split; [by auto|]. eapply counts_extend_ok; eauto. }
    assert (ok → ∃ word2, py_getitem _headwords (headword_index (_data st2)) = Some word2 ∧
                          term_of look_up word2 ≠ None) as Hterm2.
    { intros [_ Hn]%Hok2. destruct (positive_at_term _ _ Hn Hp2) as (w2 & t2 & Hw2 & Ht2 & _).
      exists w2. split; [done|]. congruence. }
    destruct (IH st2) as [(term & st' & Hrec & Hstep' & Hterm & Hcases) | (st' & Hrec & Hstep' & Hexit)];
      [lia | lia | |].
    + left. exists term, st'. split; [congruence|]. split; [by etransitivity|].
      split. { intros Hc. apply Hterm. by apply Hst2. }
      right. destruct Hcases as [Hsame | (Hlt & Hr' & He' & Hp' & Hskip)].
      * rewrite Hsame. split; [lia|]. split; [done|]. split; [done|]. split; [done|].
        intros Hok. split; [by eauto|]. intros i Hi. apply Hbetween. lia.
      * split; [lia|]. split; [done|]. split; [done|]. split; [done|].
        intros Hok. exfalso.
        destruct (Hterm2 Hok) as (w2 & Hw2 & Hsome).
        destruct (Hskip (Hok2 Hok)) as [(w2' & Hw2' & Hnone2) _]. congruence.
    + right. exists st'. split; [congruence|]. split; [by etransitivity|].
      intros Hok Hin. exfalso.
      destruct (Hterm2 Hok) as (w2 & Hw2 & Hsome).
      destruct (Hexit (Hok2 Hok) Hr2) as [(w2' & Hw2' & Hnone2) _]. congruence.
  - right. eexists. split; [by rewrite Hout|]. split.
    { etransitivity; [done|]. by apply inner_step_log. }
    intros Hok Hin. split; [by eauto|]. intros i Hi. simpl.
    destruct Hfacts as [[Hout' ->] | (_ & _ & _ & Hahead)]; [lia|].
    apply Hahead; lia.
Qed.

Lemma current_term_spec st :
  let h := headword_index (_data st) in
  let n := len_headwords _headwords in
  let ok := cache_ok look_up (_lookup_cache st) ∧
            counts_ok look_up (headword_entry_count (_data st)) in
  (∃ term st',
     current_term _headwords look_up st = Returned term st' ∧
     inner_step look_up st st' ∧
     let h' := headword_index (_data st') in
     let counts' := headword_entry_count (_data st') in
     (cache_ok look_up (_lookup_cache st) →
      ∃ word, py_getitem _headwords h' = Some word ∧ term_of look_up word = Some term) ∧
     (_data st' = _data st ∨
      (h < h' ∧ 0 <= h' < n ∧ entry_index (_data st') = 0 ∧
       positive_at _headwords counts' h' ∧
       (ok → (∃ word, py_getitem _headwords h = Some word ∧ term_of look_up word = None) ∧
             ∀ i, h < i < h' → nonpositive_at _headwords counts' i)))) ∨
  (∃ st',
     current_term _headwords look_up st = SysExit st' ∧
     inner_step look_up st st' ∧
     (ok → 0 <= h < n →
      (∃ word, py_getitem _headwords h = Some word ∧ term_of look_up word = None) ∧
      ∀ i, h < i < n → nonpositive_at _headwords (headword_entry_count (_data st')) i)).
Proof.
  intros h n ok. apply current_term_rec_spec; [lia|].
  unfold n, len_headwords. lia.
Qed.

(** With a sound cache and a term for the headword under the cursor,
    [current_term] returns that term and leaves the record as it is. *)
Lemma current_term_here st word term :
  cache_ok look_up (_lookup_cache st) →
  py_getitem _headwords (headword_index (_data st)) = Some word →
  term_of look_up word = Some term →
  ∃ st', current_term _headwords look_up st = Returned term st' ∧
         _data st' = _data st ∧ inner_step look_up st st'.
Proof.
  intros Hc Hw Ht. unfold current_term. cbn [current_term_rec].
  unfold bind at 1, get at 1. rewrite Hw.
  destruct (get_term_spec ForTerm word st) as (r & st1 & evs & Hget & Hd1 & _ & _ & _ & Hok1).
  unfold bind. rewrite Hget. destruct (Hok1 Hc) as [-> _]. rewrite Ht.
  exists st1. split; [done|]. split; [done|]. by eapply get_term_inner_step.
Qed.

Lemma has_entries_spec st :
  ∃ b st',
    _has_entries_for_current_word _headwords look_up st = Returned b st' ∧
    _data st' = _data st ∧ inner_step look_up st st' ∧
    (cache_ok look_up (_lookup_cache st) →
     b = true →
     ∃ word term, py_getitem _headwords (headword_index (_data st)) = Some word ∧
                  term_of look_up word = Some term ∧ entries term ≠ []).
Proof.
  unfold _has_entries_for_current_word. unfold bind at 1, get at 1.
  destruct (py_getitem _headwords (headword_index (_data st))) as [word|] eqn:Hw.
  2:{ exists false, st. split; [done|]. split; [done|]. split; [reflexivity|done]. }
  destruct (get_term_spec ForTerm word st) as (r & st1 & evs & Hget & Hd1 & _ & _ & _ & Hok1).
  unfold bind. rewrite Hget.
  assert (inner_step look_up st st1) as Hstep by (by eapply get_term_inner_step).
  destruct r as [term|].
  - eexists _, st1. split; [reflexivity|]. split; [done|]. split; [done|].
    intros [Hr _]%Hok1 Hb. exists word, term. split; [done|]. split; [done|].
    intros E. rewrite E in Hb. done.
  - exists false, st1. split; [done|]. split; [done|]. split; [done|]. done.
Qed.

(** ** Saving *)

Lemma counts_stable_same_data st st' evs :
  headword_entry_count (_data st') = headword_entry_count (_data st) →
  trace st' = trace st ++ evs →
  (∀ word, LookUp ForCount word ∉ evs) →
  counts_stable st st'.
Proof.
  intros Hc Ht Hev. split; [by rewrite Hc|].
  exists evs. split; [done|]. intros w Hw. by apply Hev in Hw.
Qed.

Lemma save_history_eq st :
  _save_history history_writable st = Returned tt (after_save history_writable st).
Proof. unfold _save_history, after_save. by destruct history_writable. Qed.

Lemma after_save_data st : _data (after_save history_writable st) = _data st.
Proof. unfold after_save. by destruct history_writable. Qed.

Lemma after_save_cache st :
  _lookup_cache (after_save history_writable st) = _lookup_cache st.
Proof. unfold after_save. by destruct history_writable. Qed.

Lemma after_save_trace st :
  ∃ ev, trace (after_save history_writable st) = trace st ++ [ev] ∧
        (ev = WriteHistory (to_json (_data st)) ∨ ev = Log ERROR ErrorSavingHistory).
Proof. unfold after_save. destruct history_writable; eexists; split; eauto. Qed.

Lemma after_save_history st :
  history (after_save history_writable st) = history st ∨
  history (after_save history_writable st) = FileJson (to_json (_data st)).
Proof. unfold after_save. destruct history_writable; [by right|by left]. Qed.

Lemma after_save_stable st : counts_stable st (after_save history_writable st).
Proof.
  destruct (after_save_trace st) as (ev & Ht & Hev).
  eapply counts_stable_same_data; [by rewrite after_save_data | done |].
  intros w. destruct Hev as [-> | ->]; set_solver.
Qed.

(** ** [commit_entry] and [undo], step by step *)

Lemma commit_entry_cases st :
  let st_a := set_data (set_entry_index (entry_index (_data st) + 1) (_data st)) st in
  (∃ st', current_term _headwords look_up st_a = SysExit st' ∧
          commit_entry _headwords look_up history_writable st = SysExit st') ∨
  (∃ term st_b,
     current_term _headwords look_up st_a = Returned term st_b ∧
     let c := default 0 (headword_entry_count (_data st_b) !! headword term) in
     let st_c := after_count_check term st_b in
     if c <=? entry_index (_data st_b) then
       ∃ moved st_d,
         _go_to_next_headword _headwords look_up st_c = Returned moved st_d ∧
         commit_entry _headwords look_up history_writable st =
         Returned tt (after_save history_writable
                        (if moved then st_d
                         else add_event (Log INFO ReachedTheEndOfTheVocabularyList) st_d))
     else
       commit_entry _headwords look_up history_writable st =
       Returned tt (after_save history_writable st_c)).
Proof.
  intros st_a.
  remember (commit_entry _headwords look_up history_writable st) as out eqn:Hout.
  unfold commit_entry in Hout.
  unfold bind at 1, modify_data at 1, modify at 1 in Hout. cbn beta iota in Hout.
  fold st_a in Hout.
  destruct (current_term_spec st_a) as [(term & st_b & Hct & _) | (st' & Hct & _)].
  2:{ left. exists st'. unfold bind at 1 in Hout. by rewrite Hct in Hout. }
  right. exists term, st_b. split; [done|].
  unfold bind at 1 in Hout. rewrite Hct in Hout.
  unfold bind at 1, get at 1 in Hout. cbn beta iota in Hout.
  unfold after_count_check.
  destruct (headword_entry_count (_data st_b) !! headword term) as [c|] eqn:Hc; simpl.
  - unfold bind at 1, ret at 1 in Hout. unfold bind at 1, get at 1 in Hout.
    cbn beta iota in Hout.
    destruct (c <=? entry_index (_data st_b)) eqn:Hle.
    + destruct (advance_spec 1 st_b (or_introl eq_refl)) as (b & st_d & Hadv & _).
      exists b, st_d. split; [done|]. unfold bind at 1 in Hout. unfold bind at 1 in Hout.
      unfold _go_to_next_headword in Hout. rewrite Hadv in Hout.
      rewrite Hout. destruct b; simpl; apply save_history_eq.
    + unfold bind at 1, ret at 1 in Hout. rewrite Hout. apply save_history_eq.
  - munfold. simpl in Hout.
    set (st_c := set_data _ (add_event _ st_b)) in *.
    destruct (0 <=? entry_index (_data st_b)) eqn:Hle.
    + destruct (advance_spec 1 st_c (or_introl eq_refl)) as (b & st_d & Hadv & _).
      exists b, st_d. split; [done|].
      unfold _go_to_next_headword in Hout. rewrite Hadv in Hout.
      rewrite Hout. destruct b; simpl; apply save_history_eq.
    + rewrite Hout. apply save_history_eq.
Qed.

Lemma undo_cases st :
  let h := headword_index (_data st) in
  let e := entry_index (_data st) in
  if 0 <? e then
    undo _headwords look_up history_writable st =
    Returned tt (after_save history_writable (set_data (set_entry_index (e - 1) (_data st)) st))
  else if 0 <? h then
    ∃ moved st1,
      _go_to_previous_headword _headwords look_up st = Returned moved st1 ∧
      if moved then
        (∃ st', current_term _headwords look_up st1 = SysExit st' ∧
                undo _headwords look_up history_writable st = SysExit st') ∨
        (∃ term st2,
           current_term _headwords look_up st1 = Returned term st2 ∧
           undo _headwords look_up history_writable st =
           Returned tt (after_save history_writable (after_previous term st2)))
      else
        undo _headwords look_up history_writable st =
        Returned tt (add_event (Log INFO AlreadyAtTheFirstEntry) st1)
  else
    undo _headwords look_up history_writable st =
    Returned tt (add_event (Log INFO AlreadyAtTheFirstEntry) st).
Proof.
  intros h e.
  remember (undo _headwords look_up history_writable st) as out eqn:Hout.
  unfold undo in Hout. unfold bind at 1, get at 1 in Hout. cbn beta iota in Hout.
  fold e in Hout. fold h in Hout.
  destruct (0 <? e).
  { rewrite Hout. unfold bind, modify_data, modify. simpl. apply save_history_eq. }
  destruct (0 <? h).
  2:{ by rewrite Hout. }
  destruct (advance_spec (-1) st (or_intror eq_refl)) as (b & st1 & Hadv & _).
  exists b, st1. split; [done|].
  unfold bind at 1, _go_to_previous_headword in Hout. rewrite Hadv in Hout.
  destruct b; [|by rewrite Hout].
  destruct (current_term_spec st1) as [(term & st2 & Hct & _) | (st' & Hct & _)].
  - right. exists term, st2. split; [done|].
    unfold bind at 1 in Hout. rewrite Hct in Hout.
    unfold bind at 1, get at 1 in Hout. cbn beta iota in Hout.
    rewrite Hout. unfold after_previous.
    destruct (0 <? default 0 (headword_entry_count (_data st2) !! headword term));
      unfold bind, modify_data, modify, logging, emit, modify; simpl; apply save_history_eq.
  - left. exists st'. split; [done|]. unfold bind at 1 in Hout. by rewrite Hct in Hout.
Qed.

(** ** C9 *)

(** C9: at the first entry of the first headword, [undo] returns after
    adding one informational log to the trace: the record, the lookup cache
    and the history file are as before, nothing is written. *)
Theorem undo_at_start_is_noop (st : State) :
  headword_index (_data st) = 0 → entry_index (_data st) = 0 →
  ∃ st',
    undo _headwords look_up history_writable st = Returned tt st' ∧
    _data st' = _data st ∧
    _lookup_cache st' = _lookup_cache st ∧
    history st' = history st ∧
    trace st' = trace st ++ [Log INFO AlreadyAtTheFirstEntry].
Proof.
  intros Hh He. pose proof (undo_cases st) as Hu. simpl in Hu.
  rewrite Hh, He in Hu. simpl in Hu. by eexists.
Qed.

(** ** The cursor under [commit_entry] *)

Lemma go_to_next_cursor st moved st' :
  _go_to_next_headword _headwords look_up st = Returned moved st' →
  inner_step look_up st st' ∧
  (if moved then headword_index (_data st) < headword_index (_data st')
   else st' = st ∨ headword_index (_data st) < headword_index (_data st')).
Proof.
  intros Heq. destruct (advance_spec 1 st (or_introl eq_refl)) as (b & st1 & Hadv & Hstep & Hfacts).
  unfold _go_to_next_headword in Heq. rewrite Heq in Hadv. injection Hadv as <- <-.
  split; [done|]. destruct moved.
  - destruct Hfacts as (_ & Hlt & _). lia.
  - destruct Hfacts as [[_ ->] | (Hin & _ & -> & _)]; [by left|]. right. simpl. lia.
Qed.

Lemma current_term_cursor st term st' :
  current_term _headwords look_up st = Returned term st' →
  inner_step look_up st st' ∧ cursor_kept_or_later st st'.
Proof.
  intros Heq.
  destruct (current_term_spec st) as [(t & st1 & Hct & Hstep & _ & Hcases) | (st1 & Hct & _)];
    rewrite Heq in Hct; [|done].
  injection Hct as <- <-. split; [done|].
  destruct Hcases as [Hsame | (Hlt & _)]; [left; unfold cursor; by rewrite Hsame | by right].
Qed.

Lemma after_count_check_cursor term st :
  cursor (after_count_check term st) = cursor st.
Proof.
  unfold after_count_check.
  by destruct (headword_entry_count (_data st) !! headword term).
Qed.

Lemma after_save_cursor st : cursor (after_save history_writable st) = cursor st.
Proof. unfold cursor. by rewrite after_save_data. Qed.

(** C4: [commit_entry] returns or stops the process, and when it returns
    the cursor is strictly later in the lexicographic order on (headword
    index, entry index) than it was: on every path, the one that reaches the
    end of the list included, so it never moves backward. *)
Theorem commit_entry_moves_forward (st : State) :
  ((∃ st', commit_entry _headwords look_up history_writable st = Returned tt st') ∨
   (∃ st', commit_entry _headwords look_up history_writable st = SysExit st')) ∧
  ∀ st', commit_entry _headwords look_up history_writable st = Returned tt st' →
         cursor_lt (cursor st) (cursor st') ∧ ¬ cursor_lt (cursor st') (cursor st).
Proof.
  assert (∀ a b, cursor_lt a b → ¬ cursor_lt b a) as Hasym.
  { intros a b [H|[H1 H2]] [H'|[H1' H2']]; lia. }
  destruct (commit_entry_cases st) as [(st1 & _ & Hc) | (term & st_b & Hct & Hrest)].
  { split; [right; by eexists|]. intros st'. by rewrite Hc. }
  apply current_term_cursor in Hct as [_ Hcur]. simpl in Hrest.
  assert (cursor_lt (cursor st) (cursor (after_count_check term st_b))) as Hlt.
  { rewrite after_count_check_cursor. unfold cursor_lt.
    destruct Hcur as [Hsame | Hlater].
    - rewrite Hsame. simpl. right. lia.
    - simpl in *. left. lia. }
  destruct (_ <=? _).
  - destruct Hrest as (moved & st_d & Hnext & Hc).
    split; [left; by eexists|]. intros st'. rewrite Hc. intros [= <-].
    assert (cursor_lt (cursor st) (cursor st_d)) as Hlt'.
    { apply go_to_next_cursor in Hnext as [_ Hnext].
      unfold cursor_lt in *. unfold cursor in *. simpl in *.
      destruct moved; [lia|]. destruct Hnext as [-> | Hnext]; [done|lia]. }
    rewrite after_save_cursor.
    destruct moved; [by auto|]. unfold cursor in *. simpl in *. by auto.
  - split; [left; by eexists|]. intros st'. rewrite Hrest. intros [= <-].
    rewrite after_save_cursor. by auto.
Qed.

(** ** Recorded counts never change *)

Lemma counts_stable_log st l m : counts_stable st (add_event (Log l m) st).
Proof.
  eapply (counts_stable_same_data _ _ [Log l m]); [done|done|].
  intros w. set_solver.
Qed.

Lemma counts_stable_set_entry_index st i :
  counts_stable st (set_data (set_entry_index i (_data st)) st).
Proof.
  eapply (counts_stable_same_data _ _ []); [done|simpl; by rewrite app_nil_r|].
  intros w. set_solver.
Qed.

Lemma after_count_check_stable term st :
  counts_stable st (after_count_check term st).
Proof.
  unfold after_count_check.
  destruct (headword_entry_count (_data st) !! headword term) as [c|] eqn:Hc; [reflexivity|].
  split.
  - intros w c Hw. simpl. rewrite lookup_insert_ne; [done|]. congruence.
  - eexists [_]. simpl. split; [done|]. intros w. set_solver.
Qed.

Lemma after_previous_stable term st :
  counts_stable st (after_previous term st).
Proof.
  unfold after_previous. destruct (0 <? _).
  - apply counts_stable_set_entry_index.
  - apply counts_stable_log.
Qed.

Lemma current_term_stable :
  preserves counts_stable (current_term _headwords look_up).
Proof.
  intros st st' Hout. apply inner_step_counts_stable.
  destruct (current_term_spec st) as [(t & st1 & Hct & Hstep & _) | (st1 & Hct & Hstep & _)];
    rewrite Hct in Hout; by injection Hout as <-.
Qed.

Lemma current_entry_stable :
  preserves counts_stable (current_entry _headwords look_up).
Proof.
  unfold current_entry. apply preserves_bind; [apply _ | apply current_term_stable |].
  intros term st st'. munfold. destruct (entries term); simpl.
  - intros [= <-]. apply counts_stable_log.
  - destruct (py_getitem _ _); simpl; intros [= <-]; [reflexivity|apply counts_stable_log].
Qed.

Lemma commit_entry_stable :
  preserves counts_stable (commit_entry _headwords look_up history_writable).
Proof.
  intros st st' Hout.
  pose proof (counts_stable_set_entry_index st (entry_index (_data st) + 1)) as Ha.
  destruct (commit_entry_cases st) as [(st1 & Hct & Hc) | (term & st_b & Hct & Hrest)].
  { rewrite Hc in Hout. injection Hout as <-. etransitivity; [done|].
    apply current_term_stable. by rewrite Hct. }
  assert (counts_stable st (after_count_check term st_b)) as Hc.
  { etransitivity; [done|]. etransitivity; [|apply after_count_check_stable].
    apply current_term_stable. by rewrite Hct. }
  simpl in Hrest. destruct (_ <=? _).
  - destruct Hrest as (moved & st_d & Hnext & Heq). rewrite Heq in Hout. injection Hout as <-.
    apply go_to_next_cursor in Hnext as [Hstep%inner_step_counts_stable _].
    etransitivity; [|apply after_save_stable]. etransitivity; [done|]. etransitivity; [done|].
    destruct moved; [reflexivity|apply counts_stable_log].
  - rewrite Hrest in Hout. injection Hout as <-.
    etransitivity; [done|apply after_save_stable].
Qed.

Lemma undo_stable :
  preserves counts_stable (undo _headwords look_up history_writable).
Proof.
  intros st st' Hout. pose proof (undo_cases st) as Hu. simpl in Hu.
  destruct (0 <? entry_index (_data st)).
  { rewrite Hu in Hout. injection Hout as <-.
    etransitivity; [apply counts_stable_set_entry_index|apply after_save_stable]. }
  destruct (0 <? headword_index (_data st)).
  2:{ rewrite Hu in Hout. injection Hout as <-. apply counts_stable_log. }
  destruct Hu as (moved & st1 & Hprev & Hu).
  assert (counts_stable st st1) as H1.
  { destruct (advance_spec (-1) st (or_intror eq_refl)) as (b & st1' & Hadv & Hstep & _).
    unfold _go_to_previous_headword in Hprev. rewrite Hprev in Hadv. injection Hadv as <- <-.
    by apply inner_step_counts_stable. }
  destruct moved.
  2:{ rewrite Hu in Hout. injection Hout as <-.
      etransitivity; [done|apply counts_stable_log]. }
  destruct Hu as [(st2 & Hct & Heq) | (term & st2 & Hct & Heq)];
    rewrite Heq in Hout; injection Hout as <-.
  - etransitivity; [done|]. apply current_term_stable. by rewrite Hct.
  - etransitivity; [done|]. etransitivity; [apply current_term_stable; by rewrite Hct|].
    etransitivity; [apply after_previous_stable|apply after_save_stable].
Qed.

Lemma run_operation_stable op :
  preserves counts_stable (run_operation _headwords look_up history_writable op).
Proof.
  destruct op; simpl.
  - apply preserves_bind; [apply _|apply current_term_stable|].
    intros; apply preserves_ret; apply _.
  - apply preserves_bind; [apply _|apply current_entry_stable|].
    intros; apply preserves_ret; apply _.
  - apply commit_entry_stable.
  - apply undo_stable.
  - intros st st'. unfold __exit__. rewrite save_history_eq. intros [= <-].
    apply after_save_stable.
Qed.

Lemma run_operations_stable ops :
  preserves counts_stable (run_operations _headwords look_up history_writable ops).
Proof.
  induction ops as [|op ops IH]; simpl.
  - apply preserves_ret; apply _.
  - apply preserves_bind; [apply _|apply run_operation_stable|done].
Qed.

(** No operation runs out of fuel: a sequence of operations ends in a
    state. *)
Lemma bind_ends {A B} (m : M A) (k : A → M B) st :
  is_Some (outcome_state (m st)) →
  (∀ a st1, is_Some (outcome_state (k a st1))) →
  is_Some (outcome_state (bind m k st)).
Proof.
  intros Hm Hk. unfold bind. destruct (m st); simpl in *; eauto.
Qed.

Lemma current_term_ends st :
  is_Some (outcome_state (current_term _headwords look_up st)).
Proof.
  destruct (current_term_spec st) as [(t & st1 & -> & _) | (st1 & -> & _)]; simpl; eauto.
Qed.

Lemma run_operation_ends op st :
  is_Some (outcome_state (run_operation _headwords look_up history_writable op st)).
Proof.
  destruct op; simpl.
  - apply bind_ends; [apply current_term_ends|]. intros; simpl; eauto.
  - apply bind_ends; [|intros; simpl; eauto].
    unfold current_entry. apply bind_ends; [apply current_term_ends|].
    intros term st1. munfold. destruct (entries term); simpl; [eauto|].
    destruct (py_getitem _ _); simpl; eauto.
  - destruct (commit_entry_cases st) as [(st' & _ & ->) | (term & st_b & _ & Hc)];
      [simpl; eauto|].
    simpl in Hc. destruct (_ <=? _); [|rewrite Hc; simpl; eauto].
    destruct Hc as (moved & st_d & _ & ->). simpl; eauto.
  - pose proof (undo_cases st) as Hu. simpl in Hu.
    destruct (0 <? entry_index (_data st)); [rewrite Hu; simpl; eauto|].
    destruct (0 <? headword_index (_data st)); [|rewrite Hu; simpl; eauto].
    destruct Hu as (moved & st1 & _ & Hu). destruct moved; [|rewrite Hu; simpl; eauto].
    destruct Hu as [(st2 & _ & ->) | (term & st2 & _ & ->)]; simpl; eauto.
  - unfold __exit__. rewrite save_history_eq. simpl; eauto.
Qed.

Lemma run_operations_ends ops st :
  is_Some (outcome_state (run_operations _headwords look_up history_writable ops st)).
Proof.
  revert st. induction ops as [|op ops IH]; intros st; simpl; [eauto|].
  apply bind_ends; [apply run_operation_ends|]. intros; apply IH.
Qed.

(** C7: a sequence of operations ends in a state, whether it runs to its
    end or stops the process on the way; a count that was recorded for a
    word before is still recorded there, unchanged, and the provider was not
    asked for the count of that word. *)
Theorem recorded_count_is_stable (ops : list operation) (st : State)
    (word : string) (c : Z) :
  headword_entry_count (_data st) !! word = Some c →
  ∃ st',
    outcome_state (run_operations _headwords look_up history_writable ops st) = Some st' ∧
    headword_entry_count (_data st') !! word = Some c ∧
    LookUp ForCount word ∉ events_since st st'.
Proof.
  intros Hc. destruct (run_operations_ends ops st) as [st' Hout].
  exists st'. split; [done|].
  apply run_operations_stable in Hout as [Hkeep (evs & Ht & Hev)].
  split; [by apply Hkeep|].
  unfold events_since. rewrite Ht, drop_app_length.
  intros Hin%Hev. congruence.
Qed.

(** ** What the calls have done, read off their results *)

Lemma scan_returned step st moved st' : step = 1 ∨ step = -1 →
  _advance_headword _headwords look_up step st = Returned moved st' →
  scan_result _headwords look_up step st moved st'.
Proof.
  intros Hstep Heq.
  destruct (advance_spec step st Hstep) as (b & st1 & Hadv & Hstep1 & Hfacts).
  rewrite Heq in Hadv. injection Hadv as <- <-. by split.
Qed.

Lemma term_returned st term st' :
  current_term _headwords look_up st = Returned term st' →
  term_result _headwords look_up st term st'.
Proof.
  intros Heq.
  destruct (current_term_spec st) as [(t & st1 & Hct & Hfacts) | (st1 & Hct & _)];
    rewrite Heq in Hct; [|done].
  injection Hct as <- <-. done.
Qed.

Lemma term_exited st st' :
  current_term _headwords look_up st = SysExit st' →
  cache_ok look_up (_lookup_cache st) →
  counts_ok look_up (headword_entry_count (_data st)) →
  0 <= headword_index (_data st) < len_headwords _headwords →
  inner_step look_up st st' ∧
  (∃ word, py_getitem _headwords (headword_index (_data st)) = Some word ∧
           term_of look_up word = None) ∧
  ∀ i, headword_index (_data st) < i < len_headwords _headwords →
       nonpositive_at _headwords (headword_entry_count (_data st')) i.
Proof.
  intros Heq Hc Hn Hin.
  destruct (current_term_spec st) as [(t & st1 & Hct & _) | (st1 & Hct & Hstep & Hfacts)];
    rewrite Heq in Hct; [done|].
  injection Hct as <-. split; [done|]. by apply Hfacts.
Qed.

(** ** The invariant of a run *)

Lemma keep_positive counts counts' i :
  (∀ word c, counts !! word = Some c → counts' !! word = Some c) →
  positive_at _headwords counts i → positive_at _headwords counts' i.
Proof. intros Hk (w & c & Hw & Hc & Hp). exists w, c. eauto. Qed.

Lemma keep_nonpositive counts counts' i :
  (∀ word c, counts !! word = Some c → counts' !! word = Some c) →
  nonpositive_at _headwords counts i → nonpositive_at _headwords counts' i.
Proof. intros Hk (w & c & Hw & Hc & Hp). exists w, c. eauto. Qed.

Lemma data_ok_update d d' :
  data_ok _headwords look_up d →
  (∀ word c, headword_entry_count d !! word = Some c →
             headword_entry_count d' !! word = Some c) →
  counts_ok look_up (headword_entry_count d') →
  0 <= headword_index d' < len_headwords _headwords →
  0 <= entry_index d' →
  (0 < headword_index d' →
   positive_at _headwords (headword_entry_count d') (headword_index d') ∨
   (nonpositive_at _headwords (headword_entry_count d') (headword_index d') ∧
    headword_index d' = len_headwords _headwords - 1)) →
  (0 < entry_index d' →
   ∃ word term,
     py_getitem _headwords (headword_index d') = Some word ∧
     term_of look_up word = Some term ∧
     (entry_index d' < default 0 (headword_entry_count d' !! headword term) ∨
      headword_index d' = len_headwords _headwords - 1)) →
  data_ok _headwords look_up d'.
Proof.
  intros Hd Hk Hc Hh He H4 H5. split; try done.
  destruct (some_headword_usable _ _ _ Hd) as [H0 | (i & Hi & Hp)]; [by left|].
  right. exists i. split; [done|]. by eapply keep_positive.
Qed.

Lemma state_ok_after_save st :
  state_ok _headwords look_up st →
  state_ok _headwords look_up (after_save history_writable st).
Proof.
  intros [Hd Hc Hh]. split.
  - by rewrite after_save_data.
  - by rewrite after_save_cache.
  - destruct (after_save_history st) as [-> | ->]; [done|]. right. by eexists.
Qed.

Lemma state_ok_add_event ev st :
  state_ok _headwords look_up st → state_ok _headwords look_up (add_event ev st).
Proof. by intros [Hd Hc Hh]. Qed.

Lemma after_count_check_facts term st :
  let st' := after_count_check term st in
  headword_index (_data st') = headword_index (_data st) ∧
  entry_index (_data st') = entry_index (_data st) ∧
  _lookup_cache st' = _lookup_cache st ∧
  history st' = history st ∧
  (∀ word c, headword_entry_count (_data st) !! word = Some c →
             headword_entry_count (_data st') !! word = Some c) ∧
  (counts_ok look_up (headword_entry_count (_data st)) →
   counts_ok look_up (headword_entry_count (_data st'))) ∧
  default 0 (headword_entry_count (_data st') !! headword term) =
  default 0 (headword_entry_count (_data st) !! headword term).
Proof.
  unfold after_count_check.
  destruct (headword_entry_count (_data st) !! headword term) as [c|] eqn:Hc; simpl.
  { rewrite Hc. repeat split; done. }
  repeat split; try done.
  - intros w c Hw. rewrite lookup_insert_ne; [done|]. congruence.
  - intros Hok w c. rewrite lookup_insert. case_decide; [|by apply Hok].
    intros [= <-]. by left.
  - by rewrite lookup_insert_eq.
Qed.

(** What an inner step keeps of a state that satisfies the invariant. *)
Lemma inner_step_ok st st' :
  inner_step look_up st st' →
  cache_ok look_up (_lookup_cache st) →
  counts_ok look_up (headword_entry_count (_data st)) →
  cache_ok look_up (_lookup_cache st') ∧
  counts_ok look_up (headword_entry_count (_data st')) ∧
  history st' = history st ∧
  (∀ word c, headword_entry_count (_data st) !! word = Some c →
             headword_entry_count (_data st') !! word = Some c).
Proof.
  intros (Hh & Hc & Hk & He & _) Hcache Hcounts.
  split; [by auto|]. split; [by eapply counts_extend_ok; eauto|]. by split.
Qed.

(** [commit_entry] keeps the invariant. *)
Lemma commit_entry_ok st st' :
  state_ok _headwords look_up st →
  commit_entry _headwords look_up history_writable st = Returned tt st' →
  state_ok _headwords look_up st'.
Proof.
  intros [Hd Hc Hh] Hcommit.
  destruct (commit_entry_cases st) as [(st1 & _ & Hx) | (term & st_b & Hct & Hrest)];
    [congruence|].
  apply term_returned in Hct as (Hstep & Hterm & Hcases).
  destruct (inner_step_ok _ _ Hstep Hc (counts_sound _ _ _ Hd)) as (Hc_b & Hn_b & Hh_b & Hk_b).
  destruct (Hterm Hc) as (word_b & Hword_b & Hterm_b).
  simpl in Hk_b, Hh_b, Hcases.
  pose proof (index_in_range _ _ _ Hd) as Hrange.
  pose proof (entry_nonneg _ _ _ Hd) as Hnonneg.
  assert (0 <= headword_index (_data st_b) < len_headwords _headwords ∧
          0 <= entry_index (_data st_b) ∧
          (0 < headword_index (_data st_b) →
           positive_at _headwords (headword_entry_count (_data st_b)) (headword_index (_data st_b)) ∨
           (nonpositive_at _headwords (headword_entry_count (_data st_b)) (headword_index (_data st_b)) ∧
            headword_index (_data st_b) = len_headwords _headwords - 1)))
    as (Hrange_b & Hnonneg_b & H4_b).
  { destruct Hcases as [Hsame | (Hlt & Hr & He & Hp & _)].
    - rewrite Hsame. simpl. split; [done|]. split; [lia|].
      apply (later_headword_counted _ _ _ Hd).
    - split; [done|]. split; [lia|]. by left. }
  destruct (after_count_check_facts term st_b) as (Hh_c & He_c & Hcache_c & Hhist_c & Hk_c & Hn_c & Hdef_c).
  set (st_c := after_count_check term st_b) in *.
  specialize (Hn_c Hn_b).
  assert (∀ word c, headword_entry_count (_data st) !! word = Some c →
                    headword_entry_count (_data st_c) !! word = Some c) as Hk_ac by eauto.
  assert (0 < headword_index (_data st_c) →
          positive_at _headwords (headword_entry_count (_data st_c)) (headword_index (_data st_c)) ∨
          (nonpositive_at _headwords (headword_entry_count (_data st_c)) (headword_index (_data st_c)) ∧
           headword_index (_data st_c) = len_headwords _headwords - 1)) as H4_c.
  { rewrite Hh_c. intros Hpos. destruct (H4_b Hpos) as [Hp | [Hp Hlast]];
      [left; exact (keep_positive _ _ _ Hk_c Hp)
      | right; split; [exact (keep_nonpositive _ _ _ Hk_c Hp) | done]]. }
  assert (history_ok _headwords look_up (history st_c)) as Hhist_ok by (by rewrite Hhist_c, Hh_b).
  simpl in Hrest. destruct (_ <=? _) eqn:Hle.
  - destruct Hrest as (moved & st_d & Hnext & Heq).
    rewrite Heq in Hcommit. injection Hcommit as <-.
    apply (scan_returned 1) in Hnext as (Hstep_d & Hfacts); [|by left].
    destruct (inner_step_ok _ _ Hstep_d) as (Hc_d & Hn_d & Hh_d & Hk_d);
      [by rewrite Hcache_c | done |].
    apply state_ok_after_save.
    assert (state_ok _headwords look_up st_d) as Hok_d;
      [|destruct moved; [done|by apply state_ok_add_event]].
    split; [|done|by rewrite Hh_d].
    destruct moved.
    + destruct Hfacts as (Hr & _ & He & Hp & _).
      apply (data_ok_update (_data st)); try done; [by eauto|lia|by left|lia].
    + destruct Hfacts as [[Hout ->] | (Hin & He & Hlast & Hahead)].
      * apply (data_ok_update (_data st)); try done; [lia..|].
        intros Hpos. exists word_b, term. rewrite Hh_c. split; [done|]. split; [done|].
        right. rewrite Hh_c in Hout. lia.
      * simpl in Hlast. apply (data_ok_update (_data st)); try done; [by eauto|lia|lia| |lia].
        intros Hpos. right. split; [|done]. rewrite Hlast. apply Hahead; lia.
  - rewrite Hrest in Hcommit. injection Hcommit as <-.
    apply state_ok_after_save. split; [|by rewrite Hcache_c|done].
    apply (data_ok_update (_data st)); try done; [lia..|].
    intros Hpos. exists word_b, term. rewrite Hh_c, He_c, Hdef_c.
    split; [done|]. split; [done|]. left. lia.
Qed.

(** What [undo] does in a state that satisfies the invariant, path by
    path: a step back within the headword; a move to the nearest earlier
    headword with a positive count; a scan that finds none and leaves the
    cursor on the first headword; nothing at the very start. *)
Lemma undo_result_ok st :
  state_ok _headwords look_up st →
  let h := headword_index (_data st) in
  let e := entry_index (_data st) in
  ∃ st',
    undo _headwords look_up history_writable st = Returned tt st' ∧
    state_ok _headwords look_up st' ∧
    (∀ word c, headword_entry_count (_data st) !! word = Some c →
               headword_entry_count (_data st') !! word = Some c) ∧
    let h' := headword_index (_data st') in
    let e' := entry_index (_data st') in
    let counts' := headword_entry_count (_data st') in
    ((0 < e ∧ _data st' = set_entry_index (e - 1) (_data st)) ∨
     (e = 0 ∧ 0 < h ∧
      ∃ word term evs ev,
        0 <= h' < h ∧ positive_at _headwords counts' h' ∧
        (∀ i, h' < i < h → nonpositive_at _headwords counts' i) ∧
        py_getitem _headwords h' = Some word ∧ term_of look_up word = Some term ∧
        let count := default 0 (counts' !! headword term) in
        e' = (if 0 <? count then count - 1 else 0) ∧
        trace st' = trace st ++ evs ++
                    (if 0 <? count then []
                     else [Log WARNING (PreviousWordHasNoEntries (headword term))]) ++ [ev] ∧
        Forall inner_event evs ∧
        (if history_writable
         then ev = WriteHistory (to_json (_data st')) ∧
              history st' = FileJson (to_json (_data st'))
         else ev = Log ERROR ErrorSavingHistory ∧ history st' = history st)) ∨
     (e = 0 ∧ 0 < h ∧ h' = 0 ∧ e' = 0 ∧
      (∀ i, 0 <= i < h → nonpositive_at _headwords counts' i) ∧
      history st' = history st ∧
      ∃ evs, trace st' = trace st ++ evs ++ [Log INFO AlreadyAtTheFirstEntry] ∧
             Forall inner_event evs) ∨
     (e = 0 ∧ h = 0 ∧ _data st' = _data st)).
Proof.
  intros [Hd Hc Hh] h e.
  pose proof (index_in_range _ _ _ Hd) as Hrange.
  pose proof (entry_nonneg _ _ _ Hd) as Hnonneg.
  pose proof (undo_cases st) as Hu. simpl in Hu. fold h e in Hu, Hrange, Hnonneg.
  destruct (0 <? e) eqn:He.
  { eexists. split; [exact Hu|]. split.
    - apply state_ok_after_save. split; [|done|done]. simpl.
      apply (data_ok_update (_data st)); simpl;
        [done | done | apply (counts_sound _ _ _ Hd) | done | lia | |].
      + apply (later_headword_counted _ _ _ Hd).
      + intros Hpos. destruct (later_entry_bounded _ _ _ Hd) as (w & t & Hw & Ht & Hb); [lia|].
        exists w, t. split; [done|]. split; [done|]. fold e in Hb. lia.
    - rewrite after_save_data. simpl. split; [done|]. left. split; [lia|done]. }
  assert (e = 0) as He0 by lia.
  destruct (0 <? h) eqn:Hh0.
  2:{ eexists. split; [exact Hu|]. split; [by apply state_ok_add_event; split|].
      split; [done|]. right. right. right. simpl. repeat split; [done|lia]. }
  destruct Hu as (moved & st1 & Hprev & Hu).
  apply (scan_returned (-1)) in Hprev as (Hstep1 & Hfacts); [|by right].
  destruct (inner_step_ok _ _ Hstep1 Hc (counts_sound _ _ _ Hd)) as (Hc1 & Hn1 & Hh1 & Hk1).
  destruct Hstep1 as (_ & _ & _ & _ & evs1 & Ht1 & Hi1 & _).
  fold h in Hfacts.
  destruct moved.
  2:{ destruct Hfacts as [[Hout _] | (_ & He1 & Hlast & Hahead)]; [lia|].
      simpl in Hlast.
      eexists. split; [exact Hu|]. split.
      - apply state_ok_add_event. split; [|done|by rewrite Hh1].
        apply (data_ok_update (_data st)); [done | done | done | lia | lia | lia | lia].
      - split; [done|]. right. right. left. simpl.
        split; [done|]. split; [lia|]. split; [done|]. split; [done|].
        split; [intros i Hi; apply Hahead; lia|]. split; [done|].
        exists evs1. split; [by rewrite Ht1, <- app_assoc|done]. }
  destruct Hfacts as (Hr1 & Hlt1 & He1 & Hp1 & Hbetween).
  destruct (positive_at_term _ _ Hn1 Hp1) as (word & term & Hword & Hterm & _).
  destruct (current_term_here st1 word term Hc1 Hword Hterm) as (st2 & Hct & Hd2 & Hstep2).
  destruct (inner_step_ok _ _ Hstep2 Hc1 Hn1) as (Hc2 & Hn2 & Hh2 & Hk2).
  destruct Hstep2 as (_ & _ & _ & _ & evs2 & Ht2 & Hi2 & _).
  destruct Hu as [(st' & Hct' & _) | (term' & st2' & Hct' & Hu)]; [congruence|].
  rewrite Hct in Hct'. injection Hct' as <- <-.
  eexists. split; [exact Hu|].
  set (count := default 0 (headword_entry_count (_data st2) !! headword term)).
  assert (_data (after_previous term st2) =
          set_entry_index (if 0 <? count then count - 1 else 0) (_data st2)) as Hdata.
  { unfold after_previous. fold count. destruct (0 <? count); [done|].
    simpl. rewrite Hd2. destruct (_data st1); simpl in *. by subst. }
  assert (_lookup_cache (after_previous term st2) = _lookup_cache st2 ∧
          history (after_previous term st2) = history st2 ∧
          trace (after_previous term st2) =
          trace st2 ++ (if 0 <? count then []
                        else [Log WARNING (PreviousWordHasNoEntries (headword term))]))
    as (Hcache & Hhist & Htrace).
  { unfold after_previous. fold count. destruct (0 <? count); simpl; by rewrite ?app_nil_r. }
  split; [|split].
  - apply state_ok_after_save. split; [|by rewrite Hcache|by rewrite Hhist, Hh2, Hh1].
    rewrite Hdata.
    apply (data_ok_update (_data st)); simpl; rewrite ?Hd2;
      [done | by eauto | done | lia | | by left |].
    + destruct (0 <? count) eqn:Hcount; lia.
    + intros Hpos. exists word, term. split; [done|]. split; [done|]. left.
      fold count. rewrite <- (f_equal headword_entry_count Hd2). fold count.
      destruct (0 <? count) eqn:Hcount; lia.
  - rewrite after_save_data, Hdata. simpl. by eauto.
  - right. left. split; [done|]. split; [lia|].
    rewrite after_save_data, Hdata. simpl. rewrite Hd2.
    exists word, term, (evs1 ++ evs2).
    exists (if history_writable
            then WriteHistory (to_json (_data (after_previous term st2)))
            else Log ERROR ErrorSavingHistory).
    split; [lia|]. split; [done|]. split; [intros i Hi; apply Hbetween; lia|].
    split; [done|]. split; [done|].
    rewrite <- (f_equal headword_entry_count Hd2). fold count.
    split; [done|]. split.
    { unfold after_save. destruct history_writable; simpl;
        rewrite Htrace, Ht2, Ht1, <- !app_assoc; done. }
    split; [by apply Forall_app|].
    unfold after_save. destruct history_writable; simpl.
    + rewrite Hdata. split; congruence.
    + split; [done|]. by rewrite Hhist, Hh2, Hh1.
Qed.

Lemma current_term_ok st term st' :
  state_ok _headwords look_up st →
  current_term _headwords look_up st = Returned term st' →
  state_ok _headwords look_up st'.
Proof.
  intros [Hd Hc Hh] (Hstep & _ & Hcases)%term_returned.
  destruct (inner_step_ok _ _ Hstep Hc (counts_sound _ _ _ Hd)) as (Hc' & Hn' & Hh' & Hk').
  split; [|done|by rewrite Hh'].
  destruct Hcases as [-> | (Hlt & Hr & He & Hp & _)]; [done|].
  apply (data_ok_update (_data st)); [done | done | done | done | lia | by left | lia].
Qed.

Lemma current_entry_returned st entry st' :
  current_entry _headwords look_up st = Returned entry st' →
  ∃ term, current_term _headwords look_up st = Returned term st'.
Proof.
  unfold current_entry, bind at 1.
  destruct (current_term _headwords look_up st) as [term st1| | | |]; try done.
  munfold. destruct (entries term); simpl; [done|].
  destruct (py_getitem _ _); simpl; [|done].
  intros [= _ <-]. by exists term.
Qed.

Lemma run_operation_ok op st st' :
  state_ok _headwords look_up st →
  run_operation _headwords look_up history_writable op st = Returned tt st' →
  state_ok _headwords look_up st'.
Proof.
  intros Hok. destruct op; simpl.
  - unfold bind, ret.
    destruct (current_term _headwords look_up st) as [term st1| | | |] eqn:Hct; try done.
    intros [= <-]. by eapply current_term_ok.
  - unfold bind, ret.
    destruct (current_entry _headwords look_up st) as [entry st1| | | |] eqn:Hce; try done.
    intros [= <-]. apply current_entry_returned in Hce as [term Hct].
    by eapply current_term_ok.
  - by apply commit_entry_ok.
  - destruct (undo_result_ok st Hok) as (st1 & Hu & Hok1 & _).
    rewrite Hu. by intros [= <-].
  - unfold __exit__. rewrite save_history_eq. intros [= <-].
    by apply state_ok_after_save.
Qed.

(** ** [__init__] *)

(** The loop of [__init__] returns with the cursor on a headword the
    provider has entries for, having left the record as it was or moved to
    a later headword with a positive count, or stops the process. *)
Lemma ensure_entries_loop_spec :
  ∀ fuel st,
    let h := headword_index (_data st) in
    let n := len_headwords _headwords in
    (0 < fuel)%nat → n - Z.max h (-1) < Z.of_nat fuel →
    (∃ st',
       ensure_entries_loop _headwords look_up fuel st = Returned tt st' ∧
       inner_step look_up st st' ∧
       let h' := headword_index (_data st') in
       (cache_ok look_up (_lookup_cache st) →
        ∃ word term, py_getitem _headwords h' = Some word ∧
                     term_of look_up word = Some term ∧ entries term ≠ []) ∧
       (_data st' = _data st ∨
        (h < h' ∧ 0 <= h' < n ∧ entry_index (_data st') = 0 ∧
         positive_at _headwords (headword_entry_count (_data st')) h'))) ∨
    (∃ st',
       ensure_entries_loop _headwords look_up fuel st = SysExit st' ∧
       inner_step look_up st st').
Proof.
  induction fuel as [|fuel IH]; intros st h n Hpos Hfuel; [lia|].
  remember (ensure_entries_loop _headwords look_up (S fuel) st) as out eqn:Hout.
  cbn [ensure_entries_loop] in Hout.
  destruct (has_entries_spec st) as (ok & st1 & Hhas & Hd1 & Hstep1 & Hterm1).
  unfold bind at 1 in Hout. rewrite Hhas in Hout.
  destruct ok.
  { left. exists st1. split; [done|]. split; [done|]. simpl. rewrite Hd1.
    split; [by auto|by left]. }
  destruct (advance_spec 1 st1 (or_introl eq_refl)) as (b & st2 & Hadv & Hstep2 & Hfacts).
  unfold bind at 1, _go_to_next_headword in Hout. rewrite Hadv in Hout.
  rewrite Hd1 in Hfacts. fold h n in Hfacts.
  assert (inner_step look_up st st2) as Hst2 by (by etransitivity).
  destruct b; cbn beta iota in Hfacts.
  - destruct Hfacts as (Hr2 & Hlt2 & He2 & Hp2 & _).
    destruct (IH st2) as [(st' & Hrec & Hstep' & Hterm & Hcases) | (st' & Hrec & Hstep')];
      [lia | lia | |].
    + left. exists st'. split; [congruence|]. split; [by etransitivity|].
      split. { intros Hc. apply Hterm. by apply Hst2. }
      right. destruct Hcases as [Hsame | (Hlt & Hr' & He' & Hp')].
      * rewrite Hsame. split; [lia|]. done.
      * split; [lia|]. done.
    + right. exists st'. split; [congruence|]. by etransitivity.
  - right. eexists. split; [by rewrite Hout|].
    etransitivity; [done|]. by apply inner_step_log.
Qed.

Lemma counts_ok_empty : counts_ok look_up ∅.
Proof. intros w c. by rewrite lookup_empty. Qed.

Lemma cache_ok_empty : cache_ok look_up ∅.
Proof. intros w c. by rewrite lookup_empty. Qed.

(** A start without a history file: the cursor is on the first entry of a
    headword the provider has entries for. *)
Lemma init_fresh_result st :
  __init__ _headwords look_up FileMissing = Returned tt st →
  state_ok _headwords look_up st ∧
  entry_index (_data st) = 0 ∧
  history st = FileMissing ∧
  ∃ word term,
    py_getitem _headwords (headword_index (_data st)) = Some word ∧
    term_of look_up word = Some term ∧ entries term ≠ [].
Proof.
  unfold __init__, bind at 1, _load_history, bind at 1, get at 1.
  cbn -[ensure_entries_loop]. intros Hloop.
  destruct (ensure_entries_loop_spec (S (S (length _headwords))) (new_State FileMissing))
    as [(st' & Hrec & Hstep & Hterm & Hcases) | (st' & Hrec & _)];
    [lia | simpl; unfold len_headwords; lia | | congruence].
  rewrite Hloop in Hrec. injection Hrec as <-.
  destruct (inner_step_ok _ _ Hstep cache_ok_empty counts_ok_empty) as (Hc & Hn & Hh & Hk).
  destruct (Hterm cache_ok_empty) as (word & term & Hword & Hterm' & Hne).
  assert (entry_index (_data st) = 0) as He.
  { destruct Hcases as [-> | (_ & _ & He & _)]; done. }
  split; [|by eauto 10].
  split; [|done|by left; rewrite Hh].
  destruct Hcases as [Hsame | (Hlt & Hr & _ & Hp)].
  - rewrite Hsame in *. simpl in *.
    apply py_getitem_Some_lt in Hword as Hlt. fold (len_headwords _headwords) in Hlt.
    split; simpl; [lia | lia | apply counts_ok_empty | lia | lia | by left; eauto].
  - split; [done | lia | done | by left | lia | ].
    right. by exists (headword_index (_data st)).
Qed.

(** A start with the history file an earlier state of the invariant left. *)
Lemma init_restart_ok file st :
  history_ok _headwords look_up file →
  __init__ _headwords look_up file = Returned tt st →
  state_ok _headwords look_up st.
Proof.
  intros [-> | (d & -> & Hd)]; [by intros [Hok _]%init_fresh_result|].
  unfold __init__, bind at 1, _load_history, bind at 1, get at 1.
  cbn [history new_State]. cbn beta iota.
  rewrite from_json_to_json. unfold modify. cbn beta iota.
  set (st0 := set_data d _). intros Hloop.
  destruct (ensure_entries_loop_spec (S (S (length _headwords))) st0)
    as [(st' & Hrec & Hstep & Hterm & Hcases) | (st' & Hrec & _)];
    [lia | simpl; unfold len_headwords; lia | | congruence].
  rewrite Hloop in Hrec. injection Hrec as <-.
  destruct (inner_step_ok _ _ Hstep cache_ok_empty (counts_sound _ _ _ Hd)) as (Hc & Hn & Hh & Hk).
  split; [|done|right; exists d; by rewrite Hh].
  destruct Hcases as [-> | (Hlt & Hr & He & Hp)]; [done|].
  apply (data_ok_update d); [done | done | done | done | lia | by left | lia].
Qed.

Lemma reachable_ok st :
  reachable _headwords look_up history_writable st → state_ok _headwords look_up st.
Proof.
  induction 1 as [st Hinit | st0 st Hreach IH Hinit | op st st' Hreach IH Hop].
  - by apply init_fresh_result in Hinit as [Hok _].
  - eapply init_restart_ok; [|done]. apply (state_history_ok _ _ _ IH).
  - by eapply run_operation_ok.
Qed.

(** ** [undo] followed by [commit_entry] *)

(** A forward scan from a headword before [h], over headwords whose
    recorded counts are not positive, ends on the first entry of [h]: by
    success if the count of [h] is positive, by running off the end if [h]
    is the last headword. *)
Lemma go_to_next_lands st moved st' h :
  _go_to_next_headword _headwords look_up st = Returned moved st' →
  0 <= headword_index (_data st) < h → h < len_headwords _headwords →
  (∀ i, headword_index (_data st) < i < h →
        nonpositive_at _headwords (headword_entry_count (_data st)) i) →
  positive_at _headwords (headword_entry_count (_data st)) h ∨
  (nonpositive_at _headwords (headword_entry_count (_data st)) h ∧
   h = len_headwords _headwords - 1) →
  headword_index (_data st') = h ∧ entry_index (_data st') = 0.
Proof.
  intros (Hstep & Hfacts)%(scan_returned 1) Hp Hh Hbetween Hat; [|by left].
  destruct moved.
  - destruct Hfacts as (Hr & Hlt & He & Hpos & Hskipped). split; [|done].
    destruct (Z.lt_trichotomy (headword_index (_data st')) h) as [Hlt' | [Heq | Hgt]]; [|done|].
    + exfalso. apply (positive_not_nonpositive _ _ Hpos).
      eapply nonpositive_at_mono; [done|]. apply Hbetween. lia.
    + exfalso. assert (nonpositive_at _headwords (headword_entry_count (_data st')) h) as Hnp.
      { apply Hskipped. lia. }
      destruct Hat as [Hat | [_ Hlast]]; [|lia].
      apply (positive_not_nonpositive _ h) in Hnp; [done|]. by eapply positive_at_mono.
  - destruct Hfacts as [[Hout _] | (_ & He & Hlast & Hahead)]; [lia|].
    simpl in Hlast. split; [|done].
    assert (nonpositive_at _headwords (headword_entry_count (_data st')) h) as Hnp.
    { apply Hahead; lia. }
    destruct Hat as [Hat | [_ Hlast']]; [|lia].
    exfalso. apply (positive_not_nonpositive _ h) in Hnp; [done|]. by eapply positive_at_mono.
Qed.

(** After a step back within a headword, [commit_entry] steps forward to
    the entry [undo] left. *)
Lemma commit_after_step_back st st1 :
  state_ok _headwords look_up st →
  0 < entry_index (_data st) →
  _data st1 = set_entry_index (entry_index (_data st) - 1) (_data st) →
  cache_ok look_up (_lookup_cache st1) →
  ∃ st2, commit_entry _headwords look_up history_writable st1 = Returned tt st2 ∧
         cursor st2 = cursor st.
Proof.
  intros [Hd _ _] He Hdata Hc1.
  destruct (later_entry_bounded _ _ _ Hd He) as (wd & tm & Hword & Hterm & Hbound).
  pose proof (index_in_range _ _ _ Hd) as Hrange.
  set (st_a := set_data (set_entry_index (entry_index (_data st1) + 1) (_data st1)) st1).
  destruct (current_term_here st_a wd tm) as (st_b & Hct' & Hd_b & _);
    [done | by simpl; rewrite Hdata | done |].
  destruct (commit_entry_cases st1) as [(st' & Hct & _) | (term' & st_b' & Hct & Hrest)];
    fold st_a in Hct; rewrite Hct in Hct'; [done|].
  injection Hct' as -> ->. simpl in Hd_b, Hrest. rewrite Hdata in Hd_b. simpl in Hd_b.
  destruct (after_count_check_facts tm st_b) as (Hh_c & He_c & _ & _ & _ & _ & _).
  assert (cursor (after_count_check tm st_b) = cursor st) as Hcur.
  { unfold cursor. rewrite Hh_c, He_c, Hd_b. simpl. f_equal. lia. }
  rewrite Hd_b in Hrest. simpl in Hrest.
  replace (entry_index (_data st) - 1 + 1) with (entry_index (_data st)) in Hrest by lia.
  destruct (_ <=? _) eqn:Hle.
  - destruct Hrest as (moved & st_d & Hnext & Heq).
    eexists. split; [exact Heq|]. rewrite after_save_cursor.
    apply (scan_returned 1) in Hnext as (_ & Hfacts); [|by left].
    assert (headword_index (_data st) = len_headwords _headwords - 1) as Hlast by lia.
    rewrite Hh_c, Hd_b in Hfacts. simpl in Hfacts.
    destruct moved; [lia|].
    destruct Hfacts as [[_ ->] | (Hin & _)]; [done|lia].
  - eexists. split; [exact Hrest|]. by rewrite after_save_cursor.
Qed.

(** After a move back to an earlier headword, [commit_entry] scans forward
    again to the headword [undo] left. *)
Lemma commit_after_move_back st1 h wd tm :
  state_ok _headwords look_up st1 →
  0 <= headword_index (_data st1) < h → h < len_headwords _headwords →
  (∀ i, headword_index (_data st1) < i < h →
        nonpositive_at _headwords (headword_entry_count (_data st1)) i) →
  positive_at _headwords (headword_entry_count (_data st1)) h ∨
  (nonpositive_at _headwords (headword_entry_count (_data st1)) h ∧
   h = len_headwords _headwords - 1) →
  py_getitem _headwords (headword_index (_data st1)) = Some wd →
  term_of look_up wd = Some tm →
  (let count := default 0 (headword_entry_count (_data st1) !! headword tm) in
   entry_index (_data st1) = if 0 <? count then count - 1 else 0) →
  ∃ st2, commit_entry _headwords look_up history_writable st1 = Returned tt st2 ∧
         headword_index (_data st2) = h ∧ entry_index (_data st2) = 0.
Proof.
  intros [Hd Hc _] Hp Hh Hbetween Hat Hword Hterm He. simpl in He.
  set (st_a := set_data (set_entry_index (entry_index (_data st1) + 1) (_data st1)) st1).
  destruct (current_term_here st_a wd tm) as (st_b & Hct' & Hd_b & _); [done..|].
  destruct (commit_entry_cases st1) as [(st' & Hct & _) | (term' & st_b' & Hct & Hrest)];
    fold st_a in Hct; rewrite Hct in Hct'; [done|].
  injection Hct' as -> ->. simpl in Hd_b, Hrest.
  destruct (after_count_check_facts tm st_b) as (Hh_c & He_c & _ & _ & Hk_c & _ & _).
  rewrite Hd_b in Hrest, Hh_c, He_c, Hk_c. simpl in Hrest, Hh_c, He_c, Hk_c.
  set (count := default 0 (headword_entry_count (_data st1) !! headword tm)) in *.
  replace (count <=? entry_index (_data st1) + 1) with true in Hrest
    by (destruct (0 <? count) eqn:E; lia).
  destruct Hrest as (moved & st_d & Hnext & Heq).
  eexists. split; [exact Heq|]. rewrite after_save_data.
  assert (headword_index (_data st_d) = h ∧ entry_index (_data st_d) = 0) as Hland.
  { eapply go_to_next_lands; [exact Hnext | rewrite Hh_c; lia | done | |].
    - rewrite Hh_c. intros i Hi. eapply keep_nonpositive; [exact Hk_c|]. by apply Hbetween.
    - destruct Hat as [Hat | [Hat Hlast]];
        [left; exact (keep_positive _ _ _ Hk_c Hat)
        | right; split; [exact (keep_nonpositive _ _ _ Hk_c Hat) | done]]. }
  by destruct moved.
Qed.

(** After a scan back that found no earlier headword with a positive count
    and left the cursor on the first headword, [commit_entry] scans forward
    again to the headword [undo] left. *)
Lemma commit_after_failed_scan st1 h :
  look_up_answers_the_query look_up →
  state_ok _headwords look_up st1 →
  headword_index (_data st1) = 0 → entry_index (_data st1) = 0 →
  0 < h < len_headwords _headwords →
  (∀ i, 0 <= i < h → nonpositive_at _headwords (headword_entry_count (_data st1)) i) →
  positive_at _headwords (headword_entry_count (_data st1)) h ∨
  (nonpositive_at _headwords (headword_entry_count (_data st1)) h ∧
   h = len_headwords _headwords - 1) →
  ∃ st2, commit_entry _headwords look_up history_writable st1 = Returned tt st2 ∧
         headword_index (_data st2) = h ∧ entry_index (_data st2) = 0.
Proof.
  intros Hfaithful [Hd Hc _] Hh1 He1 Hh Hbefore Hat.
  pose proof (counts_sound _ _ _ Hd) as Hn.
  set (st_a := set_data (set_entry_index (entry_index (_data st1) + 1) (_data st1)) st1).
  destruct (commit_entry_cases st1) as [(st' & Hct & _) | (tm & st_b & Hct & Hrest)];
    fold st_a in Hct.
  { exfalso. apply term_exited in Hct as (Hstep & (w0 & Hw0 & Hnone) & Hahead);
      [|done|done|simpl; lia].
    simpl in Hw0, Hahead. rewrite Hh1 in Hw0, Hahead.
    destruct (some_headword_usable _ _ _ Hd) as [(w & t & Hw & Ht) | (k & Hk & Hpos)];
      [congruence|].
    destruct (decide (k = 0)) as [-> | Hk0].
    - apply (positive_not_nonpositive _ _ Hpos). apply Hbefore. lia.
    - apply (positive_not_nonpositive (headword_entry_count (_data st')) k).
      + by eapply (positive_at_mono st_a).
      + apply Hahead. lia. }
  apply term_returned in Hct as (Hstep & Hterm & Hcases). subst st_a.
  destruct (inner_step_ok _ _ Hstep Hc Hn) as (Hc_b & Hn_b & _ & Hk_b).
  destruct (Hterm Hc) as (w_b & Hw_b & Hterm_b).
  pose proof (Hfaithful w_b tm) as Hhead. unfold term_of in Hterm_b.
  destruct (look_up w_b) as [| |t] eqn:Hlook; try done.
  injection Hterm_b as ->. specialize (Hhead eq_refl).
  destruct (after_count_check_facts tm st_b) as (Hh_c & He_c & _ & _ & Hk_c & _ & _).
  simpl in Hrest, Hk_b, Hcases. rewrite Hh1, He1 in Hcases. simpl in Hcases.
  destruct Hcases as [Hsame | (Hlt & Hr & He_b & Hp_b & Hskip)].
  - rewrite Hsame in Hrest, Hw_b, Hh_c, He_c, Hk_c. simpl in Hrest, Hw_b, Hh_c, He_c, Hk_c.
    rewrite Hh1 in Hw_b, Hh_c.
    destruct (Hbefore 0) as (w0 & c0 & Hw0 & Hc0 & Hle0); [lia|].
    assert (w0 = w_b) as -> by congruence.
    rewrite Hhead, Hc0 in Hrest. simpl in Hrest.
    replace (c0 <=? 0 + 1) with true in Hrest by lia.
    destruct Hrest as (moved & st_d & Hnext & Heq).
    eexists. split; [exact Heq|]. rewrite after_save_data.
    assert (headword_index (_data st_d) = h ∧ entry_index (_data st_d) = 0) as Hland.
    { eapply go_to_next_lands; [exact Hnext | rewrite Hh_c; lia | lia | |].
      - rewrite Hh_c. intros i Hi. eapply keep_nonpositive; [exact Hk_c|].
        apply Hbefore. lia.
      - destruct Hat as [Hat | [Hat Hlast]];
          [left; exact (keep_positive _ _ _ Hk_c Hat)
          | right; split; [exact (keep_nonpositive _ _ _ Hk_c Hat) | done]]. }
    by destruct moved.
  - destruct (Hskip (conj Hc Hn)) as [_ Hbetween]. simpl in Hbetween.
    assert (headword_index (_data st_b) = h) as Hh_b.
    { destruct (Z.lt_trichotomy (headword_index (_data st_b)) h) as [Hlt' | [Heq | Hgt]]; [|done|].
      - exfalso. apply (positive_not_nonpositive _ _ Hp_b).
        eapply keep_nonpositive; [exact Hk_b|]. apply Hbefore. lia.
      - exfalso. assert (nonpositive_at _headwords (headword_entry_count (_data st_b)) h) as Hnp.
        { apply Hbetween. lia. }
        destruct Hat as [Hat | [_ Hlast]]; [|lia].
        apply (positive_not_nonpositive _ h) in Hnp; [done|]. by eapply keep_positive. }
    destruct Hp_b as (w & c & Hw & Hcw & Hpos). assert (w = w_b) as -> by congruence.
    rewrite Hhead, Hcw, He_b in Hrest. simpl in Hrest.
    replace (c <=? 0) with false in Hrest by lia.
    eexists. split; [exact Hrest|]. rewrite after_save_data. by rewrite Hh_c, He_c.
Qed.

(** C5, as the code has it: in every state of a run (a start without a
    history file, then operations and restarts from the history file the
    run has saved, all on the same headwords and with the same provider)
    whose provider answers with terms for the word it was asked, and whose
    cursor is not on the first entry of the first headword, [undo] returns
    and a [commit_entry] called next returns with the cursor where it was
    before the [undo]; on the first entry of the first headword [undo]
    returns and leaves the record as it is. *)
Theorem undo_then_commit_restores_cursor (st : State) :
  look_up_answers_the_query look_up →
  reachable _headwords look_up history_writable st →
  (cursor st ≠ (0, 0) →
   ∃ st1 st2,
     undo _headwords look_up history_writable st = Returned tt st1 ∧
     commit_entry _headwords look_up history_writable st1 = Returned tt st2 ∧
     cursor st2 = cursor st) ∧
  (cursor st = (0, 0) →
   ∃ st1,
     undo _headwords look_up history_writable st = Returned tt st1 ∧
     _data st1 = _data st).
Proof.
  intros Hfaithful Hok%reachable_ok.
  destruct (undo_result_ok st Hok) as (st1 & Hu & Hok1 & Hk & Hcases).
  pose proof (index_in_range _ _ _ (state_data_ok _ _ _ Hok)) as Hrange.
  assert (0 < headword_index (_data st) →
          positive_at _headwords (headword_entry_count (_data st1)) (headword_index (_data st)) ∨
          (nonpositive_at _headwords (headword_entry_count (_data st1)) (headword_index (_data st)) ∧
           headword_index (_data st) = len_headwords _headwords - 1)) as Hat.
  { intros Hpos.
    destruct (later_headword_counted _ _ _ (state_data_ok _ _ _ Hok) Hpos) as [Hp | [Hp Hlast]];
      [left; exact (keep_positive _ _ _ Hk Hp)
      | right; split; [exact (keep_nonpositive _ _ _ Hk Hp) | done]]. }
  split.
  - intros Hnot. exists st1.
    destruct Hcases as [(He & Hdata) | [(He & Hh & Hback) | [(He & Hh & Hfail) | (He & Hh & _)]]].
    + destruct (commit_after_step_back st st1 Hok He Hdata (state_cache_ok _ _ _ Hok1))
        as (st2 & Hc & Hcur).
      by exists st2.
    + destruct Hback as (wd & tm & evs & ev & Hp & Hpos & Hbetween & Hword & Hterm & He1 & _).
      destruct (commit_after_move_back st1 (headword_index (_data st)) wd tm)
        as (st2 & Hc & Hh2 & He2); [done | done | lia | done | by auto | done | done | done |].
      exists st2. split; [done|]. split; [done|]. unfold cursor. congruence.
    + destruct Hfail as (Hh1 & He1 & Hbefore & _).
      destruct (commit_after_failed_scan st1 (headword_index (_data st)))
        as (st2 & Hc & Hh2 & He2); [done | done | done | done | lia | done | by auto |].
      exists st2. split; [done|]. split; [done|]. unfold cursor. congruence.
    + exfalso. apply Hnot. unfold cursor. congruence.
  - intros [= Hh He]. exists st1. split; [done|].
    destruct Hcases as [(He' & _) | [(_ & Hh' & _) | [(_ & Hh' & _) | (_ & _ & Hsame)]]];
      [lia | lia | lia | done].
Qed.

(** ** Where [undo] lands *)

Lemma inner_step_extend st st' :
  inner_step look_up st st' → cache_ok look_up (_lookup_cache st) →
  counts_extend look_up (headword_entry_count (_data st)) (headword_entry_count (_data st')).
Proof. intros (_ & _ & _ & He & _). done. Qed.


Lemma undo_at_start_eq st :
  headword_index (_data st) = 0 → entry_index (_data st) = 0 →
  undo _headwords look_up history_writable st =
  Returned tt (add_event (Log INFO AlreadyAtTheFirstEntry) st).
Proof.
  intros Hh He. pose proof (undo_cases st) as Hu. simpl in Hu.
  by rewrite Hh, He in Hu.
Qed.


(** ** Where the cursor is in bounds *)

Lemma counts_stable_trace st st' :
  counts_stable st st' → ∃ evs, trace st' = trace st ++ evs.
Proof. intros (_ & evs & Ht & _). by exists evs. Qed.

(** After a [commit_entry] that returns without logging that the end of the
    list was reached, the cursor is in bounds. *)
Lemma commit_entry_in_bounds st st' :
  look_up_answers_the_query look_up →
  state_ok _headwords look_up st →
  commit_entry _headwords look_up history_writable st = Returned tt st' →
  Log INFO ReachedTheEndOfTheVocabularyList ∉ events_since st st' →
  cursor_in_bounds _headwords st'.
Proof.
  intros Hfaithful [Hd Hc _] Hcommit Hquiet.
  pose proof (counts_stable_set_entry_index st (entry_index (_data st) + 1)) as Hs_a.
  destruct (commit_entry_cases st) as [(st1 & _ & Hx) | (tm & st_b & Hct & Hrest)];
    [congruence|].
  pose proof (current_term_stable _ _ (f_equal outcome_state Hct)) as Hs_b.
  apply term_returned in Hct as (Hstep & Hterm & Hcases).
  destruct (Hterm Hc) as (w_b & Hw_b & Hterm_b).
  assert (headword tm = w_b) as Hhead.
  { apply Hfaithful. unfold term_of in Hterm_b. by destruct (look_up w_b); simplify_eq. }
  assert (0 <= entry_index (_data st_b)) as Hnonneg.
  { pose proof (entry_nonneg _ _ _ Hd).
    destruct Hcases as [-> | (_ & _ & -> & _)]; simpl; lia. }
  pose proof (after_count_check_stable tm st_b) as Hs_c.
  destruct (after_count_check_facts tm st_b) as (Hh_c & He_c & _ & _ & Hk_c & _ & Hdef_c).
  simpl in Hrest. destruct (_ <=? _) eqn:Hle.
  - destruct Hrest as (moved & st_d & Hnext & Heq).
    rewrite Heq in Hcommit. injection Hcommit as <-.
    apply (scan_returned 1) in Hnext as (Hstep_d & Hfacts); [|by left].
    destruct moved.
    + destruct Hfacts as (_ & _ & He_d & (w & c & Hw & Hcw & Hpos) & _).
      exists w, c. rewrite after_save_data. repeat split; try done; lia.
    + exfalso. apply Hquiet.
      assert (counts_stable st st_d) as (evs & Ht)%counts_stable_trace.
      { etransitivity; [exact Hs_a|]. etransitivity; [exact Hs_b|].
        etransitivity; [exact Hs_c|]. by apply inner_step_counts_stable. }
      destruct (after_save_trace
                  (add_event (Log INFO ReachedTheEndOfTheVocabularyList) st_d)) as (ev & Ht' & _).
      unfold events_since. rewrite Ht'. simpl. rewrite Ht, <- !app_assoc, drop_app_length.
      set_solver.
  - rewrite Hrest in Hcommit. injection Hcommit as <-.
    rewrite Hhead in Hle, Hdef_c.
    destruct (headword_entry_count (_data st_b) !! w_b) as [c|] eqn:Hcw; simpl in Hle; [|lia].
    exists w_b, c. rewrite after_save_data, Hh_c, He_c.
    split; [done|]. split; [by apply Hk_c|]. lia.
Qed.

(** After an [undo] that returns without logging that it cannot undo
    further, the cursor is in bounds if it was, or if the [undo] started on
    the first entry of a headword. *)
Lemma undo_in_bounds st st' :
  look_up_answers_the_query look_up →
  state_ok _headwords look_up st →
  undo _headwords look_up history_writable st = Returned tt st' →
  Log INFO AlreadyAtTheFirstEntry ∉ events_since st st' →
  cursor_in_bounds _headwords st ∨ entry_index (_data st) = 0 →
  cursor_in_bounds _headwords st'.
Proof.
  intros Hfaithful Hok Hundo Hquiet Hbefore.
  destruct (undo_result_ok st Hok) as (st1 & Hu & _ & Hk & Hcases).
  rewrite Hundo in Hu. injection Hu as <-.
  destruct Hcases as [(He & Hdata) | [(_ & _ & Hback) | [(_ & _ & Hfail) | (He & Hh & _)]]].
  - destruct Hbefore as [(w & c & Hw & Hc & Hpos & Hin) | He0]; [|lia].
    exists w, c. rewrite Hdata. simpl. repeat split; try done; lia.
  - destruct Hback as (wd & tm & evs & ev & Hp & Hpos & _ & Hword & Hterm & He1 & _).
    assert (headword tm = wd) as Hhead.
    { apply Hfaithful. unfold term_of in Hterm. by destruct (look_up wd); simplify_eq. }
    destruct Hpos as (w & c & Hw & Hc & Hcpos). assert (w = wd) as -> by congruence.
    simpl in He1. rewrite Hhead, Hc in He1. simpl in He1.
    replace (0 <? c) with true in He1 by lia.
    exists wd, c. repeat split; try done; lia.
  - exfalso. apply Hquiet. destruct Hfail as (_ & _ & _ & _ & evs & Ht & _).
    unfold events_since. rewrite Ht, drop_app_length. set_solver.
  - exfalso. apply Hquiet. rewrite (undo_at_start_eq st Hh He) in Hundo.
    injection Hundo as <-. unfold events_since. simpl. rewrite drop_app_length. set_solver.
Qed.

(** X15: what the code keeps of the bounds of the cursor, for a provider
    that answers with terms for the word it was asked.  A start without a
    history file that returns leaves the cursor on entry 0 of a headword the
    provider has at least one entry for.  After every [commit_entry] of a
    run that returns without reporting the end of the list, and after every
    [undo] of a run that returns without reporting that it cannot undo
    further (provided the cursor was in bounds before, or on the first
    entry of its headword), the headword under the cursor has a recorded
    count above zero and the entry index is at least zero and below that
    count. *)
Theorem cursor_in_bounds_after_steps :
  look_up_answers_the_query look_up →
  (∀ st, __init__ _headwords look_up FileMissing = Returned tt st →
         0 <= headword_index (_data st) < len_headwords _headwords ∧
         entry_index (_data st) = 0 ∧
         ∃ word term,
           py_getitem _headwords (headword_index (_data st)) = Some word ∧
           term_of look_up word = Some term ∧ entries term ≠ []) ∧
  (∀ st st', reachable _headwords look_up history_writable st →
             commit_entry _headwords look_up history_writable st = Returned tt st' →
             Log INFO ReachedTheEndOfTheVocabularyList ∉ events_since st st' →
             cursor_in_bounds _headwords st') ∧
  (∀ st st', reachable _headwords look_up history_writable st →
             undo _headwords look_up history_writable st = Returned tt st' →
             Log INFO AlreadyAtTheFirstEntry ∉ events_since st st' →
             cursor_in_bounds _headwords st ∨ entry_index (_data st) = 0 →
             cursor_in_bounds _headwords st').
Proof.
  intros Hfaithful. split; [|split].
  - intros st (Hok & He & _ & Hterm)%init_fresh_result.
    split; [apply (index_in_range _ _ _ (state_data_ok _ _ _ Hok))|]. by split.
  - intros st st' Hok%reachable_ok. by apply commit_entry_in_bounds.
  - intros st st' Hok%reachable_ok. by apply undo_in_bounds.
Qed.

(** ** A history file that cannot be loaded *)

(** C2, as the code has it: when the history file is missing, cannot be
    read, or is not JSON, [_load_history] returns and [__init__] carries
    on from the default record (indices 0 and 0, no counts); an error is
    logged when the file cannot be read or is not JSON, nothing is logged
    when it is missing. *)
Theorem load_failure_starts_from_defaults :
  starts_from_defaults _headwords look_up FileMissing [] ∧
  starts_from_defaults _headwords look_up FileUnreadable [Log ERROR ErrorLoadingHistory] ∧
  starts_from_defaults _headwords look_up FileNotJson [Log ERROR ErrorLoadingHistory].
Proof.
  repeat split; eexists; (split; [reflexivity|]); repeat split; reflexivity.
Qed.

(** A file that is JSON but does not unpack into the fields of the record
    (here a list, or an object with a key that is no field) is not among
    the failures [_load_history] catches: the [TypeError] of [from_json]
    leaves [__init__]. *)
Lemma load_history_type_error_escapes :
  (∃ st, __init__ _headwords look_up (FileJson (JList [])) = Uncaught TypeError st) ∧
  (∃ st, __init__ _headwords look_up (FileJson (JDict {[ "position" := JInt 3 ]}))
         = Uncaught TypeError st).
Proof. split; eexists; reflexivity. Qed.

(** ** More of the engine *)

(** X1: in every state of a run the headword index is an index of the
    list and the entry index is not negative; a recorded count is never
    negative, and a positive one is the number of entries of the term the
    provider has for the word; a cached term is the provider's. *)
Theorem reachable_record_is_sound (st : State) :
  reachable _headwords look_up history_writable st →
  0 <= headword_index (_data st) < len_headwords _headwords ∧
  0 <= entry_index (_data st) ∧
  (∀ word c, headword_entry_count (_data st) !! word = Some c →
     0 <= c ∧
     (0 < c → ∃ term, look_up word = LookupTerm term ∧
                      c = Z.of_nat (length (entries term)))) ∧
  (∀ word term, _lookup_cache st !! word = Some term → look_up word = LookupTerm term).
Proof.
  intros [Hd Hc _]%reachable_ok.
  split; [apply (index_in_range _ _ _ Hd)|]. split; [apply (entry_nonneg _ _ _ Hd)|].
  split; [|exact Hc].
  intros word c Hw. destruct (counts_sound _ _ _ Hd word c Hw) as [-> | Hent]; [split; lia|].
  unfold entries_of, term_of in Hent.
  destruct (look_up word) as [| |term] eqn:Hl; try (split; lia).
  split; [lia|]. intros _. by exists term.
Qed.

(** X2: in a state of a run whose cursor is in bounds, [current_entry]
    returns, without stopping the process, the entry at the entry index of
    the term the provider has for the headword under the cursor, and leaves
    the record and the history file as they are. *)
Theorem current_entry_returns_entry_under_cursor (st : State) :
  reachable _headwords look_up history_writable st →
  cursor_in_bounds _headwords st →
  ∃ word term entry st',
    py_getitem _headwords (headword_index (_data st)) = Some word ∧
    look_up word = LookupTerm term ∧
    entries term !! Z.to_nat (entry_index (_data st)) = Some entry ∧
    current_entry _headwords look_up st = Returned entry st' ∧
    _data st' = _data st ∧ history st' = history st.
Proof.
  intros [Hd Hc _]%reachable_ok (word & c & Hword & Hcount & Hpos & Hin).
  destruct (positive_at_term _ (headword_index (_data st)) (counts_sound _ _ _ Hd))
    as (w & term & Hw & Hterm & Hlen & _); [by exists word, c|].
  assert (w = word) as -> by congruence.
  assert (c = Z.of_nat (length (entries term))) as Hc' by congruence.
  destruct (lookup_lt_is_Some_2 (entries term) (Z.to_nat (entry_index (_data st))))
    as [entry Hentry]; [lia|].
  destruct (current_term_here st word term Hc Hword Hterm) as (st' & Hct & Hdata & Hstep).
  exists word, term, entry, st'. split; [done|]. split.
  { unfold term_of in Hterm. by destruct (look_up word); simplify_eq. }
  split; [done|]. split; [|split; [done|apply Hstep]].
  unfold current_entry, bind at 1. rewrite Hct.
  destruct (entries term) as [|first rest] eqn:Hentries; [done|].
  unfold bind, get. rewrite Hdata. unfold py_getitem.
  replace (0 <=? entry_index (_data st)) with true by lia. by rewrite Hentry.
Qed.

(** X3: in a state of a run (provider answering with terms for the word
    asked) whose cursor is in bounds, on entry [e] of a headword with
    recorded count [c], [commit_entry] returns and keeps that count; while
    another entry is left ([e + 1 < c]) the cursor goes to entry [e + 1] of
    the same headword and the end of the list is not reported; from the
    last entry the cursor goes to the first entry of a later headword, in
    bounds again, or the end of the list is reported. *)
Theorem commit_entry_visits_the_entries_in_turn (st : State) (word : string) (c : Z) :
  look_up_answers_the_query look_up →
  reachable _headwords look_up history_writable st →
  py_getitem _headwords (headword_index (_data st)) = Some word →
  headword_entry_count (_data st) !! word = Some c →
  0 <= entry_index (_data st) < c →
  ∃ st',
    commit_entry _headwords look_up history_writable st = Returned tt st' ∧
    headword_entry_count (_data st') !! word = Some c ∧
    if entry_index (_data st) + 1 <? c then
      cursor st' = (headword_index (_data st), entry_index (_data st) + 1) ∧
      Log INFO ReachedTheEndOfTheVocabularyList ∉ events_since st st'
    else
      (headword_index (_data st) < headword_index (_data st') ∧
       entry_index (_data st') = 0 ∧ cursor_in_bounds _headwords st') ∨
      Log INFO ReachedTheEndOfTheVocabularyList ∈ events_since st st'.
Proof.
  intros Hfaithful [Hd Hc _]%reachable_ok Hword Hcount Hin.
  destruct (positive_at_term _ (headword_index (_data st)) (counts_sound _ _ _ Hd))
    as (w & tm & Hw & Hterm & Hlen & _); [exists word, c; repeat split; try done; lia|].
  assert (w = word) as -> by congruence.
  assert (headword tm = word) as Hhead.
  { apply Hfaithful. unfold term_of in Hterm. by destruct (look_up word); simplify_eq. }
  set (st_a := set_data (set_entry_index (entry_index (_data st) + 1) (_data st)) st).
  destruct (current_term_here st_a word tm) as (st_b & Hct' & Hd_b & Hstep_b); [done..|].
  destruct (commit_entry_cases st) as [(st' & Hct & _) | (term' & st_b' & Hct & Hrest)];
    fold st_a in Hct; rewrite Hct in Hct'; [done|].
  injection Hct' as -> ->. simpl in Hd_b, Hrest.
  assert (after_count_check tm st_b = st_b) as Hcheck.
  { unfold after_count_check. rewrite Hhead, Hd_b. simpl. by rewrite Hcount. }
  rewrite Hcheck, Hhead, Hd_b in Hrest. simpl in Hrest. rewrite Hcount in Hrest. simpl in Hrest.
  destruct Hstep_b as (_ & _ & _ & _ & evs_b & Ht_b & Hinner_b & _). simpl in Ht_b.
  destruct (c <=? entry_index (_data st) + 1) eqn:Hle.
  - destruct Hrest as (moved & st_d & Hnext & Heq).
    eexists. split; [exact Heq|]. rewrite after_save_data.
    apply (scan_returned 1) in Hnext as (Hstep_d & Hfacts); [|by left].
    pose proof Hstep_d as (_ & _ & Hk_d & _ & evs_d & Ht_d & _).
    assert (headword_entry_count (_data st_d) !! word = Some c) as Hkept.
    { apply Hk_d. by rewrite Hd_b. }
    replace (entry_index (_data st) + 1 <? c) with false by lia.
    rewrite Hd_b in Hfacts. simpl in Hfacts.
    destruct moved.
    + split; [done|]. left. destruct Hfacts as (_ & Hlt & He_d & (w & c' & Hw' & Hc' & Hpos) & _).
      split; [lia|]. split; [done|].
      exists w, c'. rewrite after_save_data. repeat split; try done; lia.
    + split; [done|]. right.
      destruct (after_save_trace
                  (add_event (Log INFO ReachedTheEndOfTheVocabularyList) st_d)) as (ev & Ht' & _).
      unfold events_since. rewrite Ht'. simpl.
      rewrite Ht_d, Ht_b, <- !app_assoc, drop_app_length. set_solver.
  - eexists. split; [exact Hrest|]. rewrite after_save_data, Hd_b. simpl.
    split; [done|]. replace (entry_index (_data st) + 1 <? c) with true by lia.
    split.
    + unfold cursor. by rewrite after_save_data, Hd_b.
    + destruct (after_save_trace st_b) as (ev & Ht' & Hev).
      unfold events_since. rewrite Ht', Ht_b, <- app_assoc, drop_app_length.
      intros [Hin' | Hin']%elem_of_app.
      * rewrite Forall_forall in Hinner_b. by apply Hinner_b in Hin'.
      * apply list_elem_of_singleton in Hin'. by destruct Hev as [-> | ->].
Qed.

(** X4: in a state of a run, the scan of [_advance_headword] with step 1
    or -1 returns.  If some headword in that direction has a positive count
    (recorded, or the provider's when none is recorded), it reports success
    with the cursor on the first entry of the nearest one, whose count is
    then recorded; otherwise it reports failure.  The count of a word is the
    same before and after. *)
Theorem scan_stops_at_nearest_headword_with_entries (st : State) (step : Z) :
  step = 1 ∨ step = -1 →
  reachable _headwords look_up history_writable st →
  let h := headword_index (_data st) in
  let counts := headword_entry_count (_data st) in
  ∃ moved st',
    _advance_headword _headwords look_up step st = Returned moved st' ∧
    (∀ word, usable_count look_up (headword_entry_count (_data st')) word =
             usable_count look_up counts word) ∧
    if moved then
      let h' := headword_index (_data st') in
      0 <= h' < len_headwords _headwords ∧ 0 < step * (h' - h) ∧
      entry_index (_data st') = 0 ∧
      (∃ word, py_getitem _headwords h' = Some word ∧
               0 < usable_count look_up counts word ∧
               headword_entry_count (_data st') !! word =
               Some (usable_count look_up counts word)) ∧
      (∀ i word, 0 < step * (i - h) < step * (h' - h) →
                 py_getitem _headwords i = Some word →
                 usable_count look_up counts word <= 0)
    else
      ∀ i word, 0 <= i < len_headwords _headwords → 0 < step * (i - h) →
                py_getitem _headwords i = Some word →
                usable_count look_up counts word <= 0.
Proof.
  intros Hstep [Hd Hc _]%reachable_ok h counts. subst counts.
  pose proof (index_in_range _ _ _ Hd) as Hrange. fold h in Hrange.
  destruct (advance_spec step st Hstep) as (moved & st' & Hadv & Hinner & Hfacts).
  pose proof (inner_step_extend _ _ Hinner Hc) as Hext.
  exists moved, st'. split; [done|].
  split; [intros word; by apply counts_extend_usable|].
  assert (∀ i word, nonpositive_at _headwords (headword_entry_count (_data st')) i →
                    py_getitem _headwords i = Some word →
                    usable_count look_up (headword_entry_count (_data st)) word <= 0) as Hnon.
  { intros i word (w & c & Hw & Hcw & Hle) Hword. assert (w = word) as -> by congruence.
    rewrite <- (counts_extend_usable _ _ word Hext). unfold usable_count. by rewrite Hcw. }
  fold h in Hfacts. destruct moved.
  - destruct Hfacts as (Hr & Hlt & He & (w & c & Hw & Hcw & Hpos) & Hbetween).
    split; [done|]. split; [done|]. split; [done|]. split.
    + exists w. split; [done|].
      rewrite <- (counts_extend_usable _ _ w Hext). unfold usable_count. rewrite Hcw.
      by split.
    + intros i word Hi. apply Hnon. by apply Hbetween.
  - intros i word Hi Hdir. apply Hnon.
    destruct Hfacts as [[Hout _] | (_ & _ & _ & Hahead)]; [|by apply Hahead].
    exfalso. unfold len_headwords in *. destruct Hstep as [-> | ->]; lia.
Qed.

(** X5: in a state of a run, [current_term] either returns the term the
    provider has for the headword under the cursor as it is on return, or
    stops the process.  It returns with the record untouched when the
    provider has a term for the headword under the cursor; when it has
    none, it returns from the first entry of the nearest later headword
    with a positive count; it stops the process only when the provider has
    no term for the headword under the cursor and no later headword has a
    positive count (recorded, or the provider's when none is recorded). *)
Theorem current_term_returns_term_under_cursor (st : State) :
  reachable _headwords look_up history_writable st →
  let h := headword_index (_data st) in
  let counts := headword_entry_count (_data st) in
  (∃ term st' word,
     current_term _headwords look_up st = Returned term st' ∧
     py_getitem _headwords (headword_index (_data st')) = Some word ∧
     look_up word = LookupTerm term ∧
     ((_data st' = _data st) ∨
      (h < headword_index (_data st') < len_headwords _headwords ∧
       entry_index (_data st') = 0 ∧
       0 < usable_count look_up counts word ∧
       (∃ word0, py_getitem _headwords h = Some word0 ∧ term_of look_up word0 = None) ∧
       ∀ i word', h < i < headword_index (_data st') →
                  py_getitem _headwords i = Some word' →
                  usable_count look_up counts word' <= 0))) ∨
  (∃ st' word0,
     current_term _headwords look_up st = SysExit st' ∧
     py_getitem _headwords h = Some word0 ∧ term_of look_up word0 = None ∧
     ∀ i word', h < i < len_headwords _headwords →
                py_getitem _headwords i = Some word' →
                usable_count look_up counts word' <= 0).
Proof.
  intros [Hd Hc _]%reachable_ok h counts. subst counts.
  pose proof (index_in_range _ _ _ Hd) as Hrange. fold h in Hrange.
  pose proof (counts_sound _ _ _ Hd) as Hn.
  assert (∀ st', inner_step look_up st st' →
            ∀ i word, nonpositive_at _headwords (headword_entry_count (_data st')) i →
                      py_getitem _headwords i = Some word →
                      usable_count look_up (headword_entry_count (_data st)) word <= 0) as Hnon.
  { intros st' Hinner i word (w & c & Hw & Hcw & Hle) Hword.
    assert (w = word) as -> by congruence.
    rewrite <- (counts_extend_usable _ _ word (inner_step_extend _ _ Hinner Hc)).
    unfold usable_count. by rewrite Hcw. }
  destruct (current_term_spec st)
    as [(term & st' & Hct & Hinner & Hterm & Hcases) | (st' & Hct & Hinner & Hexit)].
  - left. destruct (Hterm Hc) as (word & Hword & Hterm').
    exists term, st', word. split; [done|]. split; [done|]. split.
    { unfold term_of in Hterm'. by destruct (look_up word); simplify_eq. }
    destruct Hcases as [Hsame | (Hlt & Hr & He & (w & c & Hw & Hcw & Hpos) & Hskip)]; [by left|].
    right. fold h in Hlt. destruct (Hskip (conj Hc Hn)) as [Hnone Hbetween].
    split; [lia|]. split; [done|]. split; [|split; [done|]].
    + assert (w = word) as -> by congruence.
      rewrite <- (counts_extend_usable _ _ word (inner_step_extend _ _ Hinner Hc)).
      unfold usable_count. by rewrite Hcw.
    + intros i word' Hi. apply (Hnon st' Hinner). by apply Hbetween.
  - right. destruct (Hexit (conj Hc Hn) Hrange) as [(word0 & Hword0 & Hnone) Hahead].
    exists st', word0. split; [done|]. split; [done|]. split; [done|].
    intros i word' Hi. apply (Hnon st' Hinner). by apply Hahead.
Qed.

(** ** Starting and restarting *)

Lemma entries_of_nonneg word : 0 <= entries_of look_up word.
Proof. unfold entries_of. destruct (term_of look_up word); lia. Qed.

Lemma has_entries_exact st :
  cache_ok look_up (_lookup_cache st) →
  ∃ st',
    _has_entries_for_current_word _headwords look_up st =
    Returned (match py_getitem _headwords (headword_index (_data st)) with
              | Some word => 0 <? entries_of look_up word
              | None => false
              end) st' ∧
    _data st' = _data st ∧ inner_step look_up st st'.
Proof.
  intros Hc. unfold _has_entries_for_current_word. unfold bind at 1, get at 1.
  destruct (py_getitem _headwords (headword_index (_data st))) as [word|] eqn:Hw.
  2:{ exists st. split; [done|]. split; [done|reflexivity]. }
  destruct (get_term_spec ForTerm word st) as (r & st1 & evs & Hget & Hd1 & _ & _ & _ & Hok1).
  unfold bind. rewrite Hget.
  assert (inner_step look_up st st1) as Hstep by (by eapply get_term_inner_step).
  destruct (Hok1 Hc) as [-> _]. unfold entries_of.
  exists st1. by destruct (term_of look_up word).
Qed.

(** The loop of [__init__], with a sound cache and sound counts: it leaves
    the record as it is when the provider has entries for the headword
    under the cursor; otherwise it goes to the nearest later headword with
    a positive count, or stops the process when there is none. *)
Lemma ensure_entries_exact fuel st :
  cache_ok look_up (_lookup_cache st) →
  counts_ok look_up (headword_entry_count (_data st)) →
  0 <= headword_index (_data st) →
  let h := headword_index (_data st) in
  let here := match py_getitem _headwords h with
              | Some word => 0 <? entries_of look_up word
              | None => false
              end in
  ∃ st',
    inner_step look_up st st' ∧
    if here then
      ensure_entries_loop _headwords look_up (S (S fuel)) st = Returned tt st' ∧
      _data st' = _data st
    else
      (ensure_entries_loop _headwords look_up (S (S fuel)) st = Returned tt st' ∧
       h < headword_index (_data st') < len_headwords _headwords ∧
       entry_index (_data st') = 0 ∧
       positive_at _headwords (headword_entry_count (_data st')) (headword_index (_data st')) ∧
       ∀ i, h < i < headword_index (_data st') →
            nonpositive_at _headwords (headword_entry_count (_data st')) i) ∨
      (ensure_entries_loop _headwords look_up (S (S fuel)) st =
       SysExit (add_event (Log ERROR NoHeadwordsWithEntriesFound) st') ∧
       ∀ i, h < i < len_headwords _headwords →
            nonpositive_at _headwords (headword_entry_count (_data st')) i).
Proof.
  intros Hc Hn Hh h here.
  remember (ensure_entries_loop _headwords look_up (S (S fuel)) st) as out eqn:Hout.
  cbn [ensure_entries_loop] in Hout.
  destruct (has_entries_exact st Hc) as (st1 & Hhas & Hd1 & Hstep1).
  unfold bind at 1 in Hout. rewrite Hhas in Hout. fold h in Hout. fold here in Hout.
  destruct (inner_step_ok _ _ Hstep1 Hc Hn) as (Hc1 & Hn1 & _ & _).
  destruct here.
  { exists st1. split; [done|]. by split. }
  destruct (advance_spec 1 st1 (or_introl eq_refl)) as (b & st2 & Hadv & Hstep2 & Hfacts).
  unfold bind at 1, _go_to_next_headword in Hout. rewrite Hadv in Hout.
  rewrite Hd1 in Hfacts. fold h in Hfacts.
  destruct (inner_step_ok _ _ Hstep2 Hc1 Hn1) as (Hc2 & Hn2 & _ & _).
  destruct b; cbn beta iota in Hfacts.
  - destruct Hfacts as (Hr2 & Hlt2 & He2 & Hp2 & Hbetween).
    destruct (positive_at_term _ _ Hn2 Hp2) as (w2 & t2 & Hw2 & Ht2 & _ & Hne2).
    destruct (has_entries_exact st2 Hc2) as (st3 & Hhas3 & Hd3 & Hstep3).
    rewrite Hw2 in Hhas3.
    replace (0 <? entries_of look_up w2) with true in Hhas3.
    2:{ unfold entries_of. rewrite Ht2. symmetry. apply Z.ltb_lt.
        destruct (entries t2); [done|]. rewrite length_cons. lia. }
    unfold bind at 1 in Hout. rewrite Hhas3 in Hout.
    exists st3. split; [by etransitivity; [|etransitivity]|]. left.
    rewrite Hd3. split; [done|]. split; [lia|]. split; [done|]. split; [done|].
    intros i Hi. apply Hbetween. lia.
  - exists st2. split; [by etransitivity|]. right. split; [by rewrite Hout|].
    intros i Hi.
    destruct Hfacts as [[Hout' _] | (_ & _ & _ & Hahead)]; [lia|]. apply Hahead; lia.
Qed.

(** X6: a start without a history file returns exactly when some headword
    has entries with the provider: it then leaves the cursor on the first
    entry of the first such headword of the list; when no headword has
    entries it stops the process after logging that none was found. *)
Theorem fresh_start_lands_on_first_headword_with_entries :
  (∃ st word,
     __init__ _headwords look_up FileMissing = Returned tt st ∧
     py_getitem _headwords (headword_index (_data st)) = Some word ∧
     0 <= headword_index (_data st) ∧
     0 < entries_of look_up word ∧
     entry_index (_data st) = 0 ∧
     ∀ i word', 0 <= i < headword_index (_data st) →
                py_getitem _headwords i = Some word' → entries_of look_up word' = 0) ∨
  (∃ st,
     __init__ _headwords look_up FileMissing = SysExit st ∧
     Log ERROR NoHeadwordsWithEntriesFound ∈ trace st ∧
     ∀ i word', 0 <= i < len_headwords _headwords →
                py_getitem _headwords i = Some word' → entries_of look_up word' = 0).
Proof.
  unfold __init__, bind at 1, _load_history, bind at 1, get at 1.
  cbn [history new_State]. unfold ret. cbn beta iota.
  set (st0 := {| _data := _StateData_default; _lookup_cache := ∅;
                 history := FileMissing; trace := [] |}).
  destruct (ensure_entries_exact (length _headwords) st0 cache_ok_empty counts_ok_empty)
    as (st' & Hinner & Hcases); [done|].
  pose proof (inner_step_extend _ _ Hinner cache_ok_empty) as Hext.
  unfold st0 in Hext. simpl in Hext.
  assert (∀ i word', nonpositive_at _headwords (headword_entry_count (_data st')) i →
                     py_getitem _headwords i = Some word' → entries_of look_up word' = 0) as Hnon.
  { intros i word' (w & c & Hw & Hcw & Hle) Hword. assert (w = word') as -> by congruence.
    pose proof (counts_extend_usable _ _ word' Hext) as Hu.
    unfold usable_count in Hu. rewrite Hcw, lookup_empty in Hu.
    pose proof (entries_of_nonneg word'). lia. }
  simpl in Hcases.
  destruct (py_getitem _headwords 0) as [word0|] eqn:Hword0.
  2:{ right. destruct Hcases as [(Hloop & Hlt & _) | (Hloop & Hahead)].
      - exfalso. unfold py_getitem in Hword0. simpl in Hword0.
        apply lookup_ge_None in Hword0. unfold len_headwords in Hlt. lia.
      - eexists. split; [exact Hloop|]. split; [simpl; set_solver|].
        intros i word' Hi Hword'. destruct (decide (i = 0)) as [-> | Hne]; [congruence|].
        apply (Hnon i); [|done]. apply Hahead. lia. }
  destruct (0 <? entries_of look_up word0) eqn:Hhere.
  { left. destruct Hcases as [Hloop Hsame]. exists st', word0.
    rewrite Hsame. simpl. split; [done|]. split; [done|]. split; [done|].
    split; [lia|]. split; [done|]. intros i word' Hi. lia. }
  assert (entries_of look_up word0 = 0) as Hzero.
  { pose proof (entries_of_nonneg word0). lia. }
  destruct Hcases as [(Hloop & Hlt & He & (w & c & Hw & Hcw & Hpos) & Hbetween) | (Hloop & Hahead)].
  - left. exists st', w. split; [done|]. split; [done|]. split; [lia|]. split.
    { pose proof (counts_extend_usable _ _ w Hext) as Hu.
      unfold usable_count in Hu. rewrite Hcw, lookup_empty in Hu. lia. }
    split; [done|]. intros i word' Hi Hword'.
    destruct (decide (i = 0)) as [-> | Hne]; [congruence|].
    apply (Hnon i); [|done]. apply Hbetween. lia.
  - right. eexists. split; [exact Hloop|]. split; [simpl; set_solver|].
    intros i word' Hi Hword'. destruct (decide (i = 0)) as [-> | Hne]; [congruence|].
    apply (Hnon i); [|done]. apply Hahead. lia.
Qed.

Lemma commit_entry_saved st st' :
  commit_entry _headwords look_up history_writable st = Returned tt st' →
  ∃ st_m, st' = after_save history_writable st_m.
Proof.
  intros Hcommit.
  destruct (commit_entry_cases st) as [(st1 & _ & Hx) | (term & st_b & _ & Hrest)];
    [congruence|].
  simpl in Hrest. destruct (_ <=? _).
  - destruct Hrest as (moved & st_d & _ & Heq). rewrite Heq in Hcommit.
    injection Hcommit as <-. by eexists.
  - rewrite Hrest in Hcommit. injection Hcommit as <-. by eexists.
Qed.

(** X7: when the history file is writable, what [commit_entry] leaves in
    it is the whole record: a new object started on that file, with the
    same headword list and a provider that has entries for the headword
    under the saved cursor, comes out of [__init__] with exactly the record
    the [commit_entry] left (same cursor, same counts). *)
Theorem restart_resumes_where_commit_saved (st st' : State) :
  history_writable = true →
  reachable _headwords look_up history_writable st →
  commit_entry _headwords look_up history_writable st = Returned tt st' →
  (∃ word, py_getitem _headwords (headword_index (_data st')) = Some word ∧
           0 < entries_of look_up word) →
  history st' = FileJson (to_json (_data st')) ∧
  ∃ st'',
    __init__ _headwords look_up (history st') = Returned tt st'' ∧
    _data st'' = _data st'.
Proof.
  intros Hwritable Hreach Hcommit (word & Hword & Hentries).
  assert (state_ok _headwords look_up st') as [Hd _ _].
  { apply reachable_ok. by apply (reachable_operation _ _ _ CommitEntry st). }
  destruct (commit_entry_saved st st' Hcommit) as (st_m & ->).
  assert (history (after_save history_writable st_m) =
          FileJson (to_json (_data (after_save history_writable st_m)))) as Hfile.
  { rewrite after_save_data. unfold after_save. by rewrite Hwritable. }
  split; [done|]. rewrite Hfile.
  unfold __init__, bind at 1, _load_history, bind at 1, get at 1.
  cbn [history new_State]. cbn beta iota.
  rewrite from_json_to_json. unfold modify. cbn beta iota.
  set (d := _data (after_save history_writable st_m)) in *.
  set (st0 := set_data d _).
  destruct (ensure_entries_exact (length _headwords) st0)
    as (st'' & _ & Hcases);
    [apply cache_ok_empty | apply (counts_sound _ _ _ Hd) | apply (index_in_range _ _ _ Hd) |].
  simpl in Hcases. rewrite Hword in Hcases.
  replace (0 <? entries_of look_up word) with true in Hcases by lia.
  destruct Hcases as [Hloop Hsame]. by exists st''.
Qed.

(** X8: when a start without a history file leaves the cursor on the first
    headword of the list, no count is recorded for that headword, however
    many entries the provider has for it; the first [commit_entry] then
    logs that no entry count was found, records the count 0 for it, and
    goes on to a later headword or reports the end of the list: it does not
    stay on the first headword (provider answering with terms for the word
    asked). *)
Theorem first_commit_after_fresh_start_leaves_first_headword (st : State) :
  look_up_answers_the_query look_up →
  __init__ _headwords look_up FileMissing = Returned tt st →
  headword_index (_data st) = 0 →
  ∃ word st',
    py_getitem _headwords 0 = Some word ∧
    0 < entries_of look_up word ∧
    headword_entry_count (_data st) = ∅ ∧
    commit_entry _headwords look_up history_writable st = Returned tt st' ∧
    headword_entry_count (_data st') !! word = Some 0 ∧
    Log ERROR (NoEntryCountFoundForWord word) ∈ events_since st st' ∧
    (0 < headword_index (_data st') ∨
     Log INFO ReachedTheEndOfTheVocabularyList ∈ events_since st st').
Proof.
  intros Hfaithful Hinit Hh.
  assert (_data st = _StateData_default ∧ cache_ok look_up (_lookup_cache st) ∧
          ∃ word, py_getitem _headwords 0 = Some word ∧ 0 < entries_of look_up word)
    as (Hdata & Hc & word & Hword & Hentries).
  { set (st0 := {| _data := _StateData_default; _lookup_cache := ∅;
                   history := FileMissing; trace := [] |}).
    assert (__init__ _headwords look_up FileMissing =
            ensure_entries_loop _headwords look_up (S (S (length _headwords))) st0) as Heq
      by reflexivity.
    rewrite Heq in Hinit. clear Heq. rename Hinit into Hloop.
    destruct (ensure_entries_exact (length _headwords) st0 cache_ok_empty counts_ok_empty)
      as (st' & Hinner & Hcases); [done|].
    simpl in Hcases.
    assert (∀ o, ensure_entries_loop _headwords look_up (S (S (length _headwords))) st0 = o →
                 o = Returned tt st) as Hsame_out.
    { intros o <-. done. }
    destruct (py_getitem _headwords 0) as [word0|] eqn:Hword0.
    2:{ destruct Hcases as [(Hloop' & Hlt & _) | (Hloop' & _)];
          apply Hsame_out in Hloop'; [|done]. injection Hloop' as ->. lia. }
    destruct (0 <? entries_of look_up word0) eqn:Hhere.
    - destruct Hcases as [Hloop' Hsame]. apply Hsame_out in Hloop'. injection Hloop' as ->.
      split; [done|]. split; [by apply Hinner; apply cache_ok_empty|].
      exists word0. split; [done|lia].
    - destruct Hcases as [(Hloop' & Hlt & _) | (Hloop' & _)];
        apply Hsame_out in Hloop'; [|done]. injection Hloop' as ->. lia. }
  exists word.
  assert (∃ tm, term_of look_up word = Some tm ∧ headword tm = word) as (tm & Hterm & Hhead).
  { unfold entries_of in Hentries. destruct (term_of look_up word) as [tm|] eqn:Hterm; [|lia].
    exists tm. split; [done|]. apply Hfaithful. unfold term_of in Hterm.
    by destruct (look_up word); simplify_eq. }
  set (st_a := set_data (set_entry_index (entry_index (_data st) + 1) (_data st)) st).
  destruct (current_term_here st_a word tm) as (st_b & Hct' & Hd_b & Hstep_b);
    [done | by simpl; rewrite Hdata | done |].
  destruct (commit_entry_cases st) as [(st' & Hct & _) | (term' & st_b' & Hct & Hrest)];
    fold st_a in Hct; rewrite Hct in Hct'; [done|].
  injection Hct' as -> ->. simpl in Hd_b, Hrest.
  destruct Hstep_b as (_ & _ & _ & _ & evs_b & Ht_b & _). simpl in Ht_b.
  assert (headword_entry_count (_data st_b) !! word = None) as Hnone.
  { rewrite Hd_b, Hdata. simpl. apply lookup_empty. }
  rewrite Hhead, Hnone, Hd_b, Hdata in Hrest. simpl in Hrest.
  destruct Hrest as (moved & st_d & Hnext & Heq).
  eexists. split; [done|]. split; [done|]. split; [by rewrite Hdata|]. split; [exact Heq|].
  apply (scan_returned 1) in Hnext as (Hstep_d & Hfacts); [|by left].
  pose proof Hstep_d as (_ & _ & Hk_d & _ & evs_d & Ht_d & _).
  set (st_c := after_count_check tm st_b) in *.
  assert (headword_entry_count (_data st_c) !! word = Some 0 ∧
          trace st_c = trace st_b ++ [Log ERROR (NoEntryCountFoundForWord word)] ∧
          headword_index (_data st_c) = 0) as (Hzero & Ht_c & Hh_c).
  { unfold st_c, after_count_check. rewrite Hhead, Hnone. simpl.
    rewrite lookup_insert_eq, Hd_b, Hdata. done. }
  rewrite after_save_data.
  assert (∀ tail, trace st_d ++ tail =
            trace st ++ (evs_b ++ [Log ERROR (NoEntryCountFoundForWord word)] ++ evs_d ++ tail))
    as Htrace.
  { intros tail. rewrite Ht_d, Ht_c, Ht_b, <- !app_assoc. done. }
  split; [destruct moved; simpl; by apply Hk_d|].
  destruct moved.
  - split.
    + destruct (after_save_trace st_d) as (ev & Ht' & _).
      unfold events_since. rewrite Ht', Htrace, drop_app_length. set_solver.
    + left. destruct Hfacts as (_ & Hlt). rewrite Hh_c in Hlt. lia.
  - destruct (after_save_trace
                (add_event (Log INFO ReachedTheEndOfTheVocabularyList) st_d)) as (ev & Ht' & _).
    simpl in Ht'. rewrite <- app_assoc, Htrace in Ht'.
    split; [|right]; unfold events_since; rewrite Ht', drop_app_length; set_solver.
Qed.

(** ** The lookup cache *)

#[local] Instance lookups_not_repeated_refl : Reflexive (lookups_not_repeated look_up).
Proof.
  intros st. split; [done|]. exists []. rewrite app_nil_r. split; [done|].
  intros evs1 evs2 why word Heq. by destruct evs1.
Qed.

#[local] Instance lookups_not_repeated_trans : Transitive (lookups_not_repeated look_up).
Proof.
  intros st1 st2 st3 [Hm1 (evsA & HtA & HA)] [Hm2 (evsB & HtB & HB)].
  split; [by eauto|]. exists (evsA ++ evsB). split; [by rewrite HtB, HtA, app_assoc|].
  assert (∀ word, _lookup_cache st2 !! word = None → _lookup_cache st1 !! word = None) as Hback.
  { intros word Hnone. destruct (_lookup_cache st1 !! word) as [t|] eqn:E; [|done].
    apply Hm1 in E. congruence. }
  intros evs1 evs2 why word Heq.
  apply List.app_eq_app in Heq as (l & [[HeqA HeqB] | [Heq1 HeqB]]).
  - destruct l as [|x l].
    + simpl in HeqB. destruct (HB [] evs2 why word) as [Hnone Hterm]; [done|].
      split; [by apply Hback|done].
    + simpl in HeqB. injection HeqB as <- ->.
      destruct (HA evs1 l why word HeqA) as [Hnone Hterm]. split; [done|].
      intros term Hlook. destruct (Hterm term Hlook) as [Hcached Hnot].
      split; [by apply Hm2|]. intros why' [Hin|Hin]%elem_of_app; [by eapply Hnot|].
      apply list_elem_of_split in Hin as (a & b & ->).
      destruct (HB a b why' word eq_refl) as [Hnone' _]. congruence.
  - destruct (HB l evs2 why word HeqB) as [Hnone Hterm]. split; [by apply Hback|done].
Qed.

Lemma lookups_same_cache st st' evs :
  _lookup_cache st' = _lookup_cache st →
  trace st' = trace st ++ evs →
  (∀ why word, LookUp why word ∉ evs) →
  lookups_not_repeated look_up st st'.
Proof.
  intros Hc Ht Hno. split; [by rewrite Hc|]. exists evs. split; [done|].
  intros evs1 evs2 why word ->. exfalso. apply (Hno why word). set_solver.
Qed.

Lemma lookups_modify_data f :
  preserves (lookups_not_repeated look_up) (modify_data f).
Proof.
  intros st st' [= <-]. apply (lookups_same_cache _ _ []); [done|simpl; by rewrite app_nil_r|].
  intros why word. set_solver.
Qed.

Lemma lookups_logging l m :
  preserves (lookups_not_repeated look_up) (logging l m).
Proof.
  intros st st' [= <-]. apply (lookups_same_cache _ _ [Log l m]); [done|done|].
  intros why word. set_solver.
Qed.

Lemma lookups_get {B} (k : State → M B) :
  (∀ st, preserves (lookups_not_repeated look_up) (k st)) →
  preserves (lookups_not_repeated look_up) (bind get k).
Proof. intros Hk st st'. unfold bind, get. apply Hk. Qed.

Lemma lookups_no_state {A} (m : M A) :
  (∀ st, outcome_state (m st) = None ∨ outcome_state (m st) = Some st) →
  preserves (lookups_not_repeated look_up) m.
Proof. intros Hm st st' Hout. destruct (Hm st) as [H|H]; rewrite H in Hout; by simplify_eq. Qed.

Lemma lookups_get_term why word :
  preserves (lookups_not_repeated look_up) (_get_term_for_headword look_up why word).
Proof.
  intros st st'. unfold _get_term_for_headword. munfold.
  destruct (_lookup_cache st !! word) as [term|] eqn:Hcache; simpl; [by intros [= <-]|].
  destruct (look_up word) as [| |term] eqn:Hlook; simpl; intros [= <-];
    (split; [first [done | intros w t Hw; simpl; rewrite lookup_insert_ne; [done|congruence]]|]).
  - exists [LookUp why word; Log ERROR (ErrorLookingUpWord word)]. simpl.
    split; [solve_trace|].
    intros [|x [|y evs1]] evs2 why0 word0 Heq; simpl in Heq; simplify_eq;
      try (by destruct evs1).
    split; [done|]. intros term Hterm. congruence.
  - exists [LookUp why word]. split; [done|].
    intros [|x evs1] evs2 why0 word0 Heq; simpl in Heq; simplify_eq;
      try (by destruct evs1).
    split; [done|]. intros term Hterm. congruence.
  - exists [LookUp why word]. split; [done|].
    intros [|x evs1] evs2 why0 word0 Heq; simpl in Heq; simplify_eq;
      try (by destruct evs1).
    split; [done|]. intros term0 Hterm. simpl. rewrite lookup_insert_eq.
    split; [congruence|]. intros why'. set_solver.
Qed.

Ltac lookups_step :=
  lazymatch goal with
  | |- preserves _ (ret _) => apply preserves_ret; apply _
  | |- preserves _ (modify_data _) => apply lookups_modify_data
  | |- preserves _ (logging _ _) => apply lookups_logging
  | |- preserves _ sys_exit => apply lookups_no_state; intros ?; by right
  | |- preserves _ _exit_with_error => apply lookups_no_state; intros ?; by right
  | |- preserves _ (raise _) => apply lookups_no_state; intros ?; by right
  | |- preserves _ out_of_fuel => apply lookups_no_state; intros ?; by left
  | |- preserves _ (_get_term_for_headword _ _ _) => apply lookups_get_term
  | |- preserves _ (bind get _) => apply lookups_get; intros ?
  | |- preserves _ (bind _ _) => apply preserves_bind; [apply _| |intros ?]
  | |- preserves _ (match ?x with _ => _ end) => destruct x eqn:?
  end.

Lemma lookups_has_entries :
  preserves (lookups_not_repeated look_up) (_has_entries_for_current_word _headwords look_up).
Proof. unfold _has_entries_for_current_word. repeat lookups_step. Qed.

Lemma lookups_set_headword_index index :
  preserves (lookups_not_repeated look_up) (_set_headword_index _headwords look_up index).
Proof. unfold _set_headword_index. repeat lookups_step. Qed.

Lemma lookups_advance_loop fuel step :
  preserves (lookups_not_repeated look_up)
            (_advance_headword_loop _headwords look_up fuel step).
Proof.
  induction fuel as [|fuel IH]; cbn [_advance_headword_loop].
  - lookups_step.
  - repeat first [apply IH | apply lookups_set_headword_index | lookups_step].
Qed.

Lemma lookups_current_term_rec fuel :
  preserves (lookups_not_repeated look_up) (current_term_rec _headwords look_up fuel).
Proof.
  induction fuel as [|fuel IH]; cbn [current_term_rec].
  - lookups_step.
  - repeat first [apply IH | apply lookups_advance_loop | lookups_step].
Qed.

Lemma lookups_save :
  preserves (lookups_not_repeated look_up) (_save_history history_writable).
Proof.
  intros st st'. rewrite save_history_eq. intros [= <-].
  destruct (after_save_trace st) as (ev & Ht & Hev).
  apply (lookups_same_cache _ _ [ev]); [apply after_save_cache|done|].
  intros why word. destruct Hev as [-> | ->]; set_solver.
Qed.

Lemma lookups_run_operation op :
  preserves (lookups_not_repeated look_up)
            (run_operation _headwords look_up history_writable op).
Proof.
  destruct op; simpl; [| | unfold commit_entry | unfold undo | apply lookups_save];
    repeat first [apply lookups_current_term_rec | apply lookups_advance_loop
                  | apply lookups_save | lookups_step].
  unfold current_entry.
  repeat first [apply lookups_current_term_rec | lookups_step].
Qed.

Lemma lookups_run_operations ops :
  preserves (lookups_not_repeated look_up)
            (run_operations _headwords look_up history_writable ops).
Proof.
  induction ops as [|op ops IH]; simpl.
  - apply preserves_ret; apply _.
  - apply preserves_bind; [apply _|apply lookups_run_operation|done].
Qed.

Lemma lookups_ensure_entries_loop fuel :
  preserves (lookups_not_repeated look_up) (ensure_entries_loop _headwords look_up fuel).
Proof.
  induction fuel as [|fuel IH]; cbn [ensure_entries_loop].
  - lookups_step.
  - repeat first [apply IH | apply lookups_has_entries | apply lookups_advance_loop
                  | lookups_step].
Qed.

Lemma lookups_load_history :
  preserves (lookups_not_repeated look_up) _load_history.
Proof.
  unfold _load_history. repeat lookups_step.
  all: try (apply lookups_no_state; intros ?; by right).
  intros s s' [= <-].
  apply (lookups_same_cache _ _ []); [done|simpl; by rewrite app_nil_r|].
  intros why word. set_solver.
Qed.

(** X10: in a session, from [__init__] on whatever history file through
    any sequence of operations, the provider is asked at most once for a
    word it has a term for: after a lookup of such a word the trace holds
    no further lookup of it, for either purpose, and the term is in the
    lookup cache. *)
Theorem known_word_is_looked_up_once
    (file : history_file) (ops : list operation) (st0 st' : State)
    (evs1 evs2 : list event) (why : purpose) (word : string) (term : DictionaryTerm) :
  __init__ _headwords look_up file = Returned tt st0 →
  outcome_state (run_operations _headwords look_up history_writable ops st0) = Some st' →
  trace st' = evs1 ++ LookUp why word :: evs2 →
  look_up word = LookupTerm term →
  _lookup_cache st' !! word = Some term ∧ ∀ why', LookUp why' word ∉ evs2.
Proof.
  intros Hinit Hops Htrace Hlook.
  assert (lookups_not_repeated look_up (new_State file) st') as [_ (evs & Ht & Hevs)].
  { etransitivity; [|by apply (lookups_run_operations ops st0)].
    assert (preserves (lookups_not_repeated look_up)
              (_load_history ;; ensure_entries_loop _headwords look_up
                                  (S (S (length _headwords))))) as Hp.
    { apply preserves_bind; [apply _|apply lookups_load_history|].
      intros _. apply lookups_ensure_entries_loop. }
    apply Hp. fold (__init__ _headwords look_up file). by rewrite Hinit. }
  simpl in Ht. rewrite Ht in Htrace.
  destruct (Hevs evs1 evs2 why word Htrace) as [_ Hterm]. by apply Hterm.
Qed.

(** ** [commit_entry] followed by [undo] *)

(** X11: in a state of a run whose provider answers with terms for the
    word it was asked, with the cursor on an entry of a headword with a
    recorded count, [commit_entry] followed by [undo] returns and puts the
    cursor back where it was, whether the commit stayed on the headword,
    went on to a later one or ran into the end of the list; the recorded
    counts are kept. *)
Theorem undo_after_commit_restores_cursor (st : State) :
  look_up_answers_the_query look_up →
  reachable _headwords look_up history_writable st →
  cursor_in_bounds _headwords st →
  ∃ st1 st2,
    commit_entry _headwords look_up history_writable st = Returned tt st1 ∧
    undo _headwords look_up history_writable st1 = Returned tt st2 ∧
    cursor st2 = cursor st ∧
    ∀ word c, headword_entry_count (_data st) !! word = Some c →
              headword_entry_count (_data st2) !! word = Some c.
Proof.
  intros Hfaithful Hok%reachable_ok (word & c & Hword & Hcount & Hpos & Hin).
  pose proof Hok as [Hd Hc _].
  destruct (positive_at_term _ (headword_index (_data st)) (counts_sound _ _ _ Hd))
    as (w & tm & Hw & Hterm & Hlen & _); [exists word, c; repeat split; try done; lia|].
  assert (w = word) as -> by congruence.
  assert (headword tm = word) as Hhead.
  { apply Hfaithful. unfold term_of in Hterm. by destruct (look_up word); simplify_eq. }
  set (st_a := set_data (set_entry_index (entry_index (_data st) + 1) (_data st)) st).
  destruct (current_term_here st_a word tm) as (st_b & Hct' & Hd_b & Hstep_b); [done..|].
  destruct (commit_entry_cases st) as [(st' & Hct & _) | (term' & st_b' & Hct & Hrest)];
    fold st_a in Hct; rewrite Hct in Hct'; [done|].
  injection Hct' as -> ->. simpl in Hd_b, Hrest.
  assert (after_count_check tm st_b = st_b) as Hcheck.
  { unfold after_count_check. rewrite Hhead, Hd_b. simpl. by rewrite Hcount. }
  rewrite Hcheck, Hhead, Hd_b in Hrest. simpl in Hrest. rewrite Hcount in Hrest. simpl in Hrest.
  assert (∃ st1, commit_entry _headwords look_up history_writable st = Returned tt st1 ∧
                 (_data st1 = set_entry_index (entry_index (_data st) + 1) (_data st) ∨
                  (headword_index (_data st) < headword_index (_data st1) ∧
                   entry_index (_data st1) = 0 ∧ entry_index (_data st) = c - 1 ∧
                   headword_entry_count (_data st1) !! word = Some c ∧
                   (∀ w' c', headword_entry_count (_data st) !! w' = Some c' →
                             headword_entry_count (_data st1) !! w' = Some c') ∧
                   ∀ i, headword_index (_data st) < i < headword_index (_data st1) →
                        nonpositive_at _headwords (headword_entry_count (_data st1)) i)))
    as (st1 & Hcommit & Hafter).
  { destruct (c <=? entry_index (_data st) + 1) eqn:Hle.
    2:{ eexists. split; [exact Hrest|]. left. by rewrite after_save_data. }
    destruct Hrest as (moved & st_d & Hnext & Heq).
    eexists. split; [exact Heq|]. rewrite after_save_data.
    apply (scan_returned 1) in Hnext as (Hstep_d & Hfacts); [|by left].
    pose proof Hstep_d as (_ & _ & Hk_d & _).
    rewrite Hd_b in Hfacts, Hk_d. simpl in Hfacts, Hk_d.
    destruct moved.
    - right. destruct Hfacts as (_ & Hlt & He_d & _ & Hbetween).
      repeat split; try done; try lia; [by apply Hk_d|].
      intros i Hi. apply Hbetween. lia.
    - simpl. destruct Hfacts as [(_ & ->) | (Hrange & He_d & Hh_d & Hahead)].
      + left. done.
      + right. unfold len_headwords in *.
        repeat split; try done; try lia; [by apply Hk_d|].
        intros i Hi. apply Hahead; lia. }
  exists st1.
  assert (state_ok _headwords look_up st1) as Hok1 by by eapply commit_entry_ok.
  destruct (undo_result_ok st1 Hok1) as (st2 & Hundo & _ & Hk2 & Hcases).
  exists st2. split; [done|]. split; [done|]. simpl in Hcases.
  destruct Hafter as [Hd1 | (Hlt & He1 & He & Hc1 & Hk1 & Hbetween)].
  - rewrite Hd1 in Hcases, Hk2. simpl in Hcases, Hk2. split; [|done].
    destruct Hcases as [(_ & Hd2) | [(He' & _) | [(He' & _) | (He' & _)]]]; try lia.
    unfold cursor. rewrite Hd2. simpl. f_equal. lia.
  - split; [|by eauto].
    assert (positive_at _headwords (headword_entry_count (_data st2))
              (headword_index (_data st))) as Hhere.
    { exists word, c. eauto. }
    destruct Hcases as [(He' & _) | [(_ & _ & Hback) | [(_ & _ & Hfail) | (_ & Hh1 & _)]]].
    + lia.
    + destruct Hback as (w2 & tm2 & evs & ev & Hh2 & Hp2 & Hbetween2 & Hw2 & Hterm2 & He2 & _).
      assert (headword_index (_data st2) = headword_index (_data st)) as Hsame.
      { destruct (Z.lt_trichotomy (headword_index (_data st2)) (headword_index (_data st)))
          as [Hbefore | [Heq | Hafter]]; [|done|].
        - exfalso. eapply positive_not_nonpositive; [exact Hhere|]. apply Hbetween2. lia.
        - exfalso. eapply positive_not_nonpositive; [exact Hp2|].
          eapply keep_nonpositive; [exact Hk2|]. apply Hbetween. lia. }
      rewrite Hsame in Hw2. assert (w2 = word) as -> by congruence.
      assert (tm2 = tm) as -> by congruence.
      simpl in He2. rewrite Hhead, (Hk2 _ _ Hc1) in He2. simpl in He2.
      replace (0 <? c) with true in He2 by lia.
      unfold cursor. f_equal; lia.
    + exfalso. destruct Hfail as (_ & _ & Hbefore & _).
      eapply positive_not_nonpositive; [exact Hhere|]. apply Hbefore.
      pose proof (index_in_range _ _ _ Hd). lia.
    + pose proof (index_in_range _ _ _ Hd). lia.
Qed.

End Properties.

(** * What the traversal does not depend on *)

Section Independence.

Variable _headwords : list string.
Variable look_up : string → lookup_result.

Lemma same_behaviour_ret {A} (a : A) : same_behaviour (ret a) (ret a).
Proof. intros st1 st2 Hsame. by split. Qed.

Lemma same_behaviour_bind {A B} (m1 m2 : M A) (k1 k2 : A → M B) :
  same_behaviour m1 m2 → (∀ a, same_behaviour (k1 a) (k2 a)) →
  same_behaviour (bind m1 k1) (bind m2 k2).
Proof.
  intros Hm Hk st1 st2 Hsame. unfold bind. specialize (Hm st1 st2 Hsame).
  destruct (m1 st1), (m2 st2); simpl in Hm; try done.
  destruct Hm as [-> Hsame']. by apply Hk.
Qed.

Lemma same_behaviour_get {B} (k1 k2 : State → M B) :
  (∀ st1 st2, same_memory st1 st2 → same_behaviour (k1 st1) (k2 st2)) →
  same_behaviour (bind get k1) (bind get k2).
Proof. intros Hk st1 st2 Hsame. unfold bind, get. by apply Hk. Qed.

Lemma same_behaviour_modify_data f : same_behaviour (modify_data f) (modify_data f).
Proof. intros st1 st2 [Hd Hc]. simpl. rewrite Hd. done. Qed.

Lemma same_behaviour_modify_cache f :
  same_behaviour (modify (λ st, set_lookup_cache (f (_lookup_cache st)) st))
                 (modify (λ st, set_lookup_cache (f (_lookup_cache st)) st)).
Proof. intros st1 st2 [Hd Hc]. simpl. rewrite Hc. done. Qed.

Lemma same_behaviour_emit ev1 ev2 : same_behaviour (emit ev1) (emit ev2).
Proof. intros st1 st2 [Hd Hc]. done. Qed.

Lemma same_behaviour_logging l1 m1 l2 m2 :
  same_behaviour (logging l1 m1) (logging l2 m2).
Proof. apply same_behaviour_emit. Qed.

Lemma same_behaviour_sys_exit {A} : same_behaviour (@sys_exit A) sys_exit.
Proof. intros st1 st2 Hsame. done. Qed.

Lemma same_behaviour_raise {A} e : same_behaviour (@raise A e) (raise e).
Proof. intros st1 st2 Hsame. done. Qed.

Lemma same_behaviour_out_of_fuel {A} : same_behaviour (@out_of_fuel A) out_of_fuel.
Proof. intros st1 st2 Hsame. done. Qed.

Ltac same_step :=
  lazymatch goal with
  | |- same_behaviour (ret _) _ => apply same_behaviour_ret
  | |- same_behaviour (modify_data _) _ => apply same_behaviour_modify_data
  | |- same_behaviour (modify _) _ => apply same_behaviour_modify_cache
  | |- same_behaviour (logging _ _) _ => apply same_behaviour_logging
  | |- same_behaviour (emit _) _ => apply same_behaviour_emit
  | |- same_behaviour sys_exit _ => apply same_behaviour_sys_exit
  | |- same_behaviour _exit_with_error _ => apply same_behaviour_sys_exit
  | |- same_behaviour (raise _) _ => apply same_behaviour_raise
  | |- same_behaviour out_of_fuel _ => apply same_behaviour_out_of_fuel
  | |- same_behaviour (bind get _) _ =>
      apply same_behaviour_get;
      let Hd := fresh "Hd" in let Hc := fresh "Hc" in
      intros ? ? [Hd Hc]; rewrite ?Hd, ?Hc
  | |- same_behaviour (bind _ _) _ => apply same_behaviour_bind; [|intros ?]
  | |- same_behaviour (match ?x with _ => _ end) _ => destruct x eqn:?
  end.

Lemma same_behaviour_get_term why word :
  same_behaviour (_get_term_for_headword look_up why word)
                 (_get_term_for_headword look_up why word).
Proof. unfold _get_term_for_headword. repeat same_step. Qed.

Lemma same_behaviour_has_entries :
  same_behaviour (_has_entries_for_current_word _headwords look_up)
                 (_has_entries_for_current_word _headwords look_up).
Proof.
  unfold _has_entries_for_current_word.
  repeat first [apply same_behaviour_get_term | same_step].
Qed.

Lemma same_behaviour_set_headword_index index :
  same_behaviour (_set_headword_index _headwords look_up index)
                 (_set_headword_index _headwords look_up index).
Proof.
  unfold _set_headword_index.
  repeat first [apply same_behaviour_get_term | same_step].
Qed.

Lemma same_behaviour_advance_loop fuel step :
  same_behaviour (_advance_headword_loop _headwords look_up fuel step)
                 (_advance_headword_loop _headwords look_up fuel step).
Proof.
  induction fuel as [|fuel IH]; cbn [_advance_headword_loop].
  - same_step.
  - repeat first [apply IH | apply same_behaviour_set_headword_index | same_step].
Qed.

Lemma same_behaviour_current_term_rec fuel :
  same_behaviour (current_term_rec _headwords look_up fuel)
                 (current_term_rec _headwords look_up fuel).
Proof.
  induction fuel as [|fuel IH]; cbn [current_term_rec].
  - same_step.
  - repeat first [apply IH | apply same_behaviour_get_term
                  | apply same_behaviour_advance_loop | same_step].
Qed.

Lemma same_behaviour_current_entry :
  same_behaviour (current_entry _headwords look_up) (current_entry _headwords look_up).
Proof.
  unfold current_entry.
  repeat first [apply same_behaviour_current_term_rec | same_step].
Qed.

Lemma same_behaviour_save w1 w2 :
  same_behaviour (_save_history w1) (_save_history w2).
Proof.
  intros st1 st2 [Hd Hc]. unfold _save_history.
  destruct w1, w2; done.
Qed.

Lemma same_behaviour_commit_entry w1 w2 :
  same_behaviour (commit_entry _headwords look_up w1) (commit_entry _headwords look_up w2).
Proof.
  unfold commit_entry.
  repeat first [apply same_behaviour_current_term_rec | apply same_behaviour_save
                | apply same_behaviour_advance_loop | same_step].
Qed.

Lemma same_behaviour_undo w1 w2 :
  same_behaviour (undo _headwords look_up w1) (undo _headwords look_up w2).
Proof.
  unfold undo.
  repeat first [apply same_behaviour_current_term_rec | apply same_behaviour_save
                | apply same_behaviour_advance_loop | same_step].
Qed.

Lemma same_behaviour_run_operation w1 w2 op :
  same_behaviour (run_operation _headwords look_up w1 op)
                 (run_operation _headwords look_up w2 op).
Proof.
  destruct op; simpl.
  - repeat first [apply same_behaviour_current_term_rec | same_step].
  - repeat first [apply same_behaviour_current_entry | same_step].
  - apply same_behaviour_commit_entry.
  - apply same_behaviour_undo.
  - apply same_behaviour_save.
Qed.

(** X9: what a sequence of operations does to the record and to the lookup
    cache, how it ends and what it returns depend on the record and the
    cache it starts from only: not on what is on disk, not on what has
    been logged, and not on whether the writes of the history file
    succeed. *)
Theorem traversal_is_independent_of_saving
    (history_writable1 history_writable2 : bool) (ops : list operation) (st1 st2 : State) :
  same_memory st1 st2 →
  same_result (run_operations _headwords look_up history_writable1 ops st1)
              (run_operations _headwords look_up history_writable2 ops st2).
Proof.
  revert st1 st2. induction ops as [|op ops IH]; intros st1 st2 Hsame.
  - by split.
  - cbn [run_operations].
    apply same_behaviour_bind; [apply same_behaviour_run_operation | | done].
    intros _ st1' st2'. apply IH.
Qed.

End Independence.

(** * [look_up] of [mw_api.py] *)

Section MwApiProperties.

Variable _fetch_mw_data : string → option pyjson.
Variable float_is_true : string → bool.

Lemma match_lang_es {T} (j : pyjson) (A B : T) :
  (j = JStr "es" ∧ match j with JStr "es" => A | _ => B end = A) ∨
  match j with JStr "es" => A | _ => B end = B.
Proof.
  destruct j as [| | | |s| |]; try (right; reflexivity).
  repeat (match goal with
          | b : bool |- _ => destruct b; try (right; reflexivity)
          | a : ascii |- _ => destruct a
          | s : string |- _ => destruct s; try (right; reflexivity)
          end).
  by left.
Qed.

Lemma py_get_Some (d : gmap string pyjson) key dflt v :
  py_get d key dflt = v → v ≠ dflt → d !! key = Some v.
Proof. unfold py_get. destruct (d !! key); simpl; congruence. Qed.

Lemma check_entry_keep word entry :
  check_entry float_is_true word entry = CheckKeep →
  ∃ e meta hwi hw fl shortdef,
    entry = JDict e ∧
    e !! "meta" = Some (JDict meta) ∧ meta !! "lang" = Some (JStr "es") ∧
    py_get e "hwi" (JDict ∅) = JDict hwi ∧ py_get hwi "hw" (JStr "") = JStr hw ∧
    word = remove_stars hw ∧
    e !! "fl" = Some fl ∧ truthy float_is_true fl = true ∧
    e !! "shortdef" = Some shortdef ∧ truthy float_is_true shortdef = true.
Proof.
  unfold check_entry. destruct entry as [| | | | |l|e]; try done.
  destruct (py_get e "meta" (JDict ∅)) as [| | | | | |meta] eqn:Hmeta; try done.
  destruct (match_lang_es (py_get meta "lang" JNull)
              (match py_get e "hwi" (JDict ∅) with
               | JDict hwi =>
                   match py_get hwi "hw" (JStr "") with
                   | JStr hw =>
                       if bool_decide (word = remove_stars hw) then
                         if truthy float_is_true (py_get e "fl" JNull) &&
                            truthy float_is_true (py_get e "shortdef" JNull)
                         then CheckKeep else CheckSkip
                       else CheckSkip
                   | _ => CheckRaises
                   end
               | _ => CheckRaises
               end) CheckSkip) as [[Hlang ->] | ->]; [|done].
  destruct (py_get e "hwi" (JDict ∅)) as [| | | | | |hwi] eqn:Hhwi; try done.
  destruct (py_get hwi "hw" (JStr "")) as [| | | |hw| |] eqn:Hhw; try done.
  case_bool_decide as Hword; [|done].
  destruct (truthy float_is_true (py_get e "fl" JNull)) eqn:Hfl; [|done].
  destruct (truthy float_is_true (py_get e "shortdef" JNull)) eqn:Hsd; [|done].
  intros _.
  assert (meta !! "lang" = Some (JStr "es")) as Hlang' by by apply (py_get_Some _ _ JNull).
  assert (e !! "meta" = Some (JDict meta)) as Hmeta'.
  { apply (py_get_Some _ _ (JDict ∅)); [done|]. intros [= ->]. by rewrite lookup_empty in Hlang'. }
  assert (∀ key, truthy float_is_true (py_get e key JNull) = true →
                 ∃ v, e !! key = Some v ∧ truthy float_is_true v = true) as Hkey.
  { intros key. unfold py_get. destruct (e !! key); simpl; [by eauto|done]. }
  destruct (Hkey _ Hfl) as (fl & Hfl' & Hfl_true).
  destruct (Hkey _ Hsd) as (sd & Hsd' & Hsd_true).
  by exists e, meta, hwi, hw, fl, sd.
Qed.

Lemma matching_entries_filter word data kept :
  matching_entries float_is_true word data = Some kept →
  kept = List.filter (λ entry, match check_entry float_is_true word entry with
                               | CheckKeep => true
                               | _ => false
                               end) data ∧
  Forall (λ entry, check_entry float_is_true word entry ≠ CheckRaises) data.
Proof.
  revert kept. induction data as [|entry data IH]; intros kept; simpl.
  - by intros [= <-].
  - destruct (check_entry float_is_true word entry) eqn:Hcheck; [done| |].
    + intros [-> Hall]%IH. split; [done|]. constructor; [congruence|done].
    + destruct (matching_entries float_is_true word data) as [kept'|]; [|done].
      simpl. intros [= <-]. destruct (IH kept' eq_refl) as [-> Hall].
      split; [done|]. constructor; [congruence|done].
Qed.

(** The elements the loop keeps are those that meet its conditions, and
    only those. *)
Lemma check_entry_keep_iff word entry :
  check_entry float_is_true word entry = CheckKeep ↔
  ∃ e meta hwi hw fl shortdef,
    entry = JDict e ∧
    e !! "meta" = Some (JDict meta) ∧ meta !! "lang" = Some (JStr "es") ∧
    py_get e "hwi" (JDict ∅) = JDict hwi ∧ py_get hwi "hw" (JStr "") = JStr hw ∧
    word = remove_stars hw ∧
    e !! "fl" = Some fl ∧ truthy float_is_true fl = true ∧
    e !! "shortdef" = Some shortdef ∧ truthy float_is_true shortdef = true.
Proof.
  split; [apply check_entry_keep|].
  intros (e & meta & hwi & hw & fl & sd & -> & Hmeta & Hlang & Hhwi & Hhw & Hword &
          Hfl & Hfl_true & Hsd & Hsd_true).
  unfold check_entry.
  assert (py_get e "meta" (JDict ∅) = JDict meta) as -> by (unfold py_get; by rewrite Hmeta).
  assert (py_get meta "lang" JNull = JStr "es") as -> by (unfold py_get; by rewrite Hlang).
  cbv iota beta. rewrite Hhwi, Hhw.
  rewrite bool_decide_true by done.
  assert (py_get e "fl" JNull = fl) as -> by (unfold py_get; by rewrite Hfl).
  assert (py_get e "shortdef" JNull = sd) as -> by (unfold py_get; by rewrite Hsd).
  by rewrite Hfl_true, Hsd_true.
Qed.

(** X12: a term [look_up] returns carries the search word and at least one
    entry; its entries are, in the order of the response and as often as
    they occur in it, the elements of the response the loop keeps, no
    element of the response having raised; and an element, of the response
    or not, is one the loop keeps if and only if it is an object whose
    [meta] is an object with [lang] "es", whose headword ([hwi.hw], the
    empty string when absent) without its stars is the search word, and
    whose [fl] and [shortdef] are present and true.  So an element of the
    response is among the entries exactly when it meets these
    conditions. *)
Theorem mw_look_up_returns_the_matching_entries (word : string) (term : DictionaryTerm) :
  mw_look_up _fetch_mw_data float_is_true word = LookupTerm term →
  ∃ data,
    _fetch_mw_data word = Some (JList data) ∧
    headword term = word ∧
    entries term ≠ [] ∧
    raw_data <$> entries term =
      List.filter (λ entry, match check_entry float_is_true word entry with
                            | CheckKeep => true
                            | _ => false
                            end) data ∧
    Forall (λ entry, check_entry float_is_true word entry ≠ CheckRaises) data ∧
    (∀ element,
       check_entry float_is_true word element = CheckKeep ↔
       ∃ e meta hwi hw fl shortdef,
         element = JDict e ∧
         e !! "meta" = Some (JDict meta) ∧ meta !! "lang" = Some (JStr "es") ∧
         py_get e "hwi" (JDict ∅) = JDict hwi ∧ py_get hwi "hw" (JStr "") = JStr hw ∧
         word = remove_stars hw ∧
         e !! "fl" = Some fl ∧ truthy float_is_true fl = true ∧
         e !! "shortdef" = Some shortdef ∧ truthy float_is_true shortdef = true) ∧
    (∀ element,
       element ∈ raw_data <$> entries term ↔
       element ∈ data ∧
       ∃ e meta hwi hw fl shortdef,
         element = JDict e ∧
         e !! "meta" = Some (JDict meta) ∧ meta !! "lang" = Some (JStr "es") ∧
         py_get e "hwi" (JDict ∅) = JDict hwi ∧ py_get hwi "hw" (JStr "") = JStr hw ∧
         word = remove_stars hw ∧
         e !! "fl" = Some fl ∧ truthy float_is_true fl = true ∧
         e !! "shortdef" = Some shortdef ∧ truthy float_is_true shortdef = true).
Proof.
  unfold mw_look_up.
  destruct (_fetch_mw_data word) as [[| | | | |[|[| | | | | |first] rest]|]|]; try done.
  destruct (matching_entries float_is_true word (JDict first :: rest)) as [[|entry kept]|]
    eqn:Hmatch; try done.
  remember (Build_DictionaryEntry <$> entry :: kept) as es eqn:Hes.
  intros [= <-]. exists (JDict first :: rest). cbn [headword entries].
  apply matching_entries_filter in Hmatch as [Hkept Hall].
  assert (raw_data <$> es = entry :: kept) as Hraw.
  { rewrite Hes, <- list_fmap_compose. apply list_fmap_id. }
  rewrite Hraw.
  split; [done|]. split; [done|]. split; [by destruct es|]. split; [done|]. split; [done|].
  split; [intros element; apply check_entry_keep_iff|].
  intros element. rewrite Hkept, list_elem_of_In, List.filter_In, <- list_elem_of_In.
  rewrite <- check_entry_keep_iff.
  destruct (check_entry float_is_true word element); split; intros [? ?]; by split.
Qed.

End MwApiProperties.

(** * [data_loader.py] *)

Lemma all_str_list (l : list pyjson) :
  forallb (λ d, DataLoader.isinstance d DataLoader.PyStr) l = true ↔
  ∃ ds : list string, l = JStr <$> ds.
Proof.
  induction l as [|d l IH]; simpl.
  - split; [by exists []|done].
  - rewrite andb_true_iff, IH. split.
    + intros [Hd (ds & ->)]. destruct d; try done. by exists (s :: ds).
    + intros ([|s ds] & Heq); [done|]. injection Heq as -> ->. split; [done|by exists ds].
Qed.

Lemma from_dict_cases (data : gmap string pyjson) :
  match DataLoader.from_dict data with
  | DataLoader.Return entry =>
      ∃ w p ds,
        data !! "word" = Some (JStr w) ∧
        data !! "part_of_speech" = Some (JStr p) ∧
        data !! "definitions" = Some (JList (JStr <$> ds)) ∧
        entry = {| DataLoader.word := JStr w; DataLoader.part_of_speech := JStr p;
                   DataLoader.definitions := JList (JStr <$> ds) |}
  | DataLoader.Raise (DataLoader.ValidationError _) =>
      ¬ ∃ w p ds,
          data !! "word" = Some (JStr w) ∧
          data !! "part_of_speech" = Some (JStr p) ∧
          data !! "definitions" = Some (JList (JStr <$> ds))
  | DataLoader.Raise _ => False
  end.
Proof.
  destruct (data !! "word") as [w|] eqn:Hw;
    destruct (data !! "part_of_speech") as [p|] eqn:Hp;
    destruct (data !! "definitions") as [ds|] eqn:Hds;
    unfold DataLoader.from_dict, DataLoader.contains; simpl;
    rewrite ?Hw, ?Hp, ?Hds; simpl;
    try (intros (? & ? & ? & ? & ? & ?); done).
  destruct w as [| | | |w|?|?], p as [| | | |p|?|?], ds as [| | | | |defs|?]; simpl;
    rewrite ?Hw, ?Hp, ?Hds; simpl;
    try (intros (? & ? & ? & ? & ? & ?); done).
  destruct (forallb _ defs) eqn:Hall.
  - apply all_str_list in Hall as (ds & ->). by exists w, p, ds.
  - intros (? & ? & ds & _ & _ & [= Heq]).
    assert (forallb (λ d, DataLoader.isinstance d DataLoader.PyStr) defs = true) as Hall'
      by (apply all_str_list; by exists ds).
    exact (eq_true_false_abs _ Hall' Hall).
Qed.

(** The messages of the two refusals name the fields at fault, in the
    order of [required_fields]. *)
Lemma from_dict_messages :
  DataLoader.from_dict DataLoader.ill_typed_object =
    DataLoader.Raise (DataLoader.ValidationError
                        "Invalid types in dictionary data: word, definitions") ∧
  DataLoader.from_dict DataLoader.incomplete_object =
    DataLoader.Raise (DataLoader.ValidationError
                        "Missing required fields in dictionary data: word, definitions").
Proof. split; vm_compute; reflexivity. Qed.

Lemma load_entry_decoded_object (data : gmap string pyjson) :
  DataLoader.load_entry (DataLoader.FileDecoded (JDict data)) =
  if Nat.eqb (size data) 0 then (DataLoader.Return None, [])
  else match DataLoader.from_dict data with
       | DataLoader.Return entry => (DataLoader.Return (Some entry), [])
       | DataLoader.Raise (DataLoader.ValidationError e) =>
           (DataLoader.Return None, [DataLoader.InvalidDictionaryEntryData e])
       | DataLoader.Raise DataLoader.OSError =>
           (DataLoader.Return None, [DataLoader.IOErrorLoadingDictionaryEntry])
       | DataLoader.Raise e => (DataLoader.Raise e, [])
       end.
Proof.
  unfold DataLoader.load_entry, DataLoader.load_entry_body. simpl.
  destruct (Nat.eqb (size data) 0); [done|].
  by destruct (DataLoader.from_dict data) as [e|[msg| | | | |]].
Qed.

(** X13: [load_entry] returns an entry exactly for a dictionary file that
    holds a JSON object whose "word" and "part_of_speech" are strings and
    whose "definitions" is a list of strings, whatever else the object
    holds; the entry carries these three values, and nothing is logged. *)
Theorem load_entry_accepts_the_well_formed_objects
    (file : DataLoader.dictionary_file) (entry : DataLoader.DictionaryEntry)
    (logged : list DataLoader.log_message) :
  DataLoader.load_entry file = (DataLoader.Return (Some entry), logged) ↔
  ∃ data w p ds,
    file = DataLoader.FileDecoded (JDict data) ∧
    data !! "word" = Some (JStr w) ∧
    data !! "part_of_speech" = Some (JStr p) ∧
    data !! "definitions" = Some (JList (JStr <$> ds)) ∧
    entry = {| DataLoader.word := JStr w; DataLoader.part_of_speech := JStr p;
               DataLoader.definitions := JList (JStr <$> ds) |} ∧
    logged = [].
Proof.
  split.
  - destruct file as [| | | |[| | | | | |data]]; try done.
    rewrite load_entry_decoded_object.
    destruct (Nat.eqb (size data) 0); [done|].
    pose proof (from_dict_cases data) as Hcases.
    destruct (DataLoader.from_dict data) as [e|[msg| | | | |]]; try done.
    intros [= -> <-]. destruct Hcases as (w & p & ds & Hw & Hp & Hds & ->).
    by exists data, w, p, ds.
  - intros (data & w & p & ds & -> & Hw & Hp & Hds & -> & ->).
    rewrite load_entry_decoded_object.
    assert (Nat.eqb (size data) 0 = false) as ->.
    { apply Nat.eqb_neq. intros Hsize%map_size_empty_inv. subst data.
      by rewrite lookup_empty in Hw. }
    pose proof (from_dict_cases data) as Hcases.
    destruct (DataLoader.from_dict data) as [e|[msg| | | | |]]; try done.
    + destruct Hcases as (w' & p' & ds' & Hw' & Hp' & Hds' & ->).
      rewrite Hw in Hw'. rewrite Hp in Hp'. rewrite Hds in Hds'.
      by injection Hw' as <-; injection Hp' as <-; injection Hds' as <-.
    + exfalso. apply Hcases. by exists w, p, ds.
Qed.

(** X14: [load_entry] lets an exception escape exactly when reading the
    dictionary file raises one that is neither [OSError] nor
    [JSONDecodeError]: a file that is not UTF-8 ([UnicodeDecodeError]) or
    is nested too deep ([RecursionError]); nothing is logged then.  For a
    file that cannot be opened or read, is not JSON, or is decoded to any
    value, it returns: it logs at most one error, never the one of its own
    [OSError] clause, and it is silent exactly when it returns an entry or
    the file holds the empty object, for which it returns [None]. *)
Theorem load_entry_returns_unless_the_read_raises (file : DataLoader.dictionary_file) :
  match file with
  | DataLoader.FileUnicodeDecodeError =>
      DataLoader.load_entry file = (DataLoader.Raise DataLoader.UnicodeDecodeError, [])
  | DataLoader.FileRecursionError =>
      DataLoader.load_entry file = (DataLoader.Raise DataLoader.RecursionError, [])
  | _ =>
      ∃ r logged,
        DataLoader.load_entry file = (DataLoader.Return r, logged) ∧
        (length logged <= 1)%nat ∧
        (DataLoader.IOErrorLoadingDictionaryEntry ∉ logged) ∧
        (logged = [] ↔ is_Some r ∨ file = DataLoader.FileDecoded (JDict ∅))
  end.
Proof.
  destruct file as [| | | |j]; try reflexivity.
  - eexists _, _. split; [reflexivity|]. split; [simpl; lia|]. split; [set_solver|].
    split; [done|]. intros [[? ?]|?]; done.
  - eexists _, _. split; [reflexivity|]. split; [simpl; lia|]. split; [set_solver|].
    split; [done|]. intros [[? ?]|?]; done.
  - destruct j as [| | | | | |data];
      try (eexists _, _; split; [reflexivity|]; split; [simpl; lia|]; split; [set_solver|];
           split; [done|]; intros [[? ?]|?]; done).
    rewrite load_entry_decoded_object.
    destruct (Nat.eqb (size data) 0) eqn:Hsize.
    + apply Nat.eqb_eq, map_size_empty_inv in Hsize as ->.
      eexists _, _. split; [done|]. split; [simpl; lia|]. split; [set_solver|].
      split; [by right|done].
    + assert (data ≠ ∅) as Hne.
      { intros ->. by rewrite map_size_empty in Hsize. }
      pose proof (from_dict_cases data) as Hcases.
      destruct (DataLoader.from_dict data) as [e|[msg| | | | |]]; try done.
      * eexists _, _. split; [done|]. split; [simpl; lia|]. split; [set_solver|].
        split; [by left; eexists|done].
      * eexists _, _. split; [done|]. split; [simpl; lia|]. split; [set_solver|].
        split; [done|]. intros [[? ?]|?]; [done|]. simplify_eq.
Qed.

(** * The engine on the small vocabularies *)

Lemma dictionary_answers_the_query : look_up_answers_the_query dictionary.
Proof.
  intros word term. unfold dictionary.
  repeat case_bool_decide; intros [= <-]; done.
Qed.

(** [look_up] of [mw_api.py] answers the query, whatever the dictionary
    service returns: its term carries the search word and at least one
    entry. *)
Lemma mw_look_up_answers_the_query fetch float_is_true :
  look_up_answers_the_query (mw_look_up fetch float_is_true).
Proof.
  intros word term. unfold mw_look_up.
  repeat case_match; try done. by intros [= <-].
Qed.

Lemma mw_look_up_entries fetch float_is_true word term :
  mw_look_up fetch float_is_true word = LookupTerm term → entries term ≠ [].
Proof.
  unfold mw_look_up. repeat case_match; try done. by intros [= <-].
Qed.

Lemma started_eq :
  __init__ vocabulary dictionary FileMissing = Returned tt started.
Proof. vm_compute. reflexivity. Qed.

Lemma committed_once_eq :
  commit_entry vocabulary dictionary true started = Returned tt committed_once.
Proof. vm_compute. reflexivity. Qed.

Lemma committed_twice_eq :
  commit_entry vocabulary dictionary true committed_once = Returned tt committed_twice.
Proof. vm_compute. reflexivity. Qed.

Lemma undone_eq :
  undo vocabulary dictionary true committed_once = Returned tt undone.
Proof. vm_compute. reflexivity. Qed.

Lemma started_reachable : reachable vocabulary dictionary true started.
Proof. apply reachable_fresh. apply started_eq. Qed.

Lemma committed_once_reachable : reachable vocabulary dictionary true committed_once.
Proof.
  apply (reachable_operation _ _ _ CommitEntry started);
    [apply started_reachable | apply committed_once_eq].
Qed.

(** C6: on ["ser"; "xyzxyz"; "estar"], where "xyzxyz" has no dictionary
    entry and the others have one each, the start leaves the cursor on
    "ser" (headword 0, entry 0); the first [commit_entry] leaves it on
    "estar" (headword 2, entry 0) without reporting the end of the list,
    "xyzxyz" having been given the count 0 and passed over; the second
    [commit_entry] returns after logging that the end of the vocabulary
    list was reached. *)
Theorem commits_skip_the_word_without_entries :
  __init__ vocabulary dictionary FileMissing = Returned tt started ∧
  cursor started = (0, 0) ∧
  py_getitem vocabulary 0 = Some "ser" ∧
  commit_entry vocabulary dictionary true started = Returned tt committed_once ∧
  cursor committed_once = (2, 0) ∧
  py_getitem vocabulary 2 = Some "estar" ∧
  headword_entry_count (_data committed_once) !! "xyzxyz" = Some 0 ∧
  (Log INFO ReachedTheEndOfTheVocabularyList ∉ events_since started committed_once) ∧
  commit_entry vocabulary dictionary true committed_once = Returned tt committed_twice ∧
  Log INFO ReachedTheEndOfTheVocabularyList ∈ events_since committed_once committed_twice.
Proof.
  split; [apply started_eq|]. split; [by vm_compute|]. split; [by vm_compute|].
  split; [apply committed_once_eq|]. split; [by vm_compute|]. split; [by vm_compute|].
  split; [by vm_compute|].
  split.
  { intros Hin. vm_compute in Hin. repeat (apply elem_of_cons in Hin as [Hin|Hin]; [done|]).
    by apply elem_of_nil in Hin. }
  split; [apply committed_twice_eq|].
  vm_compute. apply list_elem_of_In. simpl. auto.
Qed.

Lemma started_on_ser_eq :
  __init__ vocabulary_unknown_first dictionary FileMissing = Returned tt started_on_ser.
Proof. vm_compute. reflexivity. Qed.

Lemma moved_to_estar_eq :
  commit_entry vocabulary_unknown_first dictionary true started_on_ser =
  Returned tt moved_to_estar.
Proof. vm_compute. reflexivity. Qed.

Lemma back_on_ser_eq :
  undo vocabulary_unknown_first dictionary true moved_to_estar = Returned tt back_on_ser.
Proof. vm_compute. reflexivity. Qed.

Lemma started_on_ser_reachable :
  reachable vocabulary_unknown_first dictionary true started_on_ser.
Proof. apply reachable_fresh. apply started_on_ser_eq. Qed.

Lemma moved_to_estar_reachable :
  reachable vocabulary_unknown_first dictionary true moved_to_estar.
Proof.
  apply (reachable_operation _ _ _ CommitEntry started_on_ser);
    [apply started_on_ser_reachable | apply moved_to_estar_eq].
Qed.

Ltac not_in_concrete :=
  let Hin := fresh "Hin" in
  intros Hin; vm_compute in Hin;
  repeat (apply elem_of_cons in Hin as [Hin|Hin]; [discriminate Hin|]);
  by apply elem_of_nil in Hin.

(** C1, the code at the failing input: a start without a history file on
    the vocabulary returns with the cursor on "ser", for which the provider
    has an entry, and with no count recorded for "ser", so that the cursor
    is not in bounds: [__init__] asks for the entries of the headword and
    does not record their number, as [_set_headword_index] does for every
    headword the cursor moves to. *)
Lemma start_leaves_no_count_recorded :
  __init__ vocabulary dictionary FileMissing = Returned tt started ∧
  py_getitem vocabulary (headword_index (_data started)) = Some "ser" ∧
  headword_entry_count (_data started) !! "ser" = None ∧
  ¬ cursor_in_bounds vocabulary started.
Proof.
  split; [apply started_eq|]. split; [by vm_compute|]. split; [by vm_compute|].
  intros (word & c & Hword & Hc & _).
  vm_compute in Hword. injection Hword as <-. by vm_compute in Hc.
Qed.

(** C2 fails as stated: with the history file missing, [__init__] returns
    from the default record without having logged any error. *)
Lemma missing_history_logs_no_error :
  __init__ vocabulary dictionary FileMissing = Returned tt started ∧
  _data started = _StateData_default ∧
  ∀ m, Log ERROR m ∉ trace started.
Proof.
  split; [apply started_eq|]. split; [by vm_compute|].
  intros m. not_in_concrete.
Qed.


(** C10: there is a state of a run, with the cursor on the first entry of
    a headword other than the first and a recorded count of zero for every
    earlier headword, in which [undo] returns having only logged that it
    cannot undo further, the history file untouched, and yet with the
    cursor moved to headword 0, entry 0. *)
Theorem failed_undo_leaves_the_cursor_moved :
  ∃ st st',
    reachable vocabulary dictionary true st ∧
    0 < headword_index (_data st) ∧ entry_index (_data st) = 0 ∧
    (∀ i, 0 <= i < headword_index (_data st) →
          ∃ word, py_getitem vocabulary i = Some word ∧
                  headword_entry_count (_data st) !! word = Some 0) ∧
    undo vocabulary dictionary true st = Returned tt st' ∧
    events_since st st' = [Log INFO AlreadyAtTheFirstEntry] ∧
    history st' = history st ∧
    headword_index (_data st') = 0 ∧ entry_index (_data st') = 0 ∧
    headword_index (_data st') ≠ headword_index (_data st).
Proof.
  exists committed_once, undone.
  split; [apply committed_once_reachable|]. split; [by vm_compute|]. split; [by vm_compute|].
  split.
  { intros i Hi. change (headword_index (_data committed_once)) with 2 in Hi.
    assert (i = 0 ∨ i = 1) as [-> | ->] by lia.
    - exists "ser". by vm_compute.
    - exists "xyzxyz". by vm_compute. }
  split; [apply undone_eq|]. split; [by vm_compute|]. split; [by vm_compute|].
  split; [by vm_compute|]. split; [by vm_compute|]. by vm_compute.
Qed.

(** ** The theorems at the small vocabularies *)

Lemma cursor_in_bounds_after_steps_witness :
  look_up_answers_the_query dictionary ∧
  (0 <= headword_index (_data started_on_ser) < len_headwords vocabulary_unknown_first ∧
   entry_index (_data started_on_ser) = 0) ∧
  cursor_in_bounds vocabulary_unknown_first moved_to_estar ∧
  cursor_in_bounds vocabulary_unknown_first back_on_ser.
Proof.
  destruct (cursor_in_bounds_after_steps vocabulary_unknown_first dictionary true
              dictionary_answers_the_query) as (Hinit & Hcommit & Hundo).
  split; [exact dictionary_answers_the_query|].
  split.
  { destruct (Hinit started_on_ser started_on_ser_eq) as (Hrange & He & _). by split. }
  split.
  - apply (Hcommit started_on_ser);
      [apply started_on_ser_reachable | apply moved_to_estar_eq | not_in_concrete].
  - apply (Hundo moved_to_estar);
      [apply moved_to_estar_reachable | apply back_on_ser_eq | not_in_concrete
      | right; vm_compute; reflexivity].
Defined.

Lemma commit_entry_moves_forward_witness :
  commit_entry vocabulary dictionary true started = Returned tt committed_once ∧
  cursor_lt (cursor started) (cursor committed_once).
Proof.
  split; [apply committed_once_eq|].
  destruct (commit_entry_moves_forward vocabulary dictionary true started) as [_ Hforward].
  apply (Hforward committed_once committed_once_eq).
Defined.

Lemma undo_then_commit_restores_cursor_witness :
  look_up_answers_the_query dictionary ∧
  reachable vocabulary_unknown_first dictionary true moved_to_estar ∧
  cursor moved_to_estar ≠ (0, 0) ∧
  ∃ st1 st2,
    undo vocabulary_unknown_first dictionary true moved_to_estar = Returned tt st1 ∧
    commit_entry vocabulary_unknown_first dictionary true st1 = Returned tt st2 ∧
    cursor st2 = cursor moved_to_estar.
Proof.
  split; [exact dictionary_answers_the_query|].
  split; [exact moved_to_estar_reachable|].
  assert (cursor moved_to_estar ≠ (0, 0)) as Hnot by (vm_compute; discriminate).
  split; [exact Hnot|].
  destruct (undo_then_commit_restores_cursor vocabulary_unknown_first dictionary true
              moved_to_estar dictionary_answers_the_query moved_to_estar_reachable)
    as [Hrestore _].
  exact (Hrestore Hnot).
Defined.

Lemma recorded_count_is_stable_witness :
  headword_entry_count (_data committed_once) !! "ser" = Some 0 ∧
  ∃ st',
    outcome_state (run_operations vocabulary dictionary true [Undo; CommitEntry; CurrentEntry]
                     committed_once) = Some st' ∧
    headword_entry_count (_data st') !! "ser" = Some 0 ∧
    LookUp ForCount "ser" ∉ events_since committed_once st'.
Proof.
  assert (headword_entry_count (_data committed_once) !! "ser" = Some 0) as Hser
    by (vm_compute; reflexivity).
  split; [exact Hser|].
  exact (recorded_count_is_stable vocabulary dictionary true
           [Undo; CommitEntry; CurrentEntry] committed_once "ser" 0 Hser).
Defined.


(** The assumption of C5 on the provider is needed: with a provider that
    answers "a" with the term of "b", [undo] followed by [commit_entry]
    ends on another cursor than the one it started from. *)
Lemma restoring_needs_answers_to_the_query :
  ¬ look_up_answers_the_query misdirecting_dictionary ∧
  reachable ["a"; "b"] misdirecting_dictionary true misdirected_start ∧
  cursor misdirected_start = (1, 0) ∧
  undo ["a"; "b"] misdirecting_dictionary true misdirected_start =
    Returned tt misdirected_undo ∧
  commit_entry ["a"; "b"] misdirecting_dictionary true misdirected_undo =
    Returned tt misdirected_commit ∧
  cursor misdirected_commit = (0, 1).
Proof.
  split.
  { intros H. specialize (H "a" {| headword := "b"; entries := [] |} eq_refl). done. }
  split; [apply reachable_fresh; vm_compute; reflexivity|].
  repeat split; vm_compute; reflexivity.
Qed.

Lemma restarted_on_stale_count_eq :
  __init__ vocabulary dictionary (FileJson (to_json stale_record)) =
  Returned tt restarted_on_stale_count.
Proof. vm_compute. reflexivity. Qed.

(** C5 fails as stated, in two ways.  With a history file whose count for
    "xyzxyz" dates from a session in which the provider had an entry for
    it, and a provider that answers the query and does not change between
    the calls: from the cursor on "estar" (headword 2, entry 0), [undo]
    stops on "xyzxyz", [current_term] skips forward to "estar" again, and
    the [commit_entry] that follows runs into the end of the list and
    leaves the cursor on entry 1.  With a provider that answers "a" with
    the term of "b": [undo] followed by [commit_entry] goes from (1, 0) to
    (0, 1). *)
Lemma undo_then_commit_does_not_restore :
  (look_up_answers_the_query dictionary ∧
   __init__ vocabulary dictionary (FileJson (to_json stale_record)) =
     Returned tt restarted_on_stale_count ∧
   cursor restarted_on_stale_count = (2, 0) ∧
   undo vocabulary dictionary true restarted_on_stale_count = Returned tt stale_undo ∧
   commit_entry vocabulary dictionary true stale_undo = Returned tt stale_commit ∧
   cursor stale_commit = (2, 1)) ∧
  (reachable ["a"; "b"] misdirecting_dictionary true misdirected_start ∧
   cursor misdirected_start = (1, 0) ∧
   undo ["a"; "b"] misdirecting_dictionary true misdirected_start =
     Returned tt misdirected_undo ∧
   commit_entry ["a"; "b"] misdirecting_dictionary true misdirected_undo =
     Returned tt misdirected_commit ∧
   cursor misdirected_commit = (0, 1)).
Proof.
  split.
  - split; [exact dictionary_answers_the_query|].
    split; [exact restarted_on_stale_count_eq|].
    repeat split; vm_compute; reflexivity.
  - destruct restoring_needs_answers_to_the_query as (_ & Hrest). exact Hrest.
Qed.

Lemma undo_at_start_is_noop_witness :
  headword_index (_data started) = 0 ∧ entry_index (_data started) = 0 ∧
  ∃ st',
    undo vocabulary dictionary true started = Returned tt st' ∧
    _data st' = _data started ∧
    _lookup_cache st' = _lookup_cache started ∧
    history st' = history started ∧
    trace st' = trace started ++ [Log INFO AlreadyAtTheFirstEntry].
Proof.
  assert (headword_index (_data started) = 0) as Hh by (vm_compute; reflexivity).
  assert (entry_index (_data started) = 0) as He by (vm_compute; reflexivity).
  split; [exact Hh|]. split; [exact He|].
  exact (undo_at_start_is_noop vocabulary dictionary true started Hh He).
Defined.

(** ** The further theorems at the small vocabularies *)

Lemma started_on_ser_in_bounds : cursor_in_bounds vocabulary_unknown_first started_on_ser.
Proof.
  exists "ser", 1. split; [vm_compute; reflexivity|]. split; [vm_compute; reflexivity|].
  split; [reflexivity|]. vm_compute. split; [discriminate|reflexivity].
Qed.

Lemma reachable_record_is_sound_witness :
  reachable vocabulary_unknown_first dictionary true moved_to_estar ∧
  0 <= headword_index (_data moved_to_estar) < len_headwords vocabulary_unknown_first ∧
  0 <= entry_index (_data moved_to_estar).
Proof.
  split; [exact moved_to_estar_reachable|].
  destruct (reachable_record_is_sound vocabulary_unknown_first dictionary true moved_to_estar
              moved_to_estar_reachable) as (Hh & He & _).
  by split.
Defined.

Lemma current_entry_returns_entry_under_cursor_witness :
  reachable vocabulary_unknown_first dictionary true started_on_ser ∧
  cursor_in_bounds vocabulary_unknown_first started_on_ser ∧
  ∃ entry st',
    current_entry vocabulary_unknown_first dictionary started_on_ser = Returned entry st' ∧
    _data st' = _data started_on_ser.
Proof.
  split; [exact started_on_ser_reachable|]. split; [exact started_on_ser_in_bounds|].
  destruct (current_entry_returns_entry_under_cursor vocabulary_unknown_first dictionary true
              started_on_ser started_on_ser_reachable started_on_ser_in_bounds)
    as (word & term & entry & st' & _ & _ & _ & Hentry & Hdata & _).
  by exists entry, st'.
Defined.

Lemma commit_entry_visits_the_entries_in_turn_witness :
  look_up_answers_the_query dictionary ∧
  reachable vocabulary_unknown_first dictionary true started_on_ser ∧
  py_getitem vocabulary_unknown_first (headword_index (_data started_on_ser)) = Some "ser" ∧
  headword_entry_count (_data started_on_ser) !! "ser" = Some 1 ∧
  0 <= entry_index (_data started_on_ser) < 1 ∧
  ∃ st',
    commit_entry vocabulary_unknown_first dictionary true started_on_ser = Returned tt st' ∧
    headword_entry_count (_data st') !! "ser" = Some 1.
Proof.
  assert (py_getitem vocabulary_unknown_first (headword_index (_data started_on_ser))
          = Some "ser") as Hword by (vm_compute; reflexivity).
  assert (headword_entry_count (_data started_on_ser) !! "ser" = Some 1) as Hcount
    by (vm_compute; reflexivity).
  assert (0 <= entry_index (_data started_on_ser) < 1) as Hin
    by (vm_compute; split; [discriminate|reflexivity]).
  split; [exact dictionary_answers_the_query|].
  split; [exact started_on_ser_reachable|].
  split; [exact Hword|]. split; [exact Hcount|]. split; [exact Hin|].
  destruct (commit_entry_visits_the_entries_in_turn vocabulary_unknown_first dictionary true
              started_on_ser "ser" 1 dictionary_answers_the_query started_on_ser_reachable
              Hword Hcount Hin) as (st' & Hcommit & Hkept & _).
  by exists st'.
Defined.

Lemma scan_stops_at_nearest_headword_with_entries_witness :
  (1 = 1 ∨ 1 = -1) ∧
  reachable vocabulary_unknown_first dictionary true started_on_ser ∧
  ∃ moved st',
    _advance_headword vocabulary_unknown_first dictionary 1 started_on_ser =
    Returned moved st' ∧
    ∀ word, usable_count dictionary (headword_entry_count (_data st')) word =
            usable_count dictionary (headword_entry_count (_data started_on_ser)) word.
Proof.
  split; [by left|]. split; [exact started_on_ser_reachable|].
  destruct (scan_stops_at_nearest_headword_with_entries vocabulary_unknown_first dictionary
              true started_on_ser 1 (or_introl eq_refl) started_on_ser_reachable)
    as (moved & st' & Hscan & Husable & _).
  by exists moved, st'.
Defined.

Lemma current_term_returns_term_under_cursor_witness :
  reachable vocabulary_unknown_first dictionary true started_on_ser ∧
  ((∃ term st', current_term vocabulary_unknown_first dictionary started_on_ser =
                Returned term st') ∨
   (∃ st', current_term vocabulary_unknown_first dictionary started_on_ser = SysExit st')).
Proof.
  split; [exact started_on_ser_reachable|].
  destruct (current_term_returns_term_under_cursor vocabulary_unknown_first dictionary true
              started_on_ser started_on_ser_reachable)
    as [(term & st' & word & Hterm & _) | (st' & word & Hexit & _)].
  - left. by exists term, st'.
  - right. by exists st'.
Defined.

Lemma restart_resumes_where_commit_saved_witness :
  true = true ∧
  reachable vocabulary_unknown_first dictionary true started_on_ser ∧
  commit_entry vocabulary_unknown_first dictionary true started_on_ser =
    Returned tt moved_to_estar ∧
  (∃ word, py_getitem vocabulary_unknown_first (headword_index (_data moved_to_estar))
           = Some word ∧ 0 < entries_of dictionary word) ∧
  history moved_to_estar = FileJson (to_json (_data moved_to_estar)) ∧
  ∃ st'', __init__ vocabulary_unknown_first dictionary (history moved_to_estar)
          = Returned tt st'' ∧ _data st'' = _data moved_to_estar.
Proof.
  assert (∃ word, py_getitem vocabulary_unknown_first (headword_index (_data moved_to_estar))
                  = Some word ∧ 0 < entries_of dictionary word) as Hword.
  { exists "estar". split; vm_compute; reflexivity. }
  split; [reflexivity|]. split; [exact started_on_ser_reachable|].
  split; [exact moved_to_estar_eq|]. split; [exact Hword|].
  exact (restart_resumes_where_commit_saved vocabulary_unknown_first dictionary true
           started_on_ser moved_to_estar eq_refl started_on_ser_reachable moved_to_estar_eq
           Hword).
Defined.

Lemma first_commit_after_fresh_start_leaves_first_headword_witness :
  look_up_answers_the_query dictionary ∧
  __init__ vocabulary dictionary FileMissing = Returned tt started ∧
  headword_index (_data started) = 0 ∧
  ∃ word st',
    py_getitem vocabulary 0 = Some word ∧
    0 < entries_of dictionary word ∧
    commit_entry vocabulary dictionary true started = Returned tt st' ∧
    headword_entry_count (_data st') !! word = Some 0.
Proof.
  assert (headword_index (_data started) = 0) as Hh by (vm_compute; reflexivity).
  split; [exact dictionary_answers_the_query|]. split; [exact started_eq|].
  split; [exact Hh|].
  destruct (first_commit_after_fresh_start_leaves_first_headword vocabulary dictionary true
              started dictionary_answers_the_query started_eq Hh)
    as (word & st' & Hword & Hentries & _ & Hcommit & Hzero & _).
  by exists word, st'.
Defined.

Lemma traversal_is_independent_of_saving_witness :
  same_memory started started ∧
  same_result (run_operations vocabulary dictionary true [CommitEntry; Undo] started)
              (run_operations vocabulary dictionary false [CommitEntry; Undo] started).
Proof.
  assert (same_memory started started) as Hsame by (split; reflexivity).
  split; [exact Hsame|].
  exact (traversal_is_independent_of_saving vocabulary dictionary true false
           [CommitEntry; Undo] started started Hsame).
Defined.

Lemma known_word_is_looked_up_once_witness :
  __init__ vocabulary_unknown_first dictionary FileMissing = Returned tt started_on_ser ∧
  outcome_state (run_operations vocabulary_unknown_first dictionary true [CommitEntry]
                   started_on_ser) = Some moved_to_estar ∧
  trace moved_to_estar =
    [LookUp ForTerm "xyzxyz"] ++ LookUp ForCount "ser" ::
    [LookUp ForCount "estar"; WriteHistory (to_json (_data moved_to_estar))] ∧
  dictionary "ser" = LookupTerm {| headword := "ser"; entries := [sense] |} ∧
  _lookup_cache moved_to_estar !! "ser" = Some {| headword := "ser"; entries := [sense] |} ∧
  ∀ why', LookUp why' "ser" ∉
          [LookUp ForCount "estar"; WriteHistory (to_json (_data moved_to_estar))].
Proof.
  assert (outcome_state (run_operations vocabulary_unknown_first dictionary true [CommitEntry]
                           started_on_ser) = Some moved_to_estar) as Hops
    by (vm_compute; reflexivity).
  assert (trace moved_to_estar =
            [LookUp ForTerm "xyzxyz"] ++ LookUp ForCount "ser" ::
            [LookUp ForCount "estar"; WriteHistory (to_json (_data moved_to_estar))]) as Htrace
    by (vm_compute; reflexivity).
  assert (dictionary "ser" = LookupTerm {| headword := "ser"; entries := [sense] |}) as Hlook
    by (vm_compute; reflexivity).
  split; [exact started_on_ser_eq|]. split; [exact Hops|]. split; [exact Htrace|].
  split; [exact Hlook|].
  exact (known_word_is_looked_up_once vocabulary_unknown_first dictionary true FileMissing
           [CommitEntry] started_on_ser moved_to_estar _ _ ForCount "ser" _
           started_on_ser_eq Hops Htrace Hlook).
Defined.

Lemma undo_after_commit_restores_cursor_witness :
  look_up_answers_the_query dictionary ∧
  reachable vocabulary_unknown_first dictionary true started_on_ser ∧
  cursor_in_bounds vocabulary_unknown_first started_on_ser ∧
  ∃ st1 st2,
    commit_entry vocabulary_unknown_first dictionary true started_on_ser = Returned tt st1 ∧
    undo vocabulary_unknown_first dictionary true st1 = Returned tt st2 ∧
    cursor st2 = cursor started_on_ser.
Proof.
  split; [exact dictionary_answers_the_query|].
  split; [exact started_on_ser_reachable|]. split; [exact started_on_ser_in_bounds|].
  destruct (undo_after_commit_restores_cursor vocabulary_unknown_first dictionary true
              started_on_ser dictionary_answers_the_query started_on_ser_reachable
              started_on_ser_in_bounds) as (st1 & st2 & Hcommit & Hundo & Hcursor & _).
  by exists st1, st2.
Defined.

Lemma mw_look_up_returns_the_matching_entries_witness :
  mw_look_up fetch_casa (λ _, true) "casa" = LookupTerm casa_term ∧
  ∃ data,
    fetch_casa "casa" = Some (JList data) ∧
    headword casa_term = "casa" ∧
    raw_data <$> entries casa_term =
      List.filter (λ entry, match check_entry (λ _, true) "casa" entry with
                            | CheckKeep => true
                            | _ => false
                            end) data.
Proof.
  assert (mw_look_up fetch_casa (λ _, true) "casa" = LookupTerm casa_term) as Hlook
    by (vm_compute; reflexivity).
  split; [exact Hlook|].
  destruct (mw_look_up_returns_the_matching_entries fetch_casa (λ _, true) "casa" casa_term
              Hlook) as (data & Hfetch & Hhead & _ & Hfilter & _).
  by exists data.
Defined.
